(** * feature-finder-im: IM binning and feature matching

    A shallow embedding of [feature_finder_im.py] (class
    [FeatureFinderIonMobility]) and of the helpers it calls.

    Conventions of the embedding:
    - a Python [float] is an exact rational ([Q]); [==] on floats is [Qeq],
      never the syntactic equality of numerator and denominator;
    - a Python list is a [list]; [l[i]] is [l !! i], and an index that
      Python rejects is the exception [IndexError];
    - code that can raise returns a [result];
    - [list.sort(key=...)] is a stable sort on the key. *)

From Stdlib Require Import ZArith QArith Qround Qabs Lia Lqa.
From Stdlib Require Strings.String Strings.Ascii.
From stdpp Require Import base list sorting gmap.
Import String.StringSyntax Ascii.AsciiSyntax.
Delimit Scope string_scope with string.
Delimit Scope char_scope with char.

Local Open Scope Q_scope.

(** ** Python values and exceptions *)

Inductive error : Set :=
  | ZeroDivisionError
  | IndexError
  | FileNotFound.

Inductive result (A : Type) : Type :=
  | Ok (a : A)
  | Raise (e : error).
Arguments Ok {A} a.
Arguments Raise {A} e.

#[global] Instance result_bind : MBind result := fun A B k r =>
  match r with
  | Ok a => k a
  | Raise e => Raise e
  end.

(** [a < b] and [a > b] on floats. *)
Definition Qlt_bool (a b : Q) : bool := negb (Qle_bool b a).

(** [a / b] on floats. *)
Definition fdiv (a b : Q) : result Q :=
  if Qeq_bool b 0 then Raise ZeroDivisionError else Ok (a / b).

(** [int(x)]: truncation towards zero. *)
Definition py_int (x : Q) : Z := Z.quot (Qnum x) (Zpos (Qden x)).

(** [l[i]] for a Python integer [i]: a negative index counts from the end. *)
Definition py_index {A} (l : list A) (i : Z) : result nat :=
  let n := Z.of_nat (length l) in
  if ((0 <=? i) && (i <? n))%Z then Ok (Z.to_nat i)
  else if ((- n <=? i) && (i <? 0))%Z then Ok (Z.to_nat (n + i))
  else Raise IndexError.

(** [l[i]] for an index produced by [range]. *)
Definition py_get {A} (l : list A) (i : nat) : result A :=
  match l !! i with
  | Some a => Ok a
  | None => Raise IndexError
  end.

(** Stable sort on a float key ([list.sort(key=...)], [sortByRT]). *)
Section Sorting.
Context {A : Type} (key : A -> Q).

Fixpoint insert_by (x : A) (l : list A) : list A :=
  match l with
  | [] => [x]
  | y :: l' =>
      if Qle_bool (key x) (key y) then x :: y :: l'
      else y :: insert_by x l'
  end.

Fixpoint sort_by (l : list A) : list A :=
  match l with
  | [] => []
  | x :: l' => insert_by x (sort_by l')
  end.

(** Ascending in the key. *)
Definition sorted_by (l : list A) : Prop :=
  StronglySorted (fun x y => key x <= key y) l.
End Sorting.

(** ** Points, spectra and experiments *)

(** A point is the Python list [[RT, mz, intensity, IM]]. *)
Record Point : Set := mkPoint {
  p_rt : Q;
  p_mz : Q;
  p_intensity : Q;
  p_im : Q
}.

(** [point[2] = v] on a copy of the point. *)
Definition set_intensity (p : Point) (v : Q) : Point :=
  mkPoint (p_rt p) (p_mz p) v (p_im p).

(** An [MSSpectrum]: its RT, its MS level, and its peaks [(mz, intensity)]
    zipped with its first float data array (the IM values). *)
Record MSSpectrum : Set := mkSpectrum {
  spec_rt : Q;
  spec_ms_level : Z;
  spec_peaks : list (Q * Q * Q)
}.

(** An [MSExperiment] is the sequence of its spectra. *)
Abbreviation MSExperiment := (list MSSpectrum).

(** [get_spectrum_points] (as [get_points] of im_binning.py): one point
    per peak, all carrying the RT of the spectrum. *)
Definition get_spectrum_points (spec : MSSpectrum) : list Point :=
  map (fun '(mz, intensity, im) => mkPoint (spec_rt spec) mz intensity im)
      (spec_peaks spec).

(** ** The feature finder's state *)

Record FeatureFinder : Type := mkFF {
  num_bins : Z;
  bin_size : Q;
  im_start : Q;
  im_end : Q;
  im_delta : Q;
  im_offset : Q;
  im_scan_nums : list Q * list Q;
  exps : list MSExperiment * list MSExperiment
}.

Definition MZ_EPSILON : Q := 1 # 1000.
Definition MIN_INTENSITY : Q := 1 # 10.
Definition RT_THRESHOLD : Q := 5.
Definition MZ_THRESHOLD : Q := 1 # 100.

Definition reset : FeatureFinder :=
  mkFF 0 0 0 0 0 0 ([], []) ([], [[]]).

Definition set_exps (ff : FeatureFinder) (e : list MSExperiment * list MSExperiment)
  : FeatureFinder :=
  mkFF (num_bins ff) (bin_size ff) (im_start ff) (im_end ff) (im_delta ff)
       (im_offset ff) (im_scan_nums ff) e.

(** [range(n)] for a Python integer [n]. *)
Definition py_range (n : Z) : list nat := seq 0 (Z.to_nat n).

(** [setup_bins], given the IM extrema of the experiment and [num_bins]
    already stored by [run]. *)
Definition setup_bins (ff : FeatureFinder) (extrema : Q * Q) : result FeatureFinder :=
  let '(start, stop) := extrema in
  let delta := stop - start in
  size ← fdiv delta (inject_Z (num_bins ff));
  let offset := start + size / 2 in
  let fresh := replicate (Z.to_nat (num_bins ff)) ([] : MSExperiment) in
  Ok (mkFF (num_bins ff) size start stop delta offset (im_scan_nums ff)
           ((exps ff).1 ++ fresh, (exps ff).2 ++ fresh)).

(** ** Binning one spectrum *)

Definition within_epsilon (target var : Q) : bool :=
  Qle_bool (target - MZ_EPSILON) var && Qle_bool var (target + MZ_EPSILON).

(** Lines 94-96: the bin of a point on the unshifted grid. *)
Definition bin_idx0 (ff : FeatureFinder) (p : Point) : result Z :=
  q ← fdiv (p_im p - im_start ff) (bin_size ff);
  let bin_idx := py_int q in
  Ok (if (bin_idx >=? num_bins ff)%Z then (num_bins ff - 1)%Z else bin_idx).

(** Lines 99-103: the bin of a point on the offset grid. *)
Definition bin_idx1 (ff : FeatureFinder) (p : Point) : result Z :=
  q ← fdiv (p_im p - im_offset ff) (bin_size ff);
  let bin_idx := (py_int q + 1)%Z in
  Ok (if Qlt_bool (p_im p) (im_offset ff) then 0%Z
      else if (bin_idx >? num_bins ff)%Z then num_bins ff
      else bin_idx).

(** [bins[bin_idx].append(p)]. *)
Definition bin_append (bins : list (list Point)) (bin_idx : Z) (p : Point)
  : result (list (list Point)) :=
  k ← py_index bins bin_idx;
  Ok (alter (fun b => b ++ [p]) k bins).

(** Lines 93-104: assigning the points to the bins of both passes. *)
Fixpoint assign_points (ff : FeatureFinder) (points : list Point)
    (temp_bins : list (list Point) * list (list Point))
  : result (list (list Point) * list (list Point)) :=
  match points with
  | [] => Ok temp_bins
  | p :: rest =>
      (i0 ← bin_idx0 ff p;
       t0 ← bin_append temp_bins.1 i0 p;
       i1 ← bin_idx1 ff p;
       t1 ← bin_append temp_bins.2 i1 p;
       assign_points ff rest (t0, t1))
  end.

(** Lines 85-91: [temp_bins] (and [new_bins]) before any point is assigned. *)
Definition empty_bins (ff : FeatureFinder) : list (list Point) * list (list Point) :=
  let n := Z.to_nat (num_bins ff) in
  (replicate n [], [] :: replicate n []).

(** Lines 111-126: the anchor-based merge of one bin, already sorted by
    m/z.  [start] is the point [temp_bins[.][i][mz_start]]; the bin is not
    written to during the loop, so the index and the point it designates
    are interchangeable. *)
Fixpoint merge_loop (bin : list Point) (start : Point) (curr_mz : Q)
    (running_intensity : Q) (new_bin : list Point) : list Point :=
  match bin with
  | [] => new_bin ++ [set_intensity start running_intensity]
  | p :: rest =>
      if within_epsilon curr_mz (p_mz p)
      then merge_loop rest start curr_mz (running_intensity + p_intensity p) new_bin
      else merge_loop rest p (p_mz p) (p_intensity p)
                      (new_bin ++ [set_intensity start running_intensity])
  end.

(** Lines 107-126 for one bin: [None] when the bin is empty (the
    [continue]), else the merged points. *)
Definition merge_bin (temp_bin : list Point) : option (list Point) :=
  match sort_by p_mz temp_bin with
  | [] => None
  | (first :: _) as sorted => Some (merge_loop sorted first (p_mz first) 0 [])
  end.

(** Lines 128-136: the synthetic spectrum of one bin. *)
Definition make_spectrum (spec : MSSpectrum) (new_bin : list Point) : MSSpectrum :=
  mkSpectrum (spec_rt spec) 1
             (map (fun p => (p_mz p, p_intensity p, p_im p)) new_bin).

(** One iteration of the loop over the bins of a pass: [exps[.][i]] gets
    the synthetic spectrum unless the bin is empty. *)
Definition bin_pass_step (spec : MSSpectrum) (temp : list (list Point))
    (store : list MSExperiment) (i : nat) : result (list MSExperiment) :=
  temp_bin ← py_get temp i;
  match merge_bin temp_bin with
  | None => Ok store
  | Some new_bin =>
      (exp ← py_get store i;
       Ok (<[i := exp ++ [make_spectrum spec new_bin]]> store))
  end.

Fixpoint bin_pass (spec : MSSpectrum) (temp : list (list Point))
    (store : list MSExperiment) (idxs : list nat) : result (list MSExperiment) :=
  match idxs with
  | [] => Ok store
  | i :: rest =>
      (store' ← bin_pass_step spec temp store i;
       bin_pass spec temp store' rest)
  end.

Definition bin_spectrum (ff : FeatureFinder) (spec : MSSpectrum) : result FeatureFinder :=
  let points := sort_by p_im (get_spectrum_points spec) in
  temp_bins ← assign_points ff points (empty_bins ff);
  e0 ← bin_pass spec temp_bins.1 (exps ff).1 (py_range (num_bins ff));
  e1 ← bin_pass spec temp_bins.2 (exps ff).2 (py_range (num_bins ff + 1));
  Ok (set_exps ff (e0, e1)).

(** ** Bin statistics *)

(** The binned spectra on disk: the file [b-<run>-<bin>.mzML] is the
    entry [(run, bin)]. *)
Abbreviation Disk := (gmap (nat * nat) MSExperiment).

(** [MzMLFile().load]: a missing file is an exception. *)
Definition load (disk : Disk) (run bin : nat) : result MSExperiment :=
  match disk !! (run, bin) with
  | Some exp => Ok exp
  | None => Raise FileNotFound
  end.

(** Lines 205 and 212-219 of [compute_bin_im]. *)
Definition weighted_im (all_points : list Point) : Q :=
  let total_intensity := fold_left (fun acc p => acc + p_intensity p) all_points 0 in
  if negb (Qeq_bool total_intensity 0)
  then fold_left (fun acc p => acc + p_im p * (p_intensity p / total_intensity))
                 all_points 0
  else 0.

Definition compute_bin_im (disk : Disk) (run bin : nat) : result Q :=
  exp ← load disk run bin;
  Ok (weighted_im (concat (map get_spectrum_points exp))).

(** ** Features *)

(** A feature as the matching code reads it: position, intensity and the
    hull points of its convex hull.  Unique ids are not modelled. *)
Record Feature : Set := mkFeature {
  getRT : Q;
  getMZ : Q;
  getIntensity : Q;
  getConvexHull : list (Q * Q)
}.

Abbreviation FeatureMap := (list Feature).

(** [f == g] on features: equality by value. *)
Fixpoint hull_eqb (h1 h2 : list (Q * Q)) : bool :=
  match h1, h2 with
  | [], [] => true
  | (x1, y1) :: t1, (x2, y2) :: t2 =>
      Qeq_bool x1 x2 && Qeq_bool y1 y2 && hull_eqb t1 t2
  | _, _ => false
  end.

Definition feature_eqb (f g : Feature) : bool :=
  Qeq_bool (getRT f) (getRT g) && Qeq_bool (getMZ f) (getMZ g)
  && Qeq_bool (getIntensity f) (getIntensity g)
  && hull_eqb (getConvexHull f) (getConvexHull g).

(** [f in features]. *)
Definition feature_in (f : Feature) (features : FeatureMap) : bool :=
  existsb (feature_eqb f) features.

(** ** Helpers of common_utils_im *)

(** Modelled from the spec: [binary_search_left_rt] and
    [binary_search_left_rt2] of common_utils_im.py, which is not among the
    sources.  Section 4.1: the leftmost index [i] such that
    [features[i].RT >= target]; the sequence length when there is none.
    [rt] reads the RT of an element ([f.getRT()], or [x[0].getRT()] for the
    list of pairs). *)
Fixpoint binary_search_left_rt {A} (rt : A -> Q) (features : list A) (target : Q) : nat :=
  match features with
  | [] => O
  | f :: rest =>
      if Qle_bool target (rt f) then O
      else S (binary_search_left_rt rt rest target)
  end.

(** Modelled from the spec: [similar_features] of common_utils_im.py.
    Section 4.1: true iff [|f1.RT - f2.RT| <= rtThreshold] and
    [|f1.mz - f2.mz| <= mzThreshold]. *)
Definition similar_features (f1 f2 : Feature) (rt_threshold mz_threshold : Q) : bool :=
  Qle_bool (Qabs (getRT f1 - getRT f2)) rt_threshold
  && Qle_bool (Qabs (getMZ f1 - getMZ f2)) mz_threshold.

(** Modelled from the spec: [polygon_area] of common_utils_im.py.
    Section 4.1: the absolute area enclosed by an ordered polygon, by the
    shoelace formula. *)
Fixpoint shoelace (first prev : Q * Q) (rest : list (Q * Q)) : Q :=
  match rest with
  | [] => prev.1 * first.2 - first.1 * prev.2
  | p :: rest' => (prev.1 * p.2 - p.1 * prev.2) + shoelace first p rest'
  end.

Definition polygon_area (hull : list (Q * Q)) : Q :=
  match hull with
  | [] => 0
  | first :: rest => Qabs (shoelace first first rest) / 2
  end.

Definition area (f : Feature) : Q := polygon_area (getConvexHull f).

(** [sortByRT] and [sortByPosition] of a feature map.  The position of a
    feature is [(RT, m/z)], compared lexicographically.  OpenMS does not
    promise an order among features of equal key; the stable order is
    taken here, and the proofs below use only that the result is a sorted
    permutation. *)
Definition sortByRT (features : FeatureMap) : FeatureMap :=
  sort_by getRT features.

Definition sortByPosition (features : FeatureMap) : FeatureMap :=
  sort_by getRT (sort_by getMZ features).

(** The loop that keeps the candidate of largest area: a later candidate
    replaces the current one only when its area is strictly larger. *)
Definition max_area_step {A} (feature_of : A -> Feature) (best : Q * A) (c : A) : Q * A :=
  if Qlt_bool best.1 (area (feature_of c)) then (area (feature_of c), c) else best.

Definition max_by_area {A} (feature_of : A -> Feature) (init : Q * A) (similar : list A) : Q * A :=
  fold_left (max_area_step feature_of) similar init.

(** ** Intra-bin matching *)

(** Lines 243-251: the scan of the RT window of [feature1]; [j] is the
    index of the head of [rest] in the feature map. *)
Fixpoint scan_internal (feature1 : Feature) (i j : nat) (rest : list Feature)
    (similar : list Feature) : list Feature :=
  match rest with
  | [] => similar
  | feature2 :: rest' =>
      if Nat.eqb i j then scan_internal feature1 i (S j) rest' similar
      else if Qlt_bool (getRT feature1 + RT_THRESHOLD) (getRT feature2) then similar
      else if similar_features feature1 feature2 RT_THRESHOLD MZ_THRESHOLD
           then scan_internal feature1 i (S j) rest' (similar ++ [feature2])
           else scan_internal feature1 i (S j) rest' similar
  end.

(** Lines 236-257: the representative chosen for [features[i]]. *)
Definition internal_representative (features : FeatureMap) (i : nat) (feature1 : Feature)
  : Feature :=
  let first_idx := binary_search_left_rt getRT features (getRT feature1 - RT_THRESHOLD) in
  let similar := scan_internal feature1 i first_idx (drop first_idx features) [] in
  (max_by_area id (area feature1, feature1) similar).2.

(** Lines 235-260: [todo] is what is left of [features] from index [i]. *)
Fixpoint internal_loop (features : FeatureMap) (i : nat) (todo : list Feature)
    (matched : FeatureMap) : FeatureMap :=
  match todo with
  | [] => matched
  | feature1 :: todo' =>
      let max_feature := internal_representative features i feature1 in
      internal_loop features (S i) todo'
        (if feature_in max_feature matched then matched else matched ++ [max_feature])
  end.

(** [match_features_internal]: the caller's feature map after the call
    (sorted in place), and the returned map. *)
Definition match_features_internal (features : FeatureMap) : FeatureMap * FeatureMap :=
  let features := sortByRT features in
  (features, internal_loop features 0 features []).

(** ** Cross-bin matching within one pass *)

(** [used[b][j]] and [used[b][j] = v]. *)
Definition get2 (used : list (list bool)) (b j : nat) : result bool :=
  row ← py_get used b; py_get row j.

Definition set2 (used : list (list bool)) (b j : nat) (v : bool) : list (list bool) :=
  alter (fun row => <[j := v]> row) b used.

(** A chain as [match_features_pass] builds it.  [chain_indices] is the
    list [feature_indices], head first; [chain_rep] is the pair appended to
    [matched].  [chain_consumed] is ghost state: the positions whose [used]
    flag the chain has set. *)
Record Chain : Set := mkChain {
  chain_indices : list (nat * nat);
  chain_consumed : list (nat * nat);
  chain_rep : Feature * nat
}.

(** Lines 297-306: the scan of bin [next_idx]; [j] is the index of the
    head of [rest] in that bin. *)
Fixpoint scan_pass (feature1 : Feature) (next_idx j : nat) (rest : list Feature)
    (used : list (list bool)) (similar : list (Feature * nat))
  : result (list (Feature * nat) * list (list bool)) :=
  match rest with
  | [] => Ok (similar, used)
  | feature2 :: rest' =>
      (u ← get2 used next_idx j;
       if (u : bool) then scan_pass feature1 next_idx (S j) rest' used similar
       else if Qlt_bool (getRT feature1 + RT_THRESHOLD) (getRT feature2)
            then Ok (similar, used)
       else if similar_features feature1 feature2 RT_THRESHOLD MZ_THRESHOLD
            then scan_pass feature1 next_idx (S j) rest' (set2 used next_idx j true)
                           (similar ++ [(feature2, j)])
            else scan_pass feature1 next_idx (S j) rest' used similar)
  end.

(** Lines 293-320: the [while] loop; [bins] is what is left of
    [features] from index [next_idx]. *)
Fixpoint extend_chain (feature1 : Feature) (next_idx : nat) (bins : list FeatureMap)
    (used : list (list bool)) (feature_indices consumed : list (nat * nat))
  : result (list (nat * nat) * list (nat * nat) * list (list bool)) :=
  match bins with
  | [] => Ok (feature_indices, consumed, used)
  | next :: bins' =>
      let first_idx := binary_search_left_rt getRT next (getRT feature1 - RT_THRESHOLD) in
      ('(similar, used') ← scan_pass feature1 next_idx first_idx (drop first_idx next) used [];
       match similar with
       | [] => Ok (feature_indices, consumed, used')
       | first :: others =>
           let max_feature := (max_by_area fst (area first.1, first) others).2 in
           extend_chain feature1 (S next_idx) bins' used'
             (feature_indices ++ [(next_idx, max_feature.2)])
             (consumed ++ map (fun s => (next_idx, s.2)) similar)
       end)
  end.

(** Lines 322-329: the feature of largest intensity along the chain. *)
Fixpoint chain_max (features : list FeatureMap) (feature_indices : list (nat * nat))
    (best : Q * Feature * nat) : result (Q * Feature * nat) :=
  match feature_indices with
  | [] => Ok best
  | (b_idx, f_idx) :: rest =>
      (bin ← py_get features b_idx;
       f ← py_get bin f_idx;
       let intensity := getIntensity f in
       if Qlt_bool best.1.1 intensity
       then chain_max features rest (intensity, f, b_idx)
       else chain_max features rest best)
  end.

(** Lines 285-331 for one bin; [todo] is what is left of
    [features[bin_idx]] from index [i]. *)
Fixpoint pass_bin_loop (features : list FeatureMap) (bin_idx i : nat)
    (todo : list Feature) (used : list (list bool)) (chains : list Chain)
  : result (list (list bool) * list Chain) :=
  match todo with
  | [] => Ok (used, chains)
  | feature1 :: todo' =>
      (u ← get2 used bin_idx i;
       if (u : bool) then pass_bin_loop features bin_idx (S i) todo' used chains
       else
         '(feature_indices, consumed, used') ←
            extend_chain feature1 (S bin_idx) (drop (S bin_idx) features) used
                         [(bin_idx, i)] [];
         '(_, max_feature, max_idx) ←
            chain_max features feature_indices (getIntensity feature1, feature1, bin_idx);
         pass_bin_loop features bin_idx (S i) todo' used'
           (chains ++ [mkChain feature_indices consumed (max_feature, max_idx)]))
  end.

(** Lines 284-331; [todo] is what is left of [features] from [bin_idx]. *)
Fixpoint pass_loop (features : list FeatureMap) (bin_idx : nat) (todo : list FeatureMap)
    (used : list (list bool)) (chains : list Chain) : result (list Chain) :=
  match todo with
  | [] => Ok chains
  | bin :: todo' =>
      ('(used', chains') ← pass_bin_loop features bin_idx 0 bin used chains;
       pass_loop features (S bin_idx) todo' used' chains')
  end.

(** Lines 273-282: the caller's maps after both sorts, and [used]. *)
Definition sort_bins (features : list FeatureMap) : list FeatureMap :=
  map (fun bin => sortByRT (sortByPosition bin)) features.

Definition fresh_used (features : list FeatureMap) : list (list bool) :=
  map (fun bin => replicate (length bin) false) features.

(** The chains of one pass, with the caller's maps after the call. *)
Definition match_features_pass_chains (features : list FeatureMap)
  : result (list FeatureMap * list Chain) :=
  let features := sort_bins features in
  chains ← pass_loop features 0 features (fresh_used features) [];
  Ok (features, chains).

(** [match_features_pass]: the caller's maps after the call (each sorted
    in place) and the returned list [matched].  The debugging list
    [not_unique] is never read and is left out. *)
Definition match_features_pass (features : list FeatureMap)
  : result (list FeatureMap * list (Feature * nat)) :=
  '(features', chains) ← match_features_pass_chains features;
  Ok (features', map chain_rep chains).

(** ** Matching across the two passes *)

(** Lines 361-371: the scan of the second pass for [feature1]; [j] is the
    index of the head of [rest] in [pass2]. *)
Fixpoint scan_cross (feature1 : Feature) (bin1 j : nat) (rest : list (Feature * nat))
    (used : list bool) (similar : list (Feature * nat))
  : result (list (Feature * nat) * list bool) :=
  match rest with
  | [] => Ok (similar, used)
  | (feature2, bin2) :: rest' =>
      (u ← py_get used j;
       if (u : bool) then scan_cross feature1 bin1 (S j) rest' used similar
       else if Qlt_bool (getRT feature1 + RT_THRESHOLD) (getRT feature2)
            then Ok (similar, used)
       else if similar_features feature1 feature2 RT_THRESHOLD MZ_THRESHOLD
               && (Nat.eqb bin1 bin2 || Nat.eqb (bin1 + 1) bin2)
            then scan_cross feature1 bin1 (S j) rest' (<[j := true]> used)
                            (similar ++ [(feature2, bin2)])
            else scan_cross feature1 bin1 (S j) rest' used similar)
  end.

(** Lines 376-380: [im_scan_nums[1][bin2]] is read only for a candidate
    that becomes the new maximum. *)
Fixpoint pick_cross (ims2 : list Q) (similar : list (Feature * nat)) (max_area : Q)
    (max_feature : Feature * Q) : result (Feature * Q) :=
  match similar with
  | [] => Ok max_feature
  | (feature2, bin2) :: rest =>
      if Qlt_bool max_area (area feature2)
      then (im ← py_get ims2 bin2; pick_cross ims2 rest (area feature2) (feature2, im))
      else pick_cross ims2 rest max_area max_feature
  end.

(** Lines 358-382 for one representative [(feature1, bin1)] of the first
    pass: the pair appended to [feature_bins], and [used] afterwards. *)
Definition cross_pass_one (ims : list Q * list Q) (feature1 : Feature) (bin1 : nat)
    (pass2 : list (Feature * nat)) (used : list bool)
  : result (Feature * Q * list bool) :=
  let first_idx :=
    binary_search_left_rt (fun x => getRT x.1) pass2 (getRT feature1 - RT_THRESHOLD) in
  '(similar, used') ← scan_cross feature1 bin1 first_idx (drop first_idx pass2) used [];
  im1 ← py_get ims.1 bin1;
  max_feature ← pick_cross ims.2 similar (area feature1) (feature1, im1);
  Ok (max_feature, used').

(** Lines 357-382. *)
Fixpoint cross_pass_loop (ims : list Q * list Q) (pass1 pass2 : list (Feature * nat))
    (used : list bool) (feature_bins : list (Feature * Q))
  : result (list (Feature * Q) * list bool) :=
  match pass1 with
  | [] => Ok (feature_bins, used)
  | (feature1, bin1) :: rest =>
      ('(max_feature, used') ← cross_pass_one ims feature1 bin1 pass2 used;
       cross_pass_loop ims rest pass2 used' (feature_bins ++ [max_feature]))
  end.

(** Lines 384-386: the features unique to the second pass; [j] is the
    index of the head of [rest] in [pass2]. *)
Fixpoint second_pass_only (ims2 : list Q) (j : nat) (rest : list (Feature * nat))
    (used : list bool) (feature_bins : list (Feature * Q)) : result (list (Feature * Q)) :=
  match rest with
  | [] => Ok feature_bins
  | (feature2, bin2) :: rest' =>
      (u ← py_get used j;
       if (u : bool) then second_pass_only ims2 (S j) rest' used feature_bins
       else
         im ← py_get ims2 bin2;
         second_pass_only ims2 (S j) rest' used (feature_bins ++ [(feature2, im)]))
  end.

(** A cluster of the cleanup sweep: the feature [feature_bins[i]] that
    starts it, the list [similar], and the pair kept for the cluster. *)
Record Cluster : Set := mkCluster {
  cluster_anchor : Feature * Q;
  cluster_similar : list (Feature * Q);
  cluster_rep : Feature * Q
}.

Definition cluster_members (c : Cluster) : list (Feature * Q) :=
  cluster_anchor c :: cluster_similar c.

(** Lines 401-410; [j] is the index of the head of [rest] in
    [feature_bins]. *)
Fixpoint scan_clean (anchor : Feature * Q) (j : nat) (rest : list (Feature * Q))
    (used : list bool) (similar : list (Feature * Q))
  : result (list (Feature * Q) * list bool) :=
  match rest with
  | [] => Ok (similar, used)
  | candidate :: rest' =>
      (u ← py_get used j;
       if (u : bool) then scan_clean anchor (S j) rest' used similar
       else if Qlt_bool (getRT anchor.1 + RT_THRESHOLD) (getRT candidate.1)
            then Ok (similar, used)
       else if similar_features anchor.1 candidate.1 RT_THRESHOLD MZ_THRESHOLD
               && Qeq_bool anchor.2 candidate.2
            then scan_clean anchor (S j) rest' (<[j := true]> used) (similar ++ [candidate])
            else scan_clean anchor (S j) rest' used similar)
  end.

(** Lines 393-420; [todo] is what is left of [feature_bins] from [i]. *)
Fixpoint clean_loop (feature_bins : list (Feature * Q)) (i : nat)
    (todo : list (Feature * Q)) (used : list bool) (clusters : list Cluster)
  : result (list Cluster) :=
  match todo with
  | [] => Ok clusters
  | anchor :: todo' =>
      (u ← py_get used i;
       if (u : bool) then clean_loop feature_bins (S i) todo' used clusters
       else
         let used1 := <[i := true]> used in
         let first_idx :=
           binary_search_left_rt (fun x => getRT x.1) feature_bins
                                 (getRT anchor.1 - RT_THRESHOLD) in
         '(similar, used2) ←
            scan_clean anchor first_idx (drop first_idx feature_bins) used1 [];
         let max_feature := (max_by_area fst (area anchor.1, anchor) similar).2 in
         clean_loop feature_bins (S i) todo' used2
                    (clusters ++ [mkCluster anchor similar max_feature]))
  end.

(** Lines 388-420: the cleanup sweep over the combined list. *)
Definition cleanup (feature_bins : list (Feature * Q)) : result (list Cluster) :=
  let feature_bins := sort_by (fun x => getRT x.1) feature_bins in
  clean_loop feature_bins 0 feature_bins (replicate (length feature_bins) false) [].

(** Lines 349-386: the combined list before the cleanup sweep, with the
    caller's maps after the call. *)
Definition combine_passes (ims : list Q * list Q) (features1 features2 : list FeatureMap)
  : result (list FeatureMap * list FeatureMap * list (Feature * Q)) :=
  '(features1', pass1) ← match_features_pass features1;
  '(features2', pass2) ← match_features_pass features2;
  let used := replicate (length pass2) false in
  let pass2 := sort_by (fun x => getRT x.1) pass2 in
  '(feature_bins, used') ← cross_pass_loop ims pass1 pass2 used [];
  feature_bins' ← second_pass_only ims.2 0 pass2 used' feature_bins;
  Ok (features1', features2', feature_bins').

(** The clusters of the cleanup sweep of [match_features]. *)
Definition match_features_clusters (ims : list Q * list Q)
    (features1 features2 : list FeatureMap)
  : result (list FeatureMap * list FeatureMap * list Cluster) :=
  '(features1', features2', feature_bins) ← combine_passes ims features1 features2;
  clusters ← cleanup feature_bins;
  Ok (features1', features2', clusters).

(** [match_features]: the caller's maps after the call, [cleaned] and
    [clean_bins]. *)
Definition match_features (ff : FeatureFinder) (features1 features2 : list FeatureMap)
  : result (list FeatureMap * list FeatureMap * (FeatureMap * list (Feature * Q))) :=
  '(features1', features2', clusters) ←
     match_features_clusters (im_scan_nums ff) features1 features2;
  Ok (features1', features2',
      (map (fun c => (cluster_rep c).1) clusters, map cluster_rep clusters)).

(** ** The pipeline *)

(** Modelled from the spec: [combine_experiments] of common_utils_im.py,
    which is not among the sources.  Section 6: the store appends to what
    it already holds.  [write_exps] treats a file that does not exist yet
    as empty (the [except: pass]). *)
Definition write_bin (run : nat) (cache : list MSExperiment) (disk : Disk) (i : nat)
  : result Disk :=
  new ← py_get cache i;
  Ok (<[(run, i) := default [] (disk !! (run, i)) ++ new]> disk).

Fixpoint write_pass (run : nat) (cache : list MSExperiment) (disk : Disk)
    (idxs : list nat) : result Disk :=
  match idxs with
  | [] => Ok disk
  | i :: rest => (disk' ← write_bin run cache disk i; write_pass run cache disk' rest)
  end.

(** [exps[.][i].clear(True)]. *)
Definition clear_bin (cache : list MSExperiment) (i : nat) : result (list MSExperiment) :=
  _ ← py_get cache i;
  Ok (<[i := []]> cache).

Fixpoint clear_pass (cache : list MSExperiment) (idxs : list nat)
  : result (list MSExperiment) :=
  match idxs with
  | [] => Ok cache
  | i :: rest => (cache' ← clear_bin cache i; clear_pass cache' rest)
  end.

Definition reset_write_cache (ff : FeatureFinder) : result FeatureFinder :=
  e0 ← clear_pass (exps ff).1 (py_range (num_bins ff));
  e1 ← clear_pass (exps ff).2 (py_range (num_bins ff));
  e1' ← py_index e1 (num_bins ff) ≫= clear_bin e1;
  Ok (set_exps ff (e0, e1')).

Definition write_exps (ff : FeatureFinder) (disk : Disk) : result (FeatureFinder * Disk) :=
  disk0 ← write_pass 0 (exps ff).1 disk (py_range (num_bins ff));
  disk1 ← write_pass 1 (exps ff).2 disk0 (py_range (num_bins ff + 1));
  ff' ← reset_write_cache ff;
  Ok (ff', disk1).

(** Lines 598-605 of [run]; [i] is the index of the head of [spectra]. *)
Fixpoint binning_loop (ff : FeatureFinder) (disk : Disk) (i : nat)
    (spectra : list MSSpectrum) : result (FeatureFinder * Disk) :=
  match spectra with
  | [] => Ok (ff, disk)
  | spec :: rest =>
      if negb (spec_ms_level spec =? 1)%Z then binning_loop ff disk (S i) rest
      else
        (ff1 ← bin_spectrum ff spec;
         '(ff2, disk') ← (if Nat.eqb (i mod 500) 0 then write_exps ff1 disk
                          else Ok (ff1, disk));
         binning_loop ff2 disk' (S i) rest)
  end.

(** Lines 609-612 of [run]. *)
Fixpoint bin_ims (disk : Disk) (idxs : list nat) (ims : list Q * list Q)
  : result (list Q * list Q) :=
  match idxs with
  | [] => Ok ims
  | i :: rest =>
      (a ← compute_bin_im disk 0 i;
       b ← compute_bin_im disk 1 i;
       bin_ims disk rest (ims.1 ++ [a], ims.2 ++ [b]))
  end.

Definition set_im_scan_nums (ff : FeatureFinder) (ims : list Q * list Q) : FeatureFinder :=
  mkFF (num_bins ff) (bin_size ff) (im_start ff) (im_end ff) (im_delta ff)
       (im_offset ff) ims (exps ff).

Definition set_num_bins (ff : FeatureFinder) (n : Z) : FeatureFinder :=
  mkFF n (bin_size ff) (im_start ff) (im_end ff) (im_delta ff)
       (im_offset ff) (im_scan_nums ff) (exps ff).

(** What [run] produces: the returned feature map and, when it is
    written, the rows of [features-im.csv]. *)
Record Output : Set := mkOutput {
  out_features : FeatureMap;
  out_features_im : option (list (Q * Q * Q))
}.

Section Pipeline.
(** The collaborators of the pipeline: the IM range scan, the optional
    noise filter and peak picker, the test for a non-empty experiment
    and the existing 2D feature finder. *)
Variable get_im_extrema : MSExperiment -> Q * Q.
Variable preprocess : MSExperiment -> MSExperiment.
Variable has_peaks : MSExperiment -> bool.
Variable run_ff : MSExperiment -> FeatureMap.

(** Lines 512-547 of [find_features] for bin [i] of pass [j]. *)
Definition find_bin (disk : Disk) (j i : nat) : result FeatureMap :=
  exp ← load disk j i;
  let new_exp := preprocess exp in
  let temp_features := if has_peaks new_exp then run_ff new_exp else [] in
  Ok (match_features_internal temp_features).2.

Fixpoint find_pass (disk : Disk) (j : nat) (idxs : list nat) (features : list FeatureMap)
  : result (list FeatureMap) :=
  match idxs with
  | [] => Ok features
  | i :: rest =>
      (temp_features ← find_bin disk j i;
       find_pass disk j rest (features ++ [temp_features]))
  end.

Definition find_features (ff : FeatureFinder) (disk : Disk)
  : result (list FeatureMap * list FeatureMap) :=
  let nb := (num_bins ff, if (num_bins ff =? 1)%Z then 0%Z else (num_bins ff + 1)%Z) in
  features0 ← find_pass disk 0 (py_range nb.1) [];
  features1 ← find_pass disk 1 (py_range nb.2) [];
  Ok (features0, features1).

(** [run].  The benchmark log, [bins-im.txt] and the removal of the
    temporary files are left out. *)
Definition run (exp : MSExperiment) (n : Z) : result Output :=
  ff0 ← setup_bins (set_num_bins reset n) (get_im_extrema exp);
  '(ff1, disk1) ← binning_loop ff0 ∅ 0 exp;
  '(ff2, disk) ← write_exps ff1 disk1;
  ims ← bin_ims disk (py_range (num_bins ff2)) (im_scan_nums ff2);
  last ← compute_bin_im disk 1 (Z.to_nat (num_bins ff2));
  let ff := set_im_scan_nums ff2 (ims.1, ims.2 ++ [last]) in
  '(features1, features2) ← find_features ff disk;
  if (num_bins ff =? 1)%Z
  then (only ← py_get features1 0; Ok (mkOutput only None))
  else
    '(_, _, (all_features, feature_bins)) ← match_features ff features1 features2;
    Ok (mkOutput all_features
          (Some (map (fun x => (getRT x.1, getMZ x.1, x.2)) feature_bins))).
End Pipeline.

(** ** The words of the specification *)

(** Section 4.2, the runs of a bin sorted by m/z: a run starts at a point
    and takes the points that follow for as long as their m/z is within
    [mzEpsilon] of the m/z of that first point. *)
Fixpoint take_run (first_mz : Q) (l : list Point) : list Point * list Point :=
  match l with
  | [] => ([], [])
  | p :: l' =>
      if within_epsilon first_mz (p_mz p)
      then let '(run, rest) := take_run first_mz l' in (p :: run, rest)
      else ([], l)
  end.

Fixpoint runs_fuel (fuel : nat) (l : list Point) : list (list Point) :=
  match fuel, l with
  | S fuel', first :: l' =>
      let '(run, rest) := take_run (p_mz first) l' in
      (first :: run) :: runs_fuel fuel' rest
  | _, _ => []
  end.

Definition runs (l : list Point) : list (list Point) := runs_fuel (length l) l.

(** Whether a bin-index function sends the point [p] to bin [k]. *)
Definition in_bin (bin_idx : FeatureFinder -> Point -> result Z) (ff : FeatureFinder)
    (k : nat) (p : Point) : bool :=
  match bin_idx ff p with
  | Ok i => (i =? Z.of_nat k)%Z
  | Raise _ => false
  end.

(** The number of points held by the bins of a pass. *)
Definition total_points (bins : list (list Point)) : nat :=
  sum_list (length <$> bins).

(** The sum of the intensities of the points of a run. *)
Definition sum_intensity (run : list Point) : Q :=
  fold_right (fun p acc => p_intensity p + acc) 0 run.



(** The calls of [bin_spectrum] made by [run] on a sequence of MS1
    spectra, leaving out the flushes to disk. *)
Fixpoint bin_all (ff : FeatureFinder) (spectra : list MSSpectrum) : result FeatureFinder :=
  match spectra with
  | [] => Ok ff
  | spec :: rest => (ff' ← bin_spectrum ff spec; bin_all ff' rest)
  end.

(** The bins of both passes for one spectrum (lines 82-104). *)
Definition assigned (ff : FeatureFinder) (spec : MSSpectrum)
  : result (list (list Point) * list (list Point)) :=
  assign_points ff (sort_by p_im (get_spectrum_points spec)) (empty_bins ff).

(** Whether bin [k] of a pass ([run] is 0 or 1) receives a point of the
    spectrum. *)
Definition receives (ff : FeatureFinder) (run k : nat) (spec : MSSpectrum) : bool :=
  match assigned ff spec with
  | Ok temp_bins =>
      match (if Nat.eqb run 0 then temp_bins.1 else temp_bins.2) !! k with
      | Some (_ :: _) => true
      | _ => false
      end
  | Raise _ => false
  end.

(** One more synthetic spectrum, or none. *)
Definition bump (b : bool) : nat := if b then 1%nat else 0%nat.

(** A merged point stands for a run: it has the m/z, RT and IM of the
    first point of the run and the summed intensity of the run. *)
Definition merged_from (out : Point) (run : list Point) : Prop :=
  exists first rest,
    run = first :: rest /\
    p_mz out = p_mz first /\ p_rt out = p_rt first /\ p_im out = p_im first /\
    p_intensity out == sum_intensity run.

(** ** Concrete inputs *)

(** The bin of section 8: two stored points (IM 1.0, intensity 10) and
    (IM 3.0, intensity 30). *)
Definition two_point_bin : MSExperiment :=
  [mkSpectrum 0 1 [(100, 10, 1); (200, 30, 3)]].

(** A spectrum with two points of one pass-0 bin that the merge joins:
    IM 1.0 with intensity 10 and IM 3.0 with intensity 30, at m/z 100 and
    100.0005. *)
Definition close_spectrum : MSSpectrum :=
  mkSpectrum 7 1 [(100, 10, 1); (100 + (5 # 10000), 30, 3)].


(** Two bins on the IM range [1, 7], as [setup_bins] leaves them. *)
Definition two_bins : FeatureFinder :=
  mkFF 2 ((7 - 1) / inject_Z 2) 1 7 (7 - 1) (1 + (7 - 1) / inject_Z 2 / 2)
       ([], []) ([[]; []], [[]; []; []]).

(** ** Properties of feature maps *)

(** No two features of the map are equal by value. *)
Fixpoint distinct_values (features : FeatureMap) : bool :=
  match features with
  | [] => true
  | f :: rest => negb (feature_in f rest) && distinct_values rest
  end.

(** No feature of the map has, in the map, a similar peer of strictly
    larger hull area. *)
Definition no_larger_similar_peer (features : FeatureMap) : Prop :=
  forall f p, f ∈ features -> p ∈ features ->
    similar_features f p RT_THRESHOLD MZ_THRESHOLD = true -> area p <= area f.

(** A hull of area [w]: the rectangle of width [w] and height 1. *)
Definition box (w : Q) : list (Q * Q) := [(0, 0); (w, 0); (w, 1); (0, 1)].

(** Three features at one RT whose m/z are 0.008 apart, of growing hull
    area: the first and the last are similar to the middle one and not to
    each other. *)
Definition chain_a : Feature := mkFeature 0 100 10 (box 1).
Definition chain_b : Feature := mkFeature 0 (100 + (8 # 1000)) 20 (box 2).
Definition chain_c : Feature := mkFeature 0 (100 + (16 # 1000)) 30 (box 3).

(** ** Properties of the chains of a pass *)

(** [features[b][j]] and [used[b][j]] at a position [(b, j)]. *)
Definition feature_at (features : list FeatureMap) (pos : nat * nat) : option Feature :=
  features !! pos.1 ≫= fun bin => bin !! pos.2.

Definition get_flag (used : list (list bool)) (pos : nat * nat) : option bool :=
  used !! pos.1 ≫= fun row => row !! pos.2.

(** [used] has a flag for every feature. *)
Definition covers (used : list (list bool)) (features : list FeatureMap) : Prop :=
  forall pos, is_Some (feature_at features pos) -> is_Some (get_flag used pos).

(** From [used] to [used'], exactly the positions of [new] went from
    [False] to [True]. *)
Definition consumes (used used' : list (list bool)) (new : list (nat * nat)) : Prop :=
  NoDup new /\
  (forall pos, pos ∈ new ->
     get_flag used pos = Some false /\ get_flag used' pos = Some true) /\
  (forall pos, pos ∉ new -> get_flag used' pos = get_flag used pos).

(** The positions a chain owns: its head and the positions it consumed. *)
Definition chain_positions (c : Chain) : list (nat * nat) :=
  take 1 (chain_indices c) ++ chain_consumed c.

Definition all_positions (chains : list Chain) : list (nat * nat) :=
  concat (map chain_positions chains).

(** [pos] comes before [cur] in the order in which the loops visit the
    positions. *)
Definition before (pos cur : nat * nat) : Prop :=
  (pos.1 < cur.1)%nat \/ (pos.1 = cur.1 /\ (pos.2 < cur.2)%nat).

(** What section 4.5 says of one chain: it has a head, its links are
    among the features it consumed, which all lie in later bins and are
    similar to the head; its representative is a feature of the chain,
    paired with the bin of that feature, and no feature of the chain
    (head or link) has a larger intensity. *)
Definition chain_ok (features : list FeatureMap) (c : Chain) : Prop :=
  exists head links head_feature,
    chain_indices c = head :: links /\
    feature_at features head = Some head_feature /\
    (forall pos, pos ∈ links -> pos ∈ chain_consumed c) /\
    (forall pos, pos ∈ chain_consumed c ->
       (head.1 < pos.1)%nat /\
       exists f, feature_at features pos = Some f /\
                 similar_features head_feature f RT_THRESHOLD MZ_THRESHOLD = true) /\
    (exists k, ((chain_rep c).2, k) ∈ chain_indices c /\
               feature_at features ((chain_rep c).2, k) = Some (chain_rep c).1) /\
    (forall pos f, pos ∈ chain_indices c -> feature_at features pos = Some f ->
       getIntensity f <= getIntensity (chain_rep c).1).

(** The invariant of the loops of [match_features_pass] when they reach
    the position [cur]. *)
Definition pass_inv (features : list FeatureMap) (used : list (list bool))
    (chains : list Chain) (cur : nat * nat) : Prop :=
  covers used features /\
  NoDup (all_positions chains) /\
  (forall pos, pos ∈ all_positions chains ->
     before pos cur \/ get_flag used pos = Some true) /\
  Forall (chain_ok features) chains.

(** ** Properties of the scans of the cross-pass reconciler *)

(** The window scan shared by lines 361-371 and lines 401-410: from
    index [j] on, skip the used candidates, stop at the first unused one
    whose RT exceeds [limit], and take (and mark) the unused ones that
    satisfy [cond]. *)
Fixpoint scan_window {A} (rt : A -> Q) (limit : Q) (cond : A -> bool) (j : nat)
    (rest : list A) (used : list bool) (similar : list A)
  : result (list A * list bool) :=
  match rest with
  | [] => Ok (similar, used)
  | c :: rest' =>
      (u ← py_get used j;
       if (u : bool) then scan_window rt limit cond (S j) rest' used similar
       else if Qlt_bool limit (rt c) then Ok (similar, used)
       else if cond c
            then scan_window rt limit cond (S j) rest' (<[j := true]> used) (similar ++ [c])
            else scan_window rt limit cond (S j) rest' used similar)
  end.

(** From [used] to [used'], exactly the indices of [new] went from
    [False] to [True]. *)
Definition consumes1 (used used' : list bool) (new : list nat) : Prop :=
  NoDup new /\ length used' = length used /\
  (forall k, k ∈ new -> used !! k = Some false /\ used' !! k = Some true) /\
  (forall k, k ∉ new -> used' !! k = used !! k).

(** What the cleanup sweep guarantees of one cluster over the combined
    list [feature_bins]: its members are entries of the list; every member
    other than the anchor is similar to the anchor and carries the same IM
    value; the pair kept is a member of largest hull area. *)
Definition cluster_ok (feature_bins : list (Feature * Q)) (c : Cluster) : Prop :=
  (forall m, m ∈ cluster_members c -> m ∈ feature_bins) /\
  (forall m, m ∈ cluster_similar c ->
     similar_features (cluster_anchor c).1 m.1 RT_THRESHOLD MZ_THRESHOLD = true /\
     (cluster_anchor c).2 == m.2) /\
  cluster_rep c ∈ cluster_members c /\
  (forall m, m ∈ cluster_members c -> area m.1 <= area (cluster_rep c).1).

(** Three features of one bin with the same hull: [near_lo] and [near_hi]
    are each within the thresholds of [near_mid], and 0.016 apart in m/z
    from each other. *)
Definition near_mid : Feature := mkFeature 0 100 10 (box 1).
Definition near_hi : Feature := mkFeature 1 (100 + (8 # 1000)) 10 (box 1).
Definition near_lo : Feature := mkFeature 1 (100 - (8 # 1000)) 10 (box 1).

(** Average IM values of two first-pass bins and three second-pass bins. *)
Definition some_ims : list Q * list Q := ([1; 2], [1; 2; 3]).

(** A feature of one of the maps of a pass. *)
Definition feature_of_pass (features : list FeatureMap) (f : Feature) : Prop :=
  exists bin, bin ∈ features /\ f ∈ bin.

(** ** The single-bin run, in the words of the specification *)

(** Section 4.6, special case: with one bin the run bins the spectra and
    computes the bin statistics as usual, then runs the detector and the
    intra-bin deduplication on the single bin of the first pass; the
    deduplicated set is the output, with no IM attached.  No chain
    matching, no second pass, no cross-pass matching. *)
Definition run_single_bin (get_im_extrema : MSExperiment -> Q * Q)
    (preprocess : MSExperiment -> MSExperiment) (has_peaks : MSExperiment -> bool)
    (run_ff : MSExperiment -> FeatureMap) (exp : MSExperiment) : result Output :=
  ff0 ← setup_bins (set_num_bins reset 1) (get_im_extrema exp);
  '(ff1, disk1) ← binning_loop ff0 ∅ 0 exp;
  '(ff2, disk) ← write_exps ff1 disk1;
  _ ← bin_ims disk [0%nat] (im_scan_nums ff2);
  _ ← compute_bin_im disk 1 1;
  bin ← load disk 0 0;
  let detected := if has_peaks (preprocess bin) then run_ff (preprocess bin) else [] in
  Ok (mkOutput (match_features_internal detected).2 None).

(** A detector that reports [chain_a], [chain_b] and [chain_c] on every
    experiment. *)
Definition three_features (exp : MSExperiment) : FeatureMap :=
  [chain_a; chain_b; chain_c].

Definition non_empty (exp : MSExperiment) : bool :=
  negb (Nat.eqb (length exp) 0).

(** ** The write cache and the files of the bins *)

(** The synthetic spectra that one spectrum contributes to the bins of a
    pass, given the points it put in each bin: one spectrum for a bin
    that holds a point, none for an empty bin. *)
Definition pass_delta (spec : MSSpectrum) (temp : list (list Point)) : list MSExperiment :=
  map (fun pts => match merge_bin pts with
                  | Some new_bin => [make_spectrum spec new_bin]
                  | None => []
                  end) temp.

(** What the bins of a pass hold in total: for each bin, the spectra in
    its file followed by the spectra still in the write cache. *)
Definition held (run : nat) (disk : Disk) (cache : list MSExperiment) : list MSExperiment :=
  imap (fun k c => default [] (disk !! (run, k)) ++ c) cache.

(** Whether a spectrum is an MS1 scan. *)
Definition is_ms1 (spec : MSSpectrum) : bool := (spec_ms_level spec =? 1)%Z.

(** ** Features owned by the chains *)

(** Every feature that the loops of [match_features_pass] visited before
    the position [cur], and every feature whose [used] flag is set, is
    owned by a chain. *)
Definition accounted (features : list FeatureMap) (used : list (list bool))
    (chains : list Chain) (cur : nat * nat) : Prop :=
  (forall pos, is_Some (feature_at features pos) -> before pos cur ->
     pos ∈ all_positions chains) /\
  (forall pos, get_flag used pos = Some true -> pos ∈ all_positions chains).

(** ** Entries consumed by the cleanup sweep *)

(** The entries of [l] whose [used] flag is set, in order. *)
Fixpoint flagged {A} (used : list bool) (l : list A) : list A :=
  match used, l with
  | u :: used', x :: l' => if u then x :: flagged used' l' else flagged used' l'
  | _, _ => []
  end.

(** ** The command line *)

(** [l] begins with [prefix], character by character. *)
Fixpoint starts_with (prefix l : list Ascii.ascii) : bool :=
  match prefix, l with
  | [], _ => true
  | c :: prefix', d :: l' => Ascii.eqb c d && starts_with prefix' l'
  | _ :: _, [] => false
  end.

(** [s.endswith(suffix)]: the last characters of [s] are those of
    [suffix]. *)
Definition endswith (s suffix : String.string) : bool :=
  starts_with (rev (String.list_ascii_of_string suffix))
              (rev (String.list_ascii_of_string s)).

(** Line 730 of the script: whether the output name [args.out] is
    refused (the message is printed and the script exits with 1). *)
Definition out_rejected (out : String.string) : bool :=
  negb (endswith out ".featureXML"%string) || endswith out ".mzML"%string.

(** * Verification *)

(** ** Floats and sorting *)

Lemma Qle_bool_true (a b : Q) : Qle_bool a b = true <-> a <= b.
Proof. apply Qle_bool_iff. Qed.

Lemma Qle_bool_false (a b : Q) : Qle_bool a b = false <-> b < a.
Proof.
  split; intros H.
  - apply Qnot_le_lt. intros Hle. apply Qle_bool_iff in Hle. congruence.
  - destruct (Qle_bool a b) eqn:E; [|done].
    apply Qle_bool_iff in E. exfalso. eapply Qlt_not_le; eauto.
Qed.

Lemma Qlt_bool_true (a b : Q) : Qlt_bool a b = true <-> a < b.
Proof.
  unfold Qlt_bool. rewrite negb_true_iff. apply Qle_bool_false.
Qed.

Lemma Qlt_bool_false (a b : Q) : Qlt_bool a b = false <-> b <= a.
Proof.
  unfold Qlt_bool. rewrite negb_false_iff. apply Qle_bool_true.
Qed.

Section SortingFacts.
Context {A : Type} (key : A -> Q).

Lemma insert_by_perm (x : A) (l : list A) : insert_by key x l ≡ₚ x :: l.
Proof.
  induction l as [|y l IH]; simpl; [done|].
  destruct (Qle_bool (key x) (key y)); [done|].
  rewrite IH. apply Permutation_swap.
Qed.

Lemma sort_by_perm (l : list A) : sort_by key l ≡ₚ l.
Proof.
  induction l as [|x l IH]; simpl; [done|].
  rewrite insert_by_perm. by rewrite IH.
Qed.

Lemma sort_by_length (l : list A) : length (sort_by key l) = length l.
Proof. apply Permutation_length, sort_by_perm. Qed.

Lemma insert_by_sorted (x : A) (l : list A) :
  sorted_by key l -> sorted_by key (insert_by key x l).
Proof.
  unfold sorted_by. induction l as [|y l IH]; simpl; intros Hs.
  - repeat constructor.
  - apply StronglySorted_inv in Hs as [Hl Hy].
    destruct (Qle_bool (key x) (key y)) eqn:E.
    + apply Qle_bool_true in E. constructor; [by constructor|].
      constructor; [done|].
      eapply Forall_impl; [exact Hy|]. intros z Hz. simpl in Hz.
      eapply Qle_trans; eauto.
    + apply Qle_bool_false in E. constructor; [by apply IH|].
      rewrite (insert_by_perm x l). constructor; [|done].
      by apply Qlt_le_weak.
Qed.

Lemma sort_by_sorted (l : list A) : sorted_by key (sort_by key l).
Proof.
  induction l as [|x l IH]; simpl; [constructor|].
  by apply insert_by_sorted.
Qed.

Lemma sort_by_elem_of (x : A) (l : list A) : x ∈ sort_by key l <-> x ∈ l.
Proof. by rewrite sort_by_perm. Qed.

Lemma sort_by_nil_inv (l : list A) : sort_by key l = [] -> l = [].
Proof.
  intros H. apply Permutation_nil_r. rewrite <- H. symmetry. apply sort_by_perm.
Qed.
End SortingFacts.

(** ** The anchor-based merge *)

Lemma within_epsilon_refl (mz : Q) : within_epsilon mz mz = true.
Proof.
  unfold within_epsilon, MZ_EPSILON. apply andb_true_iff.
  split; apply Qle_bool_true; lra.
Qed.

Lemma sum_intensity_snoc (run : list Point) (p : Point) :
  sum_intensity (run ++ [p]) == sum_intensity run + p_intensity p.
Proof.
  induction run as [|q run IH]; simpl.
  - ring.
  - change (p_intensity q + sum_intensity (run ++ [p])
            == p_intensity q + sum_intensity run + p_intensity p).
    rewrite IH. ring.
Qed.

Lemma take_run_app (mz : Q) (l : list Point) :
  (take_run mz l).1 ++ (take_run mz l).2 = l.
Proof.
  induction l as [|p l IH]; simpl; [done|].
  destruct (within_epsilon mz (p_mz p)); [|done].
  destruct (take_run mz l) as [run rest]. simpl in *. by rewrite IH.
Qed.

Lemma take_run_length (mz : Q) (l : list Point) :
  (length (take_run mz l).2 <= length l)%nat.
Proof.
  rewrite <- (take_run_app mz l) at 2. rewrite length_app. lia.
Qed.


Lemma runs_fuel_enough (n m : nat) (l : list Point) :
  (length l <= n)%nat -> (length l <= m)%nat -> runs_fuel n l = runs_fuel m l.
Proof.
  revert m l. induction n as [|n IH]; intros m l Hn Hm.
  - destruct l; [|simpl in Hn; lia]. by destruct m.
  - destruct l as [|first l]; [by destruct m|].
    destruct m as [|m]; [simpl in Hm; lia|]. simpl.
    pose proof (take_run_length (p_mz first) l) as Hlen.
    destruct (take_run (p_mz first) l) as [run rest]. simpl in *.
    f_equal. apply IH; lia.
Qed.

Lemma runs_cons (first : Point) (l : list Point) :
  runs (first :: l) =
  (first :: (take_run (p_mz first) l).1) :: runs (take_run (p_mz first) l).2.
Proof.
  unfold runs. simpl.
  pose proof (take_run_length (p_mz first) l) as Hlen.
  destruct (take_run (p_mz first) l) as [run rest]. simpl in *.
  f_equal. apply runs_fuel_enough; lia.
Qed.

Lemma runs_concat (l : list Point) : concat (runs l) = l.
Proof.
  remember (length l) as n eqn:Hn. revert l Hn.
  induction n as [n IH] using lt_wf_ind. intros l Hn.
  destruct l as [|first l]; [done|].
  rewrite runs_cons. simpl. f_equal.
  pose proof (take_run_length (p_mz first) l) as Hlen.
  rewrite (IH (length (take_run (p_mz first) l).2)); [|simpl in Hn; lia|done].
  apply take_run_app.
Qed.

(** The loop invariant of [merge_loop]: [start :: pre] is the part of the
    current run already read and [running_intensity] is its sum. *)
Lemma merge_loop_runs (l : list Point) :
  forall start pre running_intensity new_bin done_runs,
    running_intensity == sum_intensity (start :: pre) ->
    Forall2 merged_from new_bin done_runs ->
    Forall2 merged_from
      (merge_loop l start (p_mz start) running_intensity new_bin)
      (done_runs ++
         (start :: pre ++ (take_run (p_mz start) l).1)
         :: runs (take_run (p_mz start) l).2).
Proof.
  induction l as [|p l IH]; intros start pre ri new_bin done_runs Hri Hdone; simpl.
  - apply Forall2_app; [done|]. rewrite app_nil_r.
    constructor; [|constructor].
    exists start, pre. by repeat split.
  - destruct (within_epsilon (p_mz start) (p_mz p)) eqn:E.
    + specialize (IH start (pre ++ [p]) (ri + p_intensity p) new_bin done_runs).
      destruct (take_run (p_mz start) l) as [run rest]. simpl in *.
      rewrite <- app_assoc in IH. apply IH; [|done].
      rewrite Hri.
      change (sum_intensity (start :: pre) + p_intensity p
              == sum_intensity ((start :: pre) ++ [p])).
      by rewrite sum_intensity_snoc.
    + simpl. rewrite app_nil_r, runs_cons.
      specialize (IH p [] (p_intensity p)
                     (new_bin ++ [set_intensity start ri])
                     (done_runs ++ [start :: pre])).
      rewrite <- app_assoc in IH. simpl in IH. apply IH.
      * simpl. ring.
      * apply Forall2_app; [done|]. constructor; [|constructor].
        exists start, pre. by repeat split.
Qed.


(** ** Bin assignment *)

#[local] Arguments Qfloor : simpl never.

Lemma py_int_floor (q : Q) : 0 <= q -> py_int q = Qfloor q.
Proof.
  destruct q as [n d]. unfold py_int, Qle. simpl. intros H.
  apply Z.quot_div_nonneg; lia.
Qed.

Lemma Qfloor_nonneg (q : Q) : 0 <= q -> (0 <= Qfloor q)%Z.
Proof. intros H. apply (Qfloor_resp_le 0 q) in H. exact H. Qed.

Lemma Qdiv_nonneg (a b : Q) : 0 <= a -> 0 < b -> 0 <= a / b.
Proof. intros Ha Hb. apply Qle_shift_div_l; [done|]. lra. Qed.

Lemma fdiv_pos (a b : Q) : 0 < b -> fdiv a b = Ok (a / b).
Proof.
  intros Hb. unfold fdiv. destruct (Qeq_bool b 0) eqn:E; [|done].
  apply Qeq_bool_iff in E. lra.
Qed.

Lemma py_index_in_range {A} (l : list A) (i : Z) :
  (0 <= i < Z.of_nat (length l))%Z -> py_index l i = Ok (Z.to_nat i).
Proof.
  intros H. unfold py_index.
  destruct (0 <=? i)%Z eqn:E1; [|lia]. destruct (i <? _)%Z eqn:E2; [done|lia].
Qed.

Lemma total_points_alter (bins : list (list Point)) (k : nat) (p : Point) :
  (k < length bins)%nat ->
  total_points (alter (fun b => b ++ [p]) k bins) = S (total_points bins).
Proof.
  unfold total_points. revert k. induction bins as [|b bins IH]; intros k Hk.
  - simpl in Hk. lia.
  - destruct k as [|k]; csimpl.
    + rewrite length_app. simpl. lia.
    + simpl in Hk. rewrite IH; lia.
Qed.

Lemma total_points_replicate (n : nat) : total_points (replicate n []) = 0%nat.
Proof. unfold total_points. induction n; simpl; auto. Qed.

Lemma bin_append_spec (bins : list (list Point)) (i : Z) (p : Point) :
  (0 <= i < Z.of_nat (length bins))%Z ->
  exists bins',
    bin_append bins i p = Ok bins' /\
    length bins' = length bins /\
    total_points bins' = S (total_points bins) /\
    forall k b, bins !! k = Some b ->
      bins' !! k = Some (if (i =? Z.of_nat k)%Z then b ++ [p] else b).
Proof.
  intros Hi. unfold bin_append. rewrite py_index_in_range by done. simpl.
  eexists. split; [done|]. split; [apply length_alter|].
  split; [apply total_points_alter; lia|].
  intros k b Hk. destruct (i =? Z.of_nat k)%Z eqn:E.
  - apply Z.eqb_eq in E. subst i. rewrite Nat2Z.id.
    rewrite list_lookup_alter_eq. by rewrite Hk.
  - apply Z.eqb_neq in E. rewrite list_lookup_alter_ne; [done|]. lia.
Qed.

(** The bins of a pass after [assign_points]: nothing is lost, nothing is
    added, and a point goes to the bin its index says. *)
Lemma assign_points_spec (ff : FeatureFinder) (points : list Point) :
  forall t0 t1,
    (forall p, p ∈ points -> exists i0 i1,
        bin_idx0 ff p = Ok i0 /\ (0 <= i0 < Z.of_nat (length t0))%Z /\
        bin_idx1 ff p = Ok i1 /\ (0 <= i1 < Z.of_nat (length t1))%Z) ->
    exists t0' t1',
      assign_points ff points (t0, t1) = Ok (t0', t1') /\
      length t0' = length t0 /\ length t1' = length t1 /\
      total_points t0' = (total_points t0 + length points)%nat /\
      total_points t1' = (total_points t1 + length points)%nat /\
      (forall k b, t0 !! k = Some b ->
         t0' !! k = Some (b ++ List.filter (in_bin bin_idx0 ff k) points)) /\
      (forall k b, t1 !! k = Some b ->
         t1' !! k = Some (b ++ List.filter (in_bin bin_idx1 ff k) points)).
Proof.
  induction points as [|p points IH]; intros t0 t1 Hidx.
  - exists t0, t1. simpl. repeat split; try lia.
    + intros k b Hk. by rewrite app_nil_r.
    + intros k b Hk. by rewrite app_nil_r.
  - destruct (Hidx p) as (i0 & i1 & H0 & R0 & H1 & R1); [by left|].
    destruct (bin_append_spec t0 i0 p R0) as (a0 & Ha0 & La0 & Ta0 & Ka0).
    destruct (bin_append_spec t1 i1 p R1) as (a1 & Ha1 & La1 & Ta1 & Ka1).
    destruct (IH a0 a1) as (t0' & t1' & Hrun & L0 & L1 & T0 & T1 & K0 & K1).
    { intros q Hq. rewrite La0, La1. apply Hidx. by right. }
    exists t0', t1'. simpl. rewrite H0. simpl. rewrite Ha0. simpl.
    rewrite H1. simpl. rewrite Ha1. simpl.
    split; [exact Hrun|]. split; [congruence|]. split; [congruence|].
    split; [lia|]. split; [lia|]. split.
    + intros k b Hk. rewrite (K0 k _ (Ka0 k b Hk)). f_equal.
      unfold in_bin at 2. rewrite H0.
      destruct (i0 =? Z.of_nat k)%Z; [by rewrite <- app_assoc|done].
    + intros k b Hk. rewrite (K1 k _ (Ka1 k b Hk)). f_equal.
      unfold in_bin at 2. rewrite H1.
      destruct (i1 =? Z.of_nat k)%Z; [by rewrite <- app_assoc|done].
Qed.

(** The bin indices of a point whose IM is not below [im_start]. *)
Lemma bin_idx_valid (ff : FeatureFinder) (p : Point) :
  0 < bin_size ff -> (1 <= num_bins ff)%Z -> im_start ff <= p_im p ->
  let n := num_bins ff in
  bin_idx0 ff p =
    Ok (Z.min (Qfloor ((p_im p - im_start ff) / bin_size ff)) (n - 1)) /\
  (0 <= Z.min (Qfloor ((p_im p - im_start ff) / bin_size ff)) (n - 1) <= n - 1)%Z /\
  bin_idx1 ff p =
    Ok (if Qlt_bool (p_im p) (im_offset ff) then 0%Z
        else Z.min (Qfloor ((p_im p - im_offset ff) / bin_size ff) + 1) n) /\
  (0 <= (if Qlt_bool (p_im p) (im_offset ff) then 0%Z
         else Z.min (Qfloor ((p_im p - im_offset ff) / bin_size ff) + 1) n) <= n)%Z.
Proof.
  intros Hsize Hn Hlo n. unfold bin_idx0, bin_idx1.
  rewrite !fdiv_pos by done. simpl.
  assert (H0 : 0 <= (p_im p - im_start ff) / bin_size ff)
    by (apply Qdiv_nonneg; lra).
  pose proof (Qfloor_nonneg _ H0) as F0.
  rewrite (py_int_floor _ H0).
  split.
  { f_equal. rewrite Z.geb_leb. destruct (_ <=? _)%Z eqn:E; lia. }
  split; [lia|].
  destruct (Qlt_bool (p_im p) (im_offset ff)) eqn:Eo.
  { split; [done|lia]. }
  apply Qlt_bool_false in Eo.
  assert (H1 : 0 <= (p_im p - im_offset ff) / bin_size ff)
    by (apply Qdiv_nonneg; lra).
  pose proof (Qfloor_nonneg _ H1) as F1.
  rewrite (py_int_floor _ H1).
  split.
  { f_equal. rewrite Z.gtb_ltb. destruct (_ <? _)%Z eqn:E; lia. }
  lia.
Qed.

Lemma assign_points_total (ff : FeatureFinder) (points : list Point) :
  0 < bin_size ff -> (1 <= num_bins ff)%Z ->
  Forall (fun p => im_start ff <= p_im p) points ->
  exists t0 t1,
    assign_points ff points (empty_bins ff) = Ok (t0, t1) /\
    length t0 = Z.to_nat (num_bins ff) /\
    length t1 = S (Z.to_nat (num_bins ff)) /\
    (forall k, (k < Z.to_nat (num_bins ff))%nat ->
       t0 !! k = Some (List.filter (in_bin bin_idx0 ff k) points)) /\
    (forall k, (k <= Z.to_nat (num_bins ff))%nat ->
       t1 !! k = Some (List.filter (in_bin bin_idx1 ff k) points)) /\
    total_points t0 = length points /\
    total_points t1 = length points.
Proof.
  intros Hsize Hn Hrange. rewrite Forall_forall in Hrange.
  destruct (assign_points_spec ff points
              (replicate (Z.to_nat (num_bins ff)) [])
              ([] :: replicate (Z.to_nat (num_bins ff)) []))
    as (t0 & t1 & Hrun & L0 & L1 & T0 & T1 & K0 & K1).
  { intros p Hp.
    destruct (bin_idx_valid ff p Hsize Hn (Hrange p Hp)) as (E0 & B0 & E1 & B1).
    eexists _, _. split; [exact E0|]. split.
    { rewrite length_replicate. lia. }
    split; [exact E1|]. simpl. rewrite length_replicate. lia. }
  exists t0, t1. split; [exact Hrun|].
  rewrite length_replicate in L0. simpl in L1. rewrite length_replicate in L1.
  split; [done|]. split; [done|]. split.
  { intros k Hk. rewrite (K0 k []); [done|]. by apply lookup_replicate_2. }
  split.
  { intros k Hk. rewrite (K1 k []); [done|].
    destruct k as [|k]; [done|]. simpl. apply lookup_replicate_2. lia. }
  rewrite T0, T1.
  change (total_points ([] :: replicate (Z.to_nat (num_bins ff)) []))
    with (total_points (replicate (Z.to_nat (num_bins ff)) [])).
  rewrite total_points_replicate. lia.
Qed.


(** ** Appending the synthetic spectra *)

Lemma merge_bin_none (temp_bin : list Point) :
  merge_bin temp_bin = None <-> temp_bin = [].
Proof.
  unfold merge_bin. split.
  - destruct (sort_by p_mz temp_bin) eqn:E; [|done].
    intros _. by apply sort_by_nil_inv in E.
  - by intros ->.
Qed.

Lemma py_get_Some {A} (l : list A) (i : nat) (a : A) :
  l !! i = Some a -> py_get l i = Ok a.
Proof. unfold py_get. by intros ->. Qed.

Lemma py_get_Ok {A} (l : list A) (i : nat) (a : A) :
  py_get l i = Ok a -> l !! i = Some a.
Proof. unfold py_get. destruct (l !! i); [|done]. by intros [= ->]. Qed.

Lemma py_get_lt {A} (l : list A) (i : nat) :
  (i < length l)%nat -> exists a, l !! i = Some a /\ py_get l i = Ok a.
Proof.
  intros H. destruct (lookup_lt_is_Some_2 l i H) as [a Ha].
  exists a. split; [done|]. by apply py_get_Some.
Qed.

(** What one pass of [bin_spectrum] does to the pseudo-spectrum of a bin:
    one synthetic spectrum more when the bin holds a point, nothing
    otherwise. *)
Lemma bin_pass_spec (spec : MSSpectrum) (temp : list (list Point)) (idxs : list nat) :
  forall store,
    NoDup idxs ->
    (forall i, i ∈ idxs -> (i < length temp)%nat /\ (i < length store)%nat) ->
    exists store',
      bin_pass spec temp store idxs = Ok store' /\
      length store' = length store /\
      (forall k e, store !! k = Some e -> k ∉ idxs -> store' !! k = Some e) /\
      (forall k e pts, store !! k = Some e -> k ∈ idxs -> temp !! k = Some pts ->
         store' !! k = Some (match merge_bin pts with
                             | Some new_bin => e ++ [make_spectrum spec new_bin]
                             | None => e
                             end)).
Proof.
  induction idxs as [|i idxs IH]; intros store Hnd Hlt.
  - exists store. simpl. repeat split; [done|]. intros k e pts _ Hk. by inv Hk.
  - apply NoDup_cons in Hnd as [Hi Hnd].
    destruct (Hlt i) as [Ht Hs]; [by left|].
    destruct (py_get_lt temp i Ht) as (pts_i & Hpi & Gpi).
    destruct (py_get_lt store i Hs) as (e_i & Hei & Gei).
    set (store1 := match merge_bin pts_i with
                   | Some new_bin => <[i := e_i ++ [make_spectrum spec new_bin]]> store
                   | None => store
                   end).
    assert (Hstep : bin_pass_step spec temp store i = Ok store1).
    { unfold bin_pass_step, store1. rewrite Gpi. simpl.
      destruct (merge_bin pts_i); [|done]. by rewrite Gei. }
    assert (Hlen1 : length store1 = length store).
    { unfold store1. destruct (merge_bin pts_i); [apply length_insert|done]. }
    destruct (IH store1 Hnd) as (store' & Hrun & Hlen & Hout & Hin).
    { intros j Hj. rewrite Hlen1. apply Hlt. by right. }
    exists store'. simpl. rewrite Hstep. simpl. split; [exact Hrun|].
    split; [by rewrite Hlen|]. split.
    + intros k e Hk Hnotin. apply not_elem_of_cons in Hnotin as [Hne Hnotin].
      apply Hout; [|done]. unfold store1.
      destruct (merge_bin pts_i); [|done]. by rewrite list_lookup_insert_ne.
    + intros k e pts Hk Hkin Hpts. apply elem_of_cons in Hkin as [->|Hkin].
      * assert (pts = pts_i) as -> by congruence.
        assert (e = e_i) as ->.
        { pose proof (eq_trans (eq_sym Hk) Hei) as Heq. by inv Heq. }
        apply Hout; [|done]. unfold store1.
        destruct (merge_bin pts_i); [|done].
        by apply list_lookup_insert_eq.
      * apply Hin; [|done|done]. unfold store1.
        destruct (merge_bin pts_i); [|done].
        rewrite list_lookup_insert_ne; [done|]. intros ->. done.
Qed.

Lemma assigned_set_exps (ff : FeatureFinder) e (spec : MSSpectrum) :
  assigned (set_exps ff e) spec = assigned ff spec.
Proof.
  unfold assigned.
  change (empty_bins (set_exps ff e)) with (empty_bins ff).
  generalize (empty_bins ff). generalize (sort_by p_im (get_spectrum_points spec)).
  intros points. induction points as [|p points IH]; intros t; [done|].
  simpl. change (bin_idx0 (set_exps ff e) p) with (bin_idx0 ff p).
  change (bin_idx1 (set_exps ff e) p) with (bin_idx1 ff p).
  destruct (bin_idx0 ff p); [|done]. simpl.
  destruct (bin_append t.1 a p); [|done]. simpl.
  destruct (bin_idx1 ff p); [|done]. simpl.
  destruct (bin_append t.2 a1 p); [|done]. simpl. apply IH.
Qed.

Lemma receives_set_exps (ff : FeatureFinder) e (run k : nat) (spec : MSSpectrum) :
  receives (set_exps ff e) run k spec = receives ff run k spec.
Proof. unfold receives. by rewrite assigned_set_exps. Qed.

(** One call of [bin_spectrum] on a spectrum whose points are not below
    [im_start]. *)
Lemma bin_spectrum_step (ff : FeatureFinder) (spec : MSSpectrum) :
  0 < bin_size ff -> (1 <= num_bins ff)%Z ->
  length (exps ff).1 = Z.to_nat (num_bins ff) ->
  length (exps ff).2 = S (Z.to_nat (num_bins ff)) ->
  Forall (fun p => im_start ff <= p_im p) (get_spectrum_points spec) ->
  exists e0 e1,
    bin_spectrum ff spec = Ok (set_exps ff (e0, e1)) /\
    length e0 = length (exps ff).1 /\ length e1 = length (exps ff).2 /\
    (forall k e, (exps ff).1 !! k = Some e ->
       exists e', e0 !! k = Some e' /\
                  length e' = (length e + bump (receives ff 0 k spec))%nat) /\
    (forall k e, (exps ff).2 !! k = Some e ->
       exists e', e1 !! k = Some e' /\
                  length e' = (length e + bump (receives ff 1 k spec))%nat).
Proof.
  intros Hsize Hn L0 L1 Hlo.
  assert (Hlo' : Forall (fun p => im_start ff <= p_im p)
                        (sort_by p_im (get_spectrum_points spec))).
  { rewrite Forall_forall in Hlo |- *. intros p Hp. apply Hlo.
    by apply sort_by_elem_of in Hp. }
  destruct (assign_points_total ff _ Hsize Hn Hlo')
    as (t0 & t1 & Hassign & Lt0 & Lt1 & _).
  destruct (bin_pass_spec spec t0 (py_range (num_bins ff)) (exps ff).1)
    as (e0 & Hp0 & Le0 & Out0 & In0).
  { apply NoDup_seq. }
  { intros i Hi. apply elem_of_seq in Hi. lia. }
  destruct (bin_pass_spec spec t1 (py_range (num_bins ff + 1)) (exps ff).2)
    as (e1 & Hp1 & Le1 & Out1 & In1).
  { apply NoDup_seq. }
  { intros i Hi. apply elem_of_seq in Hi. lia. }
  exists e0, e1. split.
  { unfold bin_spectrum. fold (assigned ff spec). unfold assigned.
    rewrite Hassign. simpl. rewrite Hp0. simpl. by rewrite Hp1. }
  split; [done|]. split; [done|].
  assert (Hlen : forall (e : MSExperiment) pts,
    length (match merge_bin pts with
            | Some new_bin => e ++ [make_spectrum spec new_bin]
            | None => e
            end) = (length e + bump (match pts with _ :: _ => true | [] => false end))%nat).
  { intros e pts. destruct (merge_bin pts) eqn:E.
    - destruct pts; [by rewrite (proj2 (merge_bin_none [])) in E|].
      rewrite length_app. simpl. lia.
    - apply merge_bin_none in E as ->. simpl. lia. }
  split.
  - intros k e Hk.
    assert (Hkn : (k < Z.to_nat (num_bins ff))%nat).
    { rewrite <- L0. by apply lookup_lt_Some in Hk. }
    destruct (lookup_lt_is_Some_2 t0 k) as [pts Hpts]; [lia|].
    eexists. split.
    + apply (In0 k e pts Hk); [|done]. apply elem_of_seq. lia.
    + rewrite Hlen. unfold receives, assigned. rewrite Hassign. simpl.
      rewrite Hpts. by destruct pts.
  - intros k e Hk.
    assert (Hkn : (k < S (Z.to_nat (num_bins ff)))%nat).
    { rewrite <- L1. by apply lookup_lt_Some in Hk. }
    destruct (lookup_lt_is_Some_2 t1 k) as [pts Hpts]; [lia|].
    eexists. split.
    + apply (In1 k e pts Hk); [|done]. apply elem_of_seq. lia.
    + rewrite Hlen. unfold receives, assigned. rewrite Hassign. simpl.
      rewrite Hpts. by destruct pts.
Qed.

(** C9 (as amended). A call of [bin_spectrum] appends exactly one
    synthetic spectrum to the pseudo-spectrum of every bin, of either
    pass, that receives at least one point of the spectrum, and nothing to
    a bin that receives none; so after a sequence of spectra the
    pseudo-spectrum of a bin has grown by the number of spectra that put a
    point in the bin, which is at most the number of spectra. *)
Theorem bin_spectrum_appends_to_hit_bins (ff : FeatureFinder) (spectra : list MSSpectrum) :
  0 < bin_size ff -> (1 <= num_bins ff)%Z ->
  length (exps ff).1 = Z.to_nat (num_bins ff) ->
  length (exps ff).2 = S (Z.to_nat (num_bins ff)) ->
  Forall (fun spec => Forall (fun p => im_start ff <= p_im p)
                             (get_spectrum_points spec)) spectra ->
  exists ff',
    bin_all ff spectra = Ok ff' /\
    (forall k e, (exps ff).1 !! k = Some e ->
       exists e', (exps ff').1 !! k = Some e' /\
         length e' = (length e + length (List.filter (receives ff 0 k) spectra))%nat /\
         (length e' <= length e + length spectra)%nat) /\
    (forall k e, (exps ff).2 !! k = Some e ->
       exists e', (exps ff').2 !! k = Some e' /\
         length e' = (length e + length (List.filter (receives ff 1 k) spectra))%nat /\
         (length e' <= length e + length spectra)%nat).
Proof.
  revert ff. induction spectra as [|spec spectra IH]; intros ff Hsize Hn L0 L1 Hlo.
  - exists ff. simpl. split; [done|].
    split; intros k e Hk; exists e; (split; [done|lia]).
  - apply Forall_cons in Hlo as [Hspec Hlo].
    destruct (bin_spectrum_step ff spec Hsize Hn L0 L1 Hspec)
      as (e0 & e1 & Hstep & Le0 & Le1 & S0 & S1).
    destruct (IH (set_exps ff (e0, e1))) as (ff' & Hall & A0 & A1);
      try done; simpl; try congruence.
    exists ff'. simpl. rewrite Hstep. simpl. split; [exact Hall|].
    split; intros k e Hk.
    + destruct (S0 k e Hk) as (e' & He' & Hl').
      destruct (A0 k e' He') as (e'' & He'' & Hl'' & Hb'').
      exists e''. split; [done|].
      rewrite (List.filter_ext _ (receives ff 0 k)) in Hl''
        by (intros s; apply receives_set_exps).
      pose proof (List.filter_length_le (receives ff 0 k) spectra).
      destruct (receives ff 0 k spec); simpl in *; lia.
    + destruct (S1 k e Hk) as (e' & He' & Hl').
      destruct (A1 k e' He') as (e'' & He'' & Hl'' & Hb'').
      exists e''. split; [done|].
      rewrite (List.filter_ext _ (receives ff 1 k)) in Hl''
        by (intros s; apply receives_set_exps).
      pose proof (List.filter_length_le (receives ff 1 k) spectra).
      destruct (receives ff 1 k spec); simpl in *; lia.
Qed.

(** ** The average IM of a bin *)







(** ** Concrete runs of the binning *)

Lemma setup_two_bins : setup_bins (set_num_bins reset 2) (1, 7) = Ok two_bins.
Proof. reflexivity. Qed.


Lemma bin_spectrum_appends_to_hit_bins_witness :
  0 < bin_size two_bins /\
  (1 <= num_bins two_bins)%Z /\
  length (exps two_bins).1 = Z.to_nat (num_bins two_bins) /\
  length (exps two_bins).2 = S (Z.to_nat (num_bins two_bins)) /\
  Forall (fun spec => Forall (fun p => im_start two_bins <= p_im p)
                             (get_spectrum_points spec))
         [close_spectrum; close_spectrum] /\
  exists ff' e0 e1,
    bin_all two_bins [close_spectrum; close_spectrum] = Ok ff' /\
    (exps ff').1 !! 0%nat = Some e0 /\ length e0 = 2%nat /\
    (exps ff').1 !! 1%nat = Some e1 /\ length e1 = 0%nat.
Proof.
  assert (H1 : 0 < bin_size two_bins) by reflexivity.
  assert (H2 : (1 <= num_bins two_bins)%Z) by (simpl; lia).
  assert (H3 : length (exps two_bins).1 = Z.to_nat (num_bins two_bins))
    by reflexivity.
  assert (H4 : length (exps two_bins).2 = S (Z.to_nat (num_bins two_bins)))
    by reflexivity.
  assert (H5 : Forall (fun spec => Forall (fun p => im_start two_bins <= p_im p)
                                          (get_spectrum_points spec))
                      [close_spectrum; close_spectrum]).
  { repeat constructor; simpl; discriminate. }
  repeat (split; [assumption|]).
  destruct (bin_spectrum_appends_to_hit_bins two_bins _ H1 H2 H3 H4 H5)
    as (ff' & Hall & A0 & _).
  destruct (A0 0%nat [] eq_refl) as (e0 & He0 & Hl0 & _).
  destruct (A0 1%nat [] eq_refl) as (e1 & He1 & Hl1 & _).
  exists ff', e0, e1. repeat split; assumption.
Defined.

(** C9, counterexample. With two bins on the IM range [1, 7], the
    spectrum [close_spectrum] has its two points in bin 0 of the first
    pass; after [bin_spectrum] the pseudo-spectrum of bin 1 of that pass
    is still empty: nothing was appended to it for this spectrum. *)
Lemma bin_spectrum_skips_empty_bins :
  exists ff',
    bin_spectrum two_bins close_spectrum = Ok ff' /\
    (exps two_bins).1 !! 1%nat = Some [] /\
    (exps ff').1 !! 1%nat = Some [] /\
    (exps ff').2 !! 2%nat = Some [] /\
    length <$> (exps ff').1 !! 0%nat = Some 1%nat.
Proof.
  eexists. split; [vm_compute; reflexivity|].
  repeat split; vm_compute; reflexivity.
Qed.

(** ** Choosing the candidate of largest area *)

Section MaxByArea.
Context {A : Type} (feature_of : A -> Feature).

Lemma max_by_area_choice (init : Q * A) (l : list A) :
  max_by_area feature_of init l = init \/
  exists c, c ∈ l /\ max_by_area feature_of init l = (area (feature_of c), c).
Proof.
  revert init. induction l as [|c l IH]; intros init; simpl; [by left|].
  unfold max_by_area in *. simpl.
  destruct (IH (max_area_step feature_of init c)) as [H|(c' & Hc' & H)].
  - rewrite H. unfold max_area_step.
    destruct (Qlt_bool init.1 (area (feature_of c))); [|by left].
    right. exists c. split; [by left|done].
  - right. exists c'. split; [by right|done].
Qed.

Lemma max_by_area_keep (init : Q * A) (l : list A) :
  (forall c, c ∈ l -> area (feature_of c) <= init.1) ->
  max_by_area feature_of init l = init.
Proof.
  revert init. induction l as [|c l IH]; intros init H; [done|].
  unfold max_by_area in *. simpl.
  assert (Hstep : max_area_step feature_of init c = init).
  { unfold max_area_step.
    destruct (Qlt_bool init.1 (area (feature_of c))) eqn:E; [|done].
    apply Qlt_bool_true in E. exfalso.
    eapply Qlt_not_le; [exact E|]. apply H. by left. }
  rewrite Hstep. apply IH. intros c' Hc'. apply H. by right.
Qed.

Lemma max_by_area_bound (init : Q * A) (l : list A) :
  init.1 <= (max_by_area feature_of init l).1 /\
  forall c, c ∈ l -> area (feature_of c) <= (max_by_area feature_of init l).1.
Proof.
  revert init. induction l as [|c l IH]; intros init.
  - split; [apply Qle_refl|]. intros c Hc. by inv Hc.
  - unfold max_by_area in *. simpl.
    destruct (IH (max_area_step feature_of init c)) as [Hi Hl].
    assert (Hstep : init.1 <= (max_area_step feature_of init c).1 /\
                    area (feature_of c) <= (max_area_step feature_of init c).1).
    { unfold max_area_step.
      destruct (Qlt_bool init.1 (area (feature_of c))) eqn:E; simpl.
      - apply Qlt_bool_true in E. split; [by apply Qlt_le_weak|apply Qle_refl].
      - apply Qlt_bool_false in E. split; [apply Qle_refl|done]. }
    destruct Hstep as [H1 H2]. split; [by eapply Qle_trans|].
    intros c' Hc'. apply elem_of_cons in Hc' as [->|Hc'].
    + by eapply Qle_trans.
    + by apply Hl.
Qed.
End MaxByArea.

(** ** Intra-bin matching *)

Lemma elem_of_drop_inv {A} (x : A) (n : nat) (l : list A) : x ∈ drop n l -> x ∈ l.
Proof.
  intros H. rewrite <- (take_drop n l). apply elem_of_app. by right.
Qed.

Lemma scan_internal_elem (feature1 : Feature) (i : nat) (rest : list Feature) :
  forall j similar x,
    x ∈ scan_internal feature1 i j rest similar ->
    x ∈ similar \/
    (x ∈ rest /\ similar_features feature1 x RT_THRESHOLD MZ_THRESHOLD = true).
Proof.
  induction rest as [|f2 rest IH]; intros j similar x Hx; simpl in Hx; [by left|].
  assert (Hrec : forall similar', x ∈ scan_internal feature1 i (S j) rest similar' ->
                   (x ∈ similar' -> x ∈ similar \/
                      (x ∈ f2 :: rest /\
                       similar_features feature1 x RT_THRESHOLD MZ_THRESHOLD = true)) ->
                   x ∈ similar \/
                   (x ∈ f2 :: rest /\
                    similar_features feature1 x RT_THRESHOLD MZ_THRESHOLD = true)).
  { intros similar' H Hacc. destruct (IH _ _ _ H) as [H'|[H' Hs]]; [by apply Hacc|].
    right. split; [by right|done]. }
  destruct (Nat.eqb i j); [by apply (Hrec similar Hx); left|].
  destruct (Qlt_bool _ _); [by left|].
  destruct (similar_features feature1 f2 RT_THRESHOLD MZ_THRESHOLD) eqn:E.
  - apply (Hrec _ Hx). intros Hin. apply elem_of_app in Hin as [Hin|Hin]; [by left|].
    apply list_elem_of_singleton in Hin as ->. right. split; [by left|done].
  - by apply (Hrec similar Hx); left.
Qed.

Lemma internal_representative_choice (features : FeatureMap) (i : nat) (feature1 : Feature) :
  internal_representative features i feature1 = feature1 \/
  (internal_representative features i feature1 ∈ features /\
   similar_features feature1 (internal_representative features i feature1)
                    RT_THRESHOLD MZ_THRESHOLD = true).
Proof.
  unfold internal_representative.
  match goal with |- context [max_by_area id ?init ?l] =>
    destruct (max_by_area_choice id init l) as [H|(c & Hc & H)] end.
  - left. by rewrite H.
  - right. rewrite H. simpl.
    apply scan_internal_elem in Hc as [Hc|[Hc Hs]]; [by inv Hc|].
    split; [|done]. by apply elem_of_drop_inv in Hc.
Qed.

Lemma internal_representative_self (features : FeatureMap) (i : nat) (feature1 : Feature) :
  (forall p, p ∈ features ->
     similar_features feature1 p RT_THRESHOLD MZ_THRESHOLD = true ->
     area p <= area feature1) ->
  internal_representative features i feature1 = feature1.
Proof.
  intros H. unfold internal_representative. rewrite max_by_area_keep; [done|].
  intros c Hc. simpl.
  apply scan_internal_elem in Hc as [Hc|[Hc Hs]]; [by inv Hc|].
  apply H; [|done]. by apply elem_of_drop_inv in Hc.
Qed.

Lemma internal_loop_elem (features : FeatureMap) (todo : list Feature) :
  forall i matched x,
    x ∈ internal_loop features i todo matched ->
    x ∈ matched \/ x ∈ features \/ x ∈ todo.
Proof.
  induction todo as [|f1 todo IH]; intros i matched x Hx; simpl in Hx; [by left|].
  apply IH in Hx as [Hx|[Hx|Hx]]; [|by right; left|by right; right; right].
  destruct (feature_in _ matched); [by left|].
  apply elem_of_app in Hx as [Hx|Hx]; [by left|].
  apply list_elem_of_singleton in Hx as ->.
  destruct (internal_representative_choice features i f1) as [->|[H _]].
  - right. right. by left.
  - right. by left.
Qed.

(** Every feature returned by [match_features_internal] is a feature of
    its argument, and the caller's map is the argument sorted by RT. *)
Lemma match_features_internal_frame (features : FeatureMap) :
  (match_features_internal features).1 = sortByRT features /\
  (match_features_internal features).1 ≡ₚ features /\
  forall f, f ∈ (match_features_internal features).2 -> f ∈ features.
Proof.
  unfold match_features_internal. simpl. split; [done|].
  split; [apply sort_by_perm|].
  intros f Hf. apply internal_loop_elem in Hf as [Hf|[Hf|Hf]]; [by inv Hf| |];
    by apply sort_by_elem_of in Hf.
Qed.

(** *** Equality by value *)

Lemma Qeq_bool_comm (a b : Q) : Qeq_bool a b = Qeq_bool b a.
Proof.
  destruct (Qeq_bool a b) eqn:E1, (Qeq_bool b a) eqn:E2; try done.
  - apply Qeq_bool_iff in E1. apply Qeq_bool_neq in E2. by symmetry in E1.
  - apply Qeq_bool_iff in E2. apply Qeq_bool_neq in E1. by symmetry in E2.
Qed.

Lemma hull_eqb_comm (h1 h2 : list (Q * Q)) : hull_eqb h1 h2 = hull_eqb h2 h1.
Proof.
  revert h2. induction h1 as [|[x1 y1] h1 IH]; intros [|[x2 y2] h2]; simpl; try done.
  by rewrite IH, (Qeq_bool_comm x1), (Qeq_bool_comm y1).
Qed.

Lemma feature_eqb_comm (f g : Feature) : feature_eqb f g = feature_eqb g f.
Proof.
  unfold feature_eqb.
  by rewrite hull_eqb_comm, (Qeq_bool_comm (getRT f)), (Qeq_bool_comm (getMZ f)),
    (Qeq_bool_comm (getIntensity f)).
Qed.

Lemma feature_in_app (f : Feature) (l1 l2 : FeatureMap) :
  feature_in f (l1 ++ l2) = feature_in f l1 || feature_in f l2.
Proof. unfold feature_in. apply existsb_app. Qed.

Lemma feature_in_perm (f : Feature) (l1 l2 : FeatureMap) :
  l1 ≡ₚ l2 -> feature_in f l1 = feature_in f l2.
Proof.
  unfold feature_in. induction 1; simpl; try congruence.
  - destruct (feature_eqb f x), (feature_eqb f y); done.
Qed.

Lemma distinct_values_snoc (l : FeatureMap) (x : Feature) :
  distinct_values (l ++ [x]) = distinct_values l && negb (feature_in x l).
Proof.
  induction l as [|y l IH]; simpl; [done|].
  rewrite IH, feature_in_app. simpl. rewrite (feature_eqb_comm y x).
  destruct (feature_in y l), (feature_eqb x y), (distinct_values l),
    (feature_in x l); done.
Qed.

Lemma distinct_values_app_l (l1 l2 : FeatureMap) :
  distinct_values (l1 ++ l2) = true -> distinct_values l1 = true.
Proof.
  induction l1 as [|y l1 IH]; simpl; [done|].
  rewrite feature_in_app. intros H. apply andb_true_iff in H as [H1 H2].
  rewrite (IH H2). destruct (feature_in y l1); done.
Qed.

Lemma distinct_values_perm (l1 l2 : FeatureMap) :
  l1 ≡ₚ l2 -> distinct_values l1 = distinct_values l2.
Proof.
  induction 1 as [|x l1 l2 Hp IH|x y l|l1 l2 l3 H1 IH1 H2 IH2]; simpl.
  - done.
  - by rewrite IH, (feature_in_perm x l1 l2 Hp).
  - rewrite (feature_eqb_comm y x).
    destruct (feature_eqb x y), (feature_in y l), (feature_in x l); done.
  - congruence.
Qed.

Lemma internal_loop_distinct (features : FeatureMap) (todo : list Feature) :
  forall i matched,
    distinct_values matched = true ->
    distinct_values (internal_loop features i todo matched) = true.
Proof.
  induction todo as [|f1 todo IH]; intros i matched H; simpl; [done|].
  apply IH. destruct (feature_in _ matched) eqn:E; [done|].
  by rewrite distinct_values_snoc, H, E.
Qed.

Lemma internal_loop_fixed (features : FeatureMap) (todo : list Feature) :
  forall i matched,
    (forall k f, todo !! k = Some f ->
       internal_representative features (i + k) f = f) ->
    distinct_values (matched ++ todo) = true ->
    internal_loop features i todo matched = matched ++ todo.
Proof.
  induction todo as [|f1 todo IH]; intros i matched Hrep Hd; simpl.
  - by rewrite app_nil_r.
  - pose proof (Hrep 0%nat f1 eq_refl) as H1. rewrite Nat.add_0_r in H1.
    rewrite H1.
    assert (Hd' : distinct_values ((matched ++ [f1]) ++ todo) = true)
      by (by rewrite <- app_assoc).
    pose proof (distinct_values_app_l _ _ Hd') as Hd1.
    rewrite distinct_values_snoc in Hd1. apply andb_true_iff in Hd1 as [_ Hin].
    apply negb_true_iff in Hin. rewrite Hin.
    rewrite (IH (S i) (matched ++ [f1])); [by rewrite <- app_assoc| |done].
    intros k f Hk. replace (S i + k)%nat with (i + S k)%nat by lia.
    by apply Hrep.
Qed.

(** C7 (as amended). Running the intra-bin deduplication on its own
    output never adds a feature, and yields exactly the features of that
    output (the same map, sorted by RT) whenever no feature of the output
    has, in the output, a similar peer of strictly larger hull area. *)
Theorem match_features_internal_twice (features : FeatureMap) :
  let once := (match_features_internal features).2 in
  let twice := (match_features_internal once).2 in
  (forall f, f ∈ twice -> f ∈ once) /\
  (no_larger_similar_peer once -> twice = sortByRT once /\ twice ≡ₚ once).
Proof.
  intros once twice. split.
  - intros f Hf. by apply match_features_internal_frame in Hf.
  - intros Hpeer.
    assert (Hd : distinct_values once = true).
    { apply internal_loop_distinct. done. }
    assert (twice = sortByRT once) as ->.
    { unfold twice, match_features_internal. simpl.
      apply (internal_loop_fixed (sortByRT once) (sortByRT once) 0 []).
      - intros k f Hk. apply internal_representative_self.
        intros p Hp Hs. apply Hpeer; [| |done].
        + apply (sort_by_elem_of getRT). by eapply list_elem_of_lookup_2.
        + by apply (sort_by_elem_of getRT).
      - simpl. rewrite <- Hd. apply distinct_values_perm, sort_by_perm. }
    split; [done|]. apply sort_by_perm.
Qed.

Lemma match_features_internal_twice_witness :
  no_larger_similar_peer (match_features_internal [chain_a; chain_c]).2 /\
  (match_features_internal (match_features_internal [chain_a; chain_c]).2).2
  = [chain_a; chain_c].
Proof.
  assert (H : no_larger_similar_peer (match_features_internal [chain_a; chain_c]).2).
  { intros f p Hf Hp. vm_compute in Hf, Hp.
    apply elem_of_cons in Hf as [->|Hf]; [|apply list_elem_of_singleton in Hf as ->];
    (apply elem_of_cons in Hp as [->|Hp]; [|apply list_elem_of_singleton in Hp as ->]);
    vm_compute; congruence. }
  split; [exact H|].
  destruct (match_features_internal_twice [chain_a; chain_c]) as [_ Himp].
  destruct (Himp H) as [Heq _]. rewrite Heq. reflexivity.
Defined.

(** C7, counterexample. On the three features [chain_a], [chain_b],
    [chain_c] the deduplication keeps [chain_b] and [chain_c]; run on that
    output it keeps [chain_c] only. *)
Lemma match_features_internal_not_idempotent :
  (match_features_internal [chain_a; chain_b; chain_c]).2 = [chain_b; chain_c] /\
  (match_features_internal
     (match_features_internal [chain_a; chain_b; chain_c]).2).2 = [chain_c] /\
  chain_b ∈ (match_features_internal [chain_a; chain_b; chain_c]).2 /\
  chain_b ∉ (match_features_internal
               (match_features_internal [chain_a; chain_b; chain_c]).2).2.
Proof.
  assert (H1 : (match_features_internal [chain_a; chain_b; chain_c]).2
               = [chain_b; chain_c]) by (vm_compute; reflexivity).
  assert (H2 : (match_features_internal [chain_b; chain_c]).2 = [chain_c])
    by (vm_compute; reflexivity).
  rewrite H1, H2. repeat split.
  - by left.
  - intros H. apply list_elem_of_singleton in H. discriminate.
Qed.

(** ** The [used] flags *)

Lemma get2_flag (used : list (list bool)) (b j : nat) :
  get2 used b j = match get_flag used (b, j) with
                  | Some v => Ok v
                  | None => Raise IndexError
                  end.
Proof.
  unfold get2, get_flag, py_get. simpl.
  destruct (used !! b) as [row|]; simpl; [|done]. by destruct (row !! j).
Qed.

Lemma get_flag_set2_eq (used : list (list bool)) (b j : nat) (v : bool) :
  is_Some (get_flag used (b, j)) -> get_flag (set2 used b j v) (b, j) = Some v.
Proof.
  unfold get_flag, set2. simpl. rewrite list_lookup_alter_eq.
  destruct (used !! b) as [row|]; simpl; [|by intros [? ?]].
  intros H. apply lookup_lt_is_Some in H. by apply list_lookup_insert_eq.
Qed.

Lemma get_flag_set2_ne (used : list (list bool)) (b j : nat) (v : bool) (pos : nat * nat) :
  pos <> (b, j) -> get_flag (set2 used b j v) pos = get_flag used pos.
Proof.
  destruct pos as [b' j']. unfold get_flag, set2. simpl. intros Hne.
  destruct (decide (b' = b)) as [->|Hb].
  - rewrite list_lookup_alter_eq. destruct (used !! b) as [row|]; simpl; [|done].
    apply list_lookup_insert_ne. congruence.
  - by rewrite list_lookup_alter_ne.
Qed.

Lemma consumes_refl (used : list (list bool)) : consumes used used [].
Proof.
  split; [constructor|]. split; [|done]. intros pos H. by inv H.
Qed.

Lemma consumes_one (used : list (list bool)) (b j : nat) :
  get_flag used (b, j) = Some false -> consumes used (set2 used b j true) [(b, j)].
Proof.
  intros H. split; [apply NoDup_singleton|]. split.
  - intros pos Hpos. apply list_elem_of_singleton in Hpos as ->.
    split; [done|]. apply get_flag_set2_eq. by rewrite H.
  - intros pos Hpos. apply get_flag_set2_ne. intros ->. apply Hpos. by left.
Qed.

Lemma consumes_app (u1 u2 u3 : list (list bool)) (n1 n2 : list (nat * nat)) :
  consumes u1 u2 n1 -> consumes u2 u3 n2 -> consumes u1 u3 (n1 ++ n2).
Proof.
  intros (D1 & I1 & O1) (D2 & I2 & O2).
  assert (Hdisj : forall pos, pos ∈ n1 -> pos ∉ n2).
  { intros pos H1 H2. destruct (I1 pos H1) as [_ Ha]. destruct (I2 pos H2) as [Hb _].
    congruence. }
  split; [by apply NoDup_app|]. split.
  - intros pos Hpos. apply elem_of_app in Hpos as [H1|H2].
    + destruct (I1 pos H1) as [Ha Hb]. split; [done|].
      rewrite O2; [done|]. by apply Hdisj.
    + destruct (I2 pos H2) as [Ha Hb]. split; [|done].
      rewrite <- O1; [done|]. intros H1. by apply (Hdisj pos H1).
  - intros pos Hpos. apply not_elem_of_app in Hpos as [H1 H2].
    by rewrite O2, O1.
Qed.

Lemma consumes_covers (u u' : list (list bool)) (new : list (nat * nat))
    (features : list FeatureMap) :
  consumes u u' new -> covers u features -> covers u' features.
Proof.
  intros (_ & Hin & Hout) Hcov pos Hpos.
  destruct (decide (pos ∈ new)) as [H|H].
  - destruct (Hin pos H) as [_ ->]. eauto.
  - rewrite (Hout pos H). by apply Hcov.
Qed.

Lemma consumes_marked (u u' : list (list bool)) (new : list (nat * nat)) (pos : nat * nat) :
  consumes u u' new -> get_flag u pos = Some true -> get_flag u' pos = Some true.
Proof.
  intros (_ & Hin & Hout) Hpos. destruct (decide (pos ∈ new)) as [H|H].
  - by destruct (Hin pos H) as [_ ->].
  - by rewrite (Hout pos H).
Qed.

Lemma drop_cons_inv {A} (l : list A) (j : nat) (x : A) (rest : list A) :
  drop j l = x :: rest -> l !! j = Some x /\ drop (S j) l = rest.
Proof.
  intros H. split.
  - pose proof (lookup_drop l j 0) as Hl. rewrite H, Nat.add_0_r in Hl.
    by rewrite <- Hl.
  - replace (S j) with (j + 1)%nat by lia. rewrite <- drop_drop, H. done.
Qed.

(** ** The chains of a pass *)

Lemma feature_at_Some (features : list FeatureMap) (b j : nat) (bin : FeatureMap)
    (f : Feature) :
  features !! b = Some bin -> bin !! j = Some f -> feature_at features (b, j) = Some f.
Proof. unfold feature_at. simpl. intros -> H. exact H. Qed.

Lemma feature_at_inv (features : list FeatureMap) (pos : nat * nat) (f : Feature) :
  feature_at features pos = Some f ->
  exists bin, features !! pos.1 = Some bin /\ bin !! pos.2 = Some f.
Proof.
  unfold feature_at. destruct (features !! pos.1) as [bin|]; [|done].
  simpl. intros H. by exists bin.
Qed.

Lemma scan_pass_spec (feature1 : Feature) (features : list FeatureMap)
    (next_idx : nat) (bin : FeatureMap) :
  features !! next_idx = Some bin ->
  forall rest j used similar,
    drop j bin = rest -> covers used features ->
    exists new used',
      scan_pass feature1 next_idx j rest used similar = Ok (similar ++ new, used') /\
      consumes used used' ((fun s => (next_idx, s.2)) <$> new) /\
      forall s, s ∈ new ->
        bin !! s.2 = Some s.1 /\
        similar_features feature1 s.1 RT_THRESHOLD MZ_THRESHOLD = true.
Proof.
  intros Hbin. induction rest as [|f2 rest IH]; intros j used similar Hdrop Hcov.
  - exists [], used. simpl. rewrite app_nil_r. split; [done|].
    split; [apply consumes_refl|]. intros s Hs. by inv Hs.
  - apply drop_cons_inv in Hdrop as [Hj Hdrop].
    destruct (Hcov (next_idx, j)) as [u Hu].
    { rewrite (feature_at_Some _ _ _ _ _ Hbin Hj). eauto. }
    simpl. rewrite get2_flag, Hu. simpl. destruct u.
    { by apply IH. }
    destruct (Qlt_bool _ _).
    { exists [], used. rewrite app_nil_r. split; [done|].
      split; [apply consumes_refl|]. intros s Hs. by inv Hs. }
    destruct (similar_features feature1 f2 RT_THRESHOLD MZ_THRESHOLD) eqn:Es.
    + destruct (IH (S j) (set2 used next_idx j true) (similar ++ [(f2, j)]) Hdrop)
        as (new & used' & Hrun & Hcons & Hnew).
      { eapply consumes_covers; [|exact Hcov]. by apply consumes_one. }
      exists ((f2, j) :: new), used'. rewrite Hrun, <- app_assoc.
      split; [done|]. split.
      * apply (consumes_app used (set2 used next_idx j true) used' [(next_idx, j)]);
          [by apply consumes_one|done].
      * intros s Hs. apply elem_of_cons in Hs as [->|Hs]; [done|by apply Hnew].
    + by apply IH.
Qed.

Lemma extend_chain_spec (feature1 : Feature) (features : list FeatureMap) :
  forall bins next_idx used feature_indices consumed,
    drop next_idx features = bins -> covers used features ->
    exists links new used',
      extend_chain feature1 next_idx bins used feature_indices consumed
      = Ok (feature_indices ++ links, consumed ++ new, used') /\
      consumes used used' new /\
      (forall pos, pos ∈ links -> pos ∈ new) /\
      (forall pos, pos ∈ new ->
         (next_idx <= pos.1)%nat /\
         exists f, feature_at features pos = Some f /\
                   similar_features feature1 f RT_THRESHOLD MZ_THRESHOLD = true).
Proof.
  induction bins as [|next bins IH];
    intros next_idx used feature_indices consumed Hdrop Hcov.
  - exists [], [], used. simpl. rewrite !app_nil_r. split; [done|].
    split; [apply consumes_refl|]. split; intros pos H; by inv H.
  - apply drop_cons_inv in Hdrop as [Hnext Hdrop].
    set (first_idx := binary_search_left_rt getRT next (getRT feature1 - RT_THRESHOLD)).
    destruct (scan_pass_spec feature1 features next_idx next Hnext
                (drop first_idx next) first_idx used [] eq_refl Hcov)
      as (sim & used1 & Hscan & Hcons1 & Hsim).
    simpl. fold first_idx. rewrite Hscan. simpl.
    destruct sim as [|first others].
    + exists [], [], used1. rewrite !app_nil_r. split; [done|].
      split; [exact Hcons1|]. split; intros pos H; by inv H.
    + set (max_feature := (max_by_area fst (area first.1, first) others).2).
      assert (Hmax : max_feature ∈ first :: others).
      { unfold max_feature.
        destruct (max_by_area_choice fst (area first.1, first) others)
          as [->|(c & Hc & ->)]; [by left|by right]. }
      destruct (IH (S next_idx) used1
                  (feature_indices ++ [(next_idx, max_feature.2)])
                  (consumed ++ ((fun s => (next_idx, s.2)) <$> (first :: others)))
                  Hdrop)
        as (links & new & used' & Hrun & Hcons & Hlinks & Hnew).
      { eapply consumes_covers; [exact Hcons1|exact Hcov]. }
      exists ((next_idx, max_feature.2) :: links),
             (((fun s => (next_idx, s.2)) <$> (first :: others)) ++ new), used'.
      split.
      { change (map (fun s : Feature * nat => (next_idx, s.2)) (first :: others))
          with ((fun s : Feature * nat => (next_idx, s.2)) <$> (first :: others)).
        rewrite Hrun. by rewrite <- !app_assoc. }
      split; [by eapply consumes_app|]. split.
      * intros pos Hpos. apply elem_of_app.
        apply elem_of_cons in Hpos as [->|Hpos]; [|right; by apply Hlinks].
        left. apply list_elem_of_fmap. by exists max_feature.
      * intros pos Hpos. apply elem_of_app in Hpos as [Hpos|Hpos].
        -- apply list_elem_of_fmap in Hpos as (s & -> & Hs). simpl.
           split; [lia|]. destruct (Hsim s Hs) as [Hl Hs'].
           exists s.1. split; [|done]. by apply (feature_at_Some _ _ _ next).
        -- destruct (Hnew pos Hpos) as [Hle Hf]. split; [lia|done].
Qed.

Lemma chain_max_spec (features : list FeatureMap) :
  forall feature_indices best,
    (forall pos, pos ∈ feature_indices -> is_Some (feature_at features pos)) ->
    exists r,
      chain_max features feature_indices best = Ok r /\
      (r = best \/
       exists k, (r.2, k) ∈ feature_indices /\
                 feature_at features (r.2, k) = Some r.1.2 /\
                 r.1.1 = getIntensity r.1.2) /\
      best.1.1 <= r.1.1 /\
      (forall pos f, pos ∈ feature_indices -> feature_at features pos = Some f ->
         getIntensity f <= r.1.1).
Proof.
  induction feature_indices as [|[b_idx f_idx] rest IH]; intros best Hvalid.
  - exists best. simpl. split; [done|]. split; [by left|].
    split; [apply Qle_refl|]. intros pos f H. by inv H.
  - destruct (Hvalid (b_idx, f_idx)) as [f Hf]; [by left|].
    destruct (feature_at_inv _ _ _ Hf) as (bin & Hbin & Hlook). simpl in Hbin, Hlook.
    simpl. rewrite (py_get_Some _ _ _ Hbin). simpl.
    rewrite (py_get_Some _ _ _ Hlook). simpl.
    assert (Hrest : forall pos, pos ∈ rest -> is_Some (feature_at features pos)).
    { intros pos Hpos. apply Hvalid. by right. }
    destruct (Qlt_bool best.1.1 (getIntensity f)) eqn:E.
    + apply Qlt_bool_true in E.
      destruct (IH (getIntensity f, f, b_idx) Hrest) as (r & Hrun & Hr & Hb & Hmax).
      exists r. split; [done|]. simpl in Hb. split.
      * destruct Hr as [->|(k & Hk & Hfk & Hi)].
        -- right. exists f_idx. simpl. split; [by left|done].
        -- right. exists k. split; [by right|done].
      * split; [eapply Qle_trans; [apply Qlt_le_weak, E|exact Hb]|].
        intros pos g Hpos Hg. apply elem_of_cons in Hpos as [->|Hpos].
        -- assert (g = f) as -> by congruence. exact Hb.
        -- by eapply Hmax.
    + apply Qlt_bool_false in E.
      destruct (IH best Hrest) as (r & Hrun & Hr & Hb & Hmax).
      exists r. split; [done|]. split.
      * destruct Hr as [->|(k & Hk & Hfk & Hi)]; [by left|].
        right. exists k. split; [by right|done].
      * split; [done|]. intros pos g Hpos Hg.
        apply elem_of_cons in Hpos as [->|Hpos].
        -- assert (g = f) as -> by congruence. by eapply Qle_trans.
        -- by eapply Hmax.
Qed.

Lemma all_positions_snoc (chains : list Chain) (c : Chain) :
  all_positions (chains ++ [c]) = all_positions chains ++ chain_positions c.
Proof.
  unfold all_positions. rewrite map_app, concat_app. simpl. by rewrite app_nil_r.
Qed.

Lemma before_next (pos : nat * nat) (b i : nat) :
  before pos (b, i) -> before pos (b, S i).
Proof. unfold before. simpl. lia. Qed.

Lemma before_next_bin (pos : nat * nat) (b i : nat) :
  before pos (b, i) -> before pos (S b, 0%nat).
Proof. unfold before. simpl. lia. Qed.

Lemma pass_inv_skip (features : list FeatureMap) (used : list (list bool))
    (chains : list Chain) (b i : nat) :
  pass_inv features used chains (b, i) -> pass_inv features used chains (b, S i).
Proof.
  intros (Hcov & Hnd & Hold & Hok). repeat split; try done.
  intros pos Hpos. destruct (Hold pos Hpos) as [H|H]; [left|by right].
  by apply before_next.
Qed.

(** One chain: the step of the inner loop at an unused feature. *)
Lemma pass_inv_chain (features : list FeatureMap) (used : list (list bool))
    (chains : list Chain) (bin_idx i : nat) (bin : FeatureMap) (feature1 : Feature) :
  features !! bin_idx = Some bin -> bin !! i = Some feature1 ->
  get_flag used (bin_idx, i) = Some false ->
  pass_inv features used chains (bin_idx, i) ->
  exists feature_indices consumed used' r,
    extend_chain feature1 (S bin_idx) (drop (S bin_idx) features) used
                 [(bin_idx, i)] [] = Ok (feature_indices, consumed, used') /\
    chain_max features feature_indices (getIntensity feature1, feature1, bin_idx) = Ok r /\
    pass_inv features used'
             (chains ++ [mkChain feature_indices consumed (r.1.2, r.2)])
             (bin_idx, S i).
Proof.
  intros Hbin Hf1 Hflag (Hcov & Hnd & Hold & Hok).
  pose proof (feature_at_Some _ _ _ _ _ Hbin Hf1) as Hhead.
  destruct (extend_chain_spec feature1 features (drop (S bin_idx) features)
              (S bin_idx) used [(bin_idx, i)] [] eq_refl Hcov)
    as (links & new & used' & Hext & Hcons & Hlinks & Hnew).
  simpl in Hext.
  assert (Hvalid : forall pos, pos ∈ (bin_idx, i) :: links ->
                     is_Some (feature_at features pos)).
  { intros pos Hpos. apply elem_of_cons in Hpos as [->|Hpos]; [by rewrite Hhead|].
    destruct (Hnew pos (Hlinks pos Hpos)) as (_ & f & -> & _). eauto. }
  destruct (chain_max_spec features ((bin_idx, i) :: links)
              (getIntensity feature1, feature1, bin_idx) Hvalid)
    as (r & Hmax & Hr & Hb & Hall).
  exists ((bin_idx, i) :: links), new, used', r.
  split; [done|]. split; [done|].
  destruct Hcons as (Dnew & Inew & Onew).
  assert (Hfresh : forall pos, pos ∈ (bin_idx, i) :: new ->
                     pos ∉ all_positions chains).
  { intros pos Hpos Hin. destruct (Hold pos Hin) as [Hbef|Hmark].
    - apply elem_of_cons in Hpos as [->|Hpos].
      + unfold before in Hbef. simpl in Hbef. lia.
      + destruct (Hnew pos Hpos) as [Hle _]. unfold before in Hbef. simpl in Hbef. lia.
    - apply elem_of_cons in Hpos as [->|Hpos]; [congruence|].
      destruct (Inew pos Hpos) as [Hu _]. congruence. }
  split; [by eapply consumes_covers|]. split.
  { rewrite all_positions_snoc. unfold chain_positions. simpl.
    apply NoDup_app. split; [done|]. split.
    - intros pos Hin Hpos. by apply (Hfresh pos Hpos).
    - apply NoDup_cons. split; [|done]. intros Hin.
      destruct (Hnew _ Hin) as [Hle _]. simpl in Hle. lia. }
  split.
  { intros pos Hpos. rewrite all_positions_snoc in Hpos.
    apply elem_of_app in Hpos as [Hpos|Hpos].
    - destruct (Hold pos Hpos) as [H|H]; [left; by apply before_next|right].
      by eapply consumes_marked.
    - unfold chain_positions in Hpos. simpl in Hpos.
      apply elem_of_cons in Hpos as [->|Hpos].
      + left. unfold before. simpl. lia.
      + right. by destruct (Inew pos Hpos). }
  apply Forall_app. split; [done|]. constructor; [|constructor].
  exists (bin_idx, i), links, feature1. simpl. split; [done|]. split; [done|].
  split; [done|]. split.
  { intros pos Hpos. destruct (Hnew pos Hpos) as [Hle Hf]. split; [lia|done]. }
  assert (Hint : r.1.1 = getIntensity r.1.2).
  { destruct Hr as [->|(k & _ & _ & Hi)]; done. }
  split.
  - destruct Hr as [->|(k & Hk & Hfk & _)]; [|by exists k].
    exists i. simpl. split; [by left|done].
  - intros pos f Hpos Hf. rewrite <- Hint. by eapply Hall.
Qed.

Lemma pass_bin_loop_spec (features : list FeatureMap) (bin_idx : nat) (bin : FeatureMap) :
  features !! bin_idx = Some bin ->
  forall todo i used chains,
    drop i bin = todo ->
    pass_inv features used chains (bin_idx, i) ->
    exists used' chains',
      pass_bin_loop features bin_idx i todo used chains = Ok (used', chains') /\
      pass_inv features used' chains' (S bin_idx, 0%nat).
Proof.
  intros Hbin. induction todo as [|feature1 todo IH]; intros i used chains Hdrop Hinv.
  - exists used, chains. split; [done|].
    destruct Hinv as (Hcov & Hnd & Hold & Hok). repeat split; try done.
    intros pos Hpos. destruct (Hold pos Hpos) as [H|H]; [left|by right].
    by eapply before_next_bin.
  - apply drop_cons_inv in Hdrop as [Hi Hdrop].
    pose proof Hinv as (Hcov & _).
    destruct (Hcov (bin_idx, i)) as [u Hu].
    { rewrite (feature_at_Some _ _ _ _ _ Hbin Hi). eauto. }
    simpl. rewrite get2_flag, Hu. simpl. destruct u.
    + apply IH; [done|]. by apply pass_inv_skip.
    + destruct (pass_inv_chain features used chains bin_idx i bin feature1
                  Hbin Hi Hu Hinv)
        as (feature_indices & consumed & used' & r & Hext & Hmax & Hinv').
      rewrite Hext. simpl. rewrite Hmax. simpl.
      destruct r as [[intensity max_feature] max_idx]. simpl in *.
      by apply IH.
Qed.

Lemma pass_loop_spec (features : list FeatureMap) :
  forall todo bin_idx used chains,
    drop bin_idx features = todo ->
    pass_inv features used chains (bin_idx, 0%nat) ->
    exists chains',
      pass_loop features bin_idx todo used chains = Ok chains' /\
      NoDup (all_positions chains') /\ Forall (chain_ok features) chains'.
Proof.
  induction todo as [|bin todo IH]; intros bin_idx used chains Hdrop Hinv.
  - exists chains. split; [done|]. by destruct Hinv as (_ & Hnd & _ & Hok).
  - apply drop_cons_inv in Hdrop as [Hbin Hdrop].
    destruct (pass_bin_loop_spec features bin_idx bin Hbin bin 0 used chains
                eq_refl Hinv) as (used' & chains' & Hrun & Hinv').
    simpl. rewrite Hrun. simpl. by apply IH.
Qed.

Lemma fresh_used_covers (features : list FeatureMap) :
  covers (fresh_used features) features.
Proof.
  intros [b j] [f Hf]. apply feature_at_inv in Hf as (bin & Hbin & Hj).
  simpl in *. unfold get_flag, fresh_used.
  change (map ?f features) with (f <$> features). cbn [fst snd].
  rewrite list_lookup_fmap, Hbin. simpl.
  exists false. apply lookup_replicate_2. by eapply lookup_lt_Some.
Qed.

Lemma sort_bins_perm (features : list FeatureMap) :
  Forall2 (fun sorted bin => sorted ≡ₚ bin) (sort_bins features) features.
Proof.
  unfold sort_bins. induction features as [|bin features IH]; simpl; constructor.
  - unfold sortByRT, sortByPosition. by rewrite !sort_by_perm.
  - exact IH.
Qed.


(** ** The window scans *)

Lemma consumes1_refl (used : list bool) : consumes1 used used [].
Proof.
  split; [constructor|]. split; [done|]. split; [|done]. intros k H. by inv H.
Qed.

Lemma consumes1_one (used : list bool) (j : nat) :
  used !! j = Some false -> consumes1 used (<[j := true]> used) [j].
Proof.
  intros H. split; [apply NoDup_singleton|]. split; [apply length_insert|]. split.
  - intros k Hk. apply list_elem_of_singleton in Hk as ->. split; [done|].
    apply list_lookup_insert_eq. by eapply lookup_lt_Some.
  - intros k Hk. apply list_lookup_insert_ne. intros ->. apply Hk. by left.
Qed.

Lemma consumes1_app (u1 u2 u3 : list bool) (n1 n2 : list nat) :
  consumes1 u1 u2 n1 -> consumes1 u2 u3 n2 -> consumes1 u1 u3 (n1 ++ n2).
Proof.
  intros (D1 & L1 & I1 & O1) (D2 & L2 & I2 & O2).
  assert (Hdisj : forall k, k ∈ n1 -> k ∉ n2).
  { intros k H1 H2. destruct (I1 k H1) as [_ Ha]. destruct (I2 k H2) as [Hb _].
    congruence. }
  split; [by apply NoDup_app|]. split; [congruence|]. split.
  - intros k Hk. apply elem_of_app in Hk as [H1|H2].
    + destruct (I1 k H1) as [Ha Hb]. split; [done|].
      rewrite O2; [done|]. by apply Hdisj.
    + destruct (I2 k H2) as [Ha Hb]. split; [|done].
      rewrite <- O1; [done|]. intros H1. by apply (Hdisj k H1).
  - intros k Hk. apply not_elem_of_app in Hk as [H1 H2]. by rewrite O2, O1.
Qed.

Lemma consumes1_marked (u u' : list bool) (new : list nat) (k : nat) :
  consumes1 u u' new -> u !! k = Some true -> u' !! k = Some true.
Proof.
  intros (_ & _ & Hin & Hout) Hk. destruct (decide (k ∈ new)) as [H|H].
  - by destruct (Hin k H) as [_ ->].
  - by rewrite (Hout k H).
Qed.

Lemma consumes1_flag (u u' : list bool) (new : list nat) (k : nat) :
  consumes1 u u' new -> u !! k = Some false ->
  (u' !! k = Some true <-> k ∈ new).
Proof.
  intros (_ & _ & Hin & Hout) Hk. split.
  - intros H. destruct (decide (k ∈ new)) as [|Hn]; [done|].
    rewrite (Hout k Hn) in H. congruence.
  - intros H. by destruct (Hin k H).
Qed.

Lemma sorted_by_tail {A} (rt : A -> Q) (c : A) (rest : list A) :
  sorted_by rt (c :: rest) ->
  sorted_by rt rest /\ forall x, x ∈ rest -> rt c <= rt x.
Proof.
  intros H. apply StronglySorted_inv in H as [Hs Hall]. split; [done|].
  by rewrite Forall_forall in Hall.
Qed.

Lemma sorted_by_drop {A} (rt : A -> Q) (j : nat) (l : list A) :
  sorted_by rt l -> sorted_by rt (drop j l).
Proof.
  intros H. unfold sorted_by in *. rewrite <- (take_drop j l) in H.
  by apply StronglySorted_app_1_r in H.
Qed.

Lemma lookup_after_drop {A} (l : list A) (j k : nat) (c x : A) (rest : list A) :
  drop j l = c :: rest -> (j <= k)%nat -> l !! k = Some x ->
  (k = j /\ x = c) \/ ((S j <= k)%nat /\ x ∈ rest).
Proof.
  intros Hdrop Hjk Hk.
  pose proof (lookup_drop l j (k - j)) as Hl.
  replace (j + (k - j))%nat with k in Hl by lia. rewrite Hdrop, Hk in Hl.
  destruct (k - j)%nat as [|d] eqn:E.
  - left. simpl in Hl. split; [lia|congruence].
  - right. split; [lia|]. simpl in Hl. by eapply list_elem_of_lookup_2.
Qed.

Lemma scan_window_spec {A} (rt : A -> Q) (limit : Q) (cond : A -> bool) (l : list A) :
  forall rest j used similar,
    drop j l = rest -> length used = length l ->
    exists idxs new used',
      scan_window rt limit cond j rest used similar = Ok (similar ++ new, used') /\
      consumes1 used used' idxs /\
      Forall2 (fun k c => l !! k = Some c) idxs new /\
      (forall k, k ∈ idxs ->
         (j <= k)%nat /\ exists c, l !! k = Some c /\ cond c = true /\ rt c <= limit) /\
      (sorted_by rt rest ->
       forall k c, (j <= k)%nat -> l !! k = Some c -> used !! k = Some false ->
                   cond c = true -> rt c <= limit -> k ∈ idxs).
Proof.
  induction rest as [|c rest IH]; intros j used similar Hdrop Hlen.
  - exists [], [], used. simpl. rewrite app_nil_r. split; [done|].
    split; [apply consumes1_refl|]. split; [constructor|]. split.
    + intros k H. by inv H.
    + intros _ k x Hjk Hk. exfalso.
      apply lookup_lt_Some in Hk. pose proof (length_drop l j) as Hd.
      rewrite Hdrop in Hd. simpl in Hd. lia.
  - pose proof Hdrop as Hd0. apply drop_cons_inv in Hdrop as [Hj Hdrop].
    destruct (lookup_lt_is_Some_2 used j) as [u Hu].
    { rewrite Hlen. by eapply lookup_lt_Some. }
    simpl. rewrite (py_get_Some _ _ _ Hu). simpl. destruct u.
    { destruct (IH (S j) used similar Hdrop Hlen)
        as (idxs & new & used' & Hrun & Hcons & Hnew & Hin & Hcomp).
      exists idxs, new, used'. split; [done|]. split; [done|]. split; [done|]. split.
      - intros k Hk. destruct (Hin k Hk) as [Hle Hc]. split; [lia|done].
      - intros Hs k x Hjk Hk Hfree Hcond Hrt.
        apply sorted_by_tail in Hs as [Hs _].
        destruct (lookup_after_drop _ _ _ _ _ _ Hd0 Hjk Hk) as [[-> ->]|[Hlt _]];
          [congruence|]. by eapply Hcomp. }
    destruct (Qlt_bool limit (rt c)) eqn:Elim.
    { apply Qlt_bool_true in Elim.
      exists [], [], used. rewrite app_nil_r. split; [done|].
      split; [apply consumes1_refl|]. split; [constructor|]. split.
      - intros k H. by inv H.
      - intros Hs k x Hjk Hk Hfree Hcond Hrt. exfalso.
        apply sorted_by_tail in Hs as [_ Hge].
        destruct (lookup_after_drop _ _ _ _ _ _ Hd0 Hjk Hk) as [[-> ->]|[_ Hx]].
        + eapply Qlt_not_le; eauto.
        + specialize (Hge x Hx). eapply Qlt_not_le; [exact Elim|].
          by eapply Qle_trans. }
    apply Qlt_bool_false in Elim.
    destruct (cond c) eqn:Ec.
    + destruct (IH (S j) (<[j := true]> used) (similar ++ [c]) Hdrop)
        as (idxs & new & used' & Hrun & Hcons & Hnew & Hin & Hcomp).
      { by rewrite length_insert. }
      exists (j :: idxs), (c :: new), used'. rewrite Hrun, <- app_assoc.
      split; [done|]. split.
      { apply (consumes1_app used (<[j := true]> used) used' [j]);
          [by apply consumes1_one|done]. }
      split; [by constructor|]. split.
      * intros k Hk. apply elem_of_cons in Hk as [->|Hk].
        -- split; [lia|]. by exists c.
        -- destruct (Hin k Hk) as [Hle Hc]. split; [lia|done].
      * intros Hs k x Hjk Hk Hfree Hcond Hrt.
        apply sorted_by_tail in Hs as [Hs _].
        destruct (lookup_after_drop _ _ _ _ _ _ Hd0 Hjk Hk) as [[-> ->]|[Hlt _]];
          [by left|]. right. eapply Hcomp; try done.
        rewrite list_lookup_insert_ne; [done|lia].
    + destruct (IH (S j) used similar Hdrop Hlen)
        as (idxs & new & used' & Hrun & Hcons & Hnew & Hin & Hcomp).
      exists idxs, new, used'. split; [done|]. split; [done|]. split; [done|]. split.
      * intros k Hk. destruct (Hin k Hk) as [Hle Hc]. split; [lia|done].
      * intros Hs k x Hjk Hk Hfree Hcond Hrt.
        apply sorted_by_tail in Hs as [Hs _].
        destruct (lookup_after_drop _ _ _ _ _ _ Hd0 Hjk Hk) as [[-> ->]|[Hlt _]];
          [congruence|]. by eapply Hcomp.
Qed.

Lemma binary_search_left_rt_before {A} (rt : A -> Q) (l : list A) (target : Q) :
  forall k x, (k < binary_search_left_rt rt l target)%nat -> l !! k = Some x ->
              rt x < target.
Proof.
  induction l as [|y l IH]; intros k x Hk Hx; simpl in Hk; [lia|].
  destruct (Qle_bool target (rt y)) eqn:E; [lia|].
  apply Qle_bool_false in E. destruct k as [|k].
  - simpl in Hx. by inv Hx.
  - simpl in Hx. apply (IH k); [lia|done].
Qed.

(** Similar features lie within the RT threshold of each other. *)
Lemma similar_features_rt (f1 f2 : Feature) :
  similar_features f1 f2 RT_THRESHOLD MZ_THRESHOLD = true ->
  getRT f1 - RT_THRESHOLD <= getRT f2 /\ getRT f2 <= getRT f1 + RT_THRESHOLD.
Proof.
  unfold similar_features. intros H. apply andb_true_iff in H as [H _].
  apply Qle_bool_true, Qabs_Qle_condition in H as [H1 H2]. split; lra.
Qed.

(** ** Matching one first-pass representative against the second pass *)

Lemma scan_cross_window (feature1 : Feature) (bin1 : nat) (rest : list (Feature * nat)) :
  forall j used similar,
    scan_cross feature1 bin1 j rest used similar =
    scan_window (fun x => getRT x.1) (getRT feature1 + RT_THRESHOLD)
      (fun x => similar_features feature1 x.1 RT_THRESHOLD MZ_THRESHOLD
                && (Nat.eqb bin1 x.2 || Nat.eqb (bin1 + 1) x.2))
      j rest used similar.
Proof.
  induction rest as [|[feature2 bin2] rest IH]; intros j used similar; simpl; [done|].
  destruct (py_get used j) as [u|]; simpl; [|done].
  destruct u; [apply IH|]. destruct (Qlt_bool _ _); [done|].
  destruct (similar_features _ _ _ _ && _); apply IH.
Qed.

Lemma pick_cross_spec (ims2 : list Q) :
  forall similar max_area max_feature,
    (forall s, s ∈ similar -> (s.2 < length ims2)%nat) ->
    max_area = area max_feature.1 ->
    exists kept,
      pick_cross ims2 similar max_area max_feature = Ok kept /\
      (kept = max_feature \/
       exists s, s ∈ similar /\ kept.1 = s.1 /\ ims2 !! s.2 = Some kept.2) /\
      max_area <= area kept.1 /\
      (forall s, s ∈ similar -> area s.1 <= area kept.1).
Proof.
  induction similar as [|[feature2 bin2] similar IH];
    intros max_area max_feature Hims Harea.
  - exists max_feature. simpl. split; [done|]. split; [by left|].
    split; [rewrite Harea; apply Qle_refl|]. intros s H. by inv H.
  - assert (Hrest : forall s, s ∈ similar -> (s.2 < length ims2)%nat).
    { intros s Hs. apply Hims. by right. }
    simpl. destruct (Qlt_bool max_area (area feature2)) eqn:E.
    + apply Qlt_bool_true in E.
      destruct (py_get_lt ims2 bin2) as (im & Him & Gim).
      { apply (Hims (feature2, bin2)). by left. }
      rewrite Gim. simpl.
      destruct (IH (area feature2) (feature2, im) Hrest eq_refl)
        as (kept & Hrun & Hkept & Hge & Hall).
      exists kept. split; [done|]. split.
      * right. destruct Hkept as [->|(s & Hs & H1 & H2)].
        -- exists (feature2, bin2). split; [by left|done].
        -- exists s. split; [by right|done].
      * split; [eapply Qle_trans; [apply Qlt_le_weak, E|done]|].
        intros s Hs. apply elem_of_cons in Hs as [->|Hs]; [done|by apply Hall].
    + apply Qlt_bool_false in E.
      destruct (IH max_area max_feature Hrest Harea)
        as (kept & Hrun & Hkept & Hge & Hall).
      exists kept. split; [done|]. split.
      * destruct Hkept as [->|(s & Hs & H1 & H2)]; [by left|].
        right. exists s. split; [by right|done].
      * split; [done|].
        intros s Hs. apply elem_of_cons in Hs as [->|Hs]; [|by apply Hall].
        simpl. by eapply Qle_trans.
Qed.

Lemma Forall2_lookup_elem {A} (l : list A) (idxs : list nat) (new : list A) :
  Forall2 (fun k c => l !! k = Some c) idxs new ->
  forall s, s ∈ new -> exists k, k ∈ idxs /\ l !! k = Some s.
Proof.
  induction 1 as [|k c idxs new Hk Hrest IH]; intros s Hs; [by inv Hs|].
  apply elem_of_cons in Hs as [->|Hs].
  - exists k. split; [by left|done].
  - destruct (IH s Hs) as (k' & Hk' & Hl). exists k'. split; [by right|done].
Qed.

(** One iteration of the loop of lines 357-382 returns when the
    [im_scan_nums] lookups are in range, and keeps [feature1] or a
    candidate of the second pass. *)
Lemma cross_pass_one_frame (ims : list Q * list Q) (f1 : Feature) (bin1 : nat)
    (pass2 : list (Feature * nat)) (used : list bool) :
  length used = length pass2 ->
  (bin1 < length ims.1)%nat ->
  (forall s, s ∈ pass2 -> (s.2 < length ims.2)%nat) ->
  exists kept used',
    cross_pass_one ims f1 bin1 pass2 used = Ok (kept, used') /\
    length used' = length used /\
    (kept.1 = f1 \/ exists s, s ∈ pass2 /\ kept.1 = s.1).
Proof.
  intros Hlen Hbin1 Hims.
  set (first_idx := binary_search_left_rt (fun x : Feature * nat => getRT x.1) pass2
                      (getRT f1 - RT_THRESHOLD)).
  destruct (scan_window_spec (fun x : Feature * nat => getRT x.1)
              (getRT f1 + RT_THRESHOLD)
              (fun x : Feature * nat =>
                 similar_features f1 x.1 RT_THRESHOLD MZ_THRESHOLD
                 && (Nat.eqb bin1 x.2 || Nat.eqb (bin1 + 1) x.2)) pass2
              (drop first_idx pass2) first_idx used [] eq_refl Hlen)
    as (idxs & new & used' & Hscan & Hcons & Hnew & _).
  simpl in Hscan.
  assert (Hsub : forall s, s ∈ new -> s ∈ pass2).
  { intros s Hs. destruct (Forall2_lookup_elem _ _ _ Hnew s Hs) as (k & _ & Hk).
    by eapply list_elem_of_lookup_2. }
  destruct (py_get_lt ims.1 bin1 Hbin1) as (im1 & Him1 & Gim1).
  destruct (pick_cross_spec ims.2 new (area f1) (f1, im1))
    as (kept & Hpick & Hkept & _); [|done|].
  { intros s Hs. by apply Hims, Hsub. }
  exists kept, used'. split.
  { unfold cross_pass_one. fold first_idx. rewrite scan_cross_window, Hscan.
    simpl. rewrite Gim1. simpl. by rewrite Hpick. }
  split; [by destruct Hcons as (_ & ? & _)|].
  destruct Hkept as [->|(s & Hs & H1 & _)]; [by left|].
  right. exists s. split; [by apply Hsub|done].
Qed.

(** C4. For a representative [(f1, bin1)] of the first pass and any state
    of consumption of the RT-sorted second pass: [cross_pass_one] returns;
    a not-yet-consumed [(f2, bin2)] is consumed (matched) if and only if
    [f2] is similar to [f1] and [bin1 == bin2] or [bin1 + 1 == bin2];
    nothing consumed before is released; the pair kept is [f1] tagged
    with the average IM of its first-pass bin [bin1], or a matched
    candidate tagged with the average IM of its second-pass bin, and its
    hull area is not smaller than that of [f1] or of any matched
    candidate. *)
Theorem cross_pass_one_matches (ims : list Q * list Q) (f1 : Feature) (bin1 : nat)
    (raw_pass2 : list (Feature * nat)) (used : list bool) :
  let pass2 := sort_by (fun x => getRT x.1) raw_pass2 in
  length used = length pass2 ->
  (bin1 < length ims.1)%nat ->
  (forall s, s ∈ pass2 -> (s.2 < length ims.2)%nat) ->
  exists kept used',
    cross_pass_one ims f1 bin1 pass2 used = Ok (kept, used') /\
    length used' = length used /\
    (forall j, used !! j = Some true -> used' !! j = Some true) /\
    (forall j f2 bin2, pass2 !! j = Some (f2, bin2) -> used !! j = Some false ->
       (used' !! j = Some true <->
        similar_features f1 f2 RT_THRESHOLD MZ_THRESHOLD = true /\
        (bin1 = bin2 \/ (bin1 + 1)%nat = bin2))) /\
    ((kept.1 = f1 /\ ims.1 !! bin1 = Some kept.2) \/
     (exists j f2 bin2,
        pass2 !! j = Some (f2, bin2) /\ used !! j = Some false /\
        used' !! j = Some true /\ kept.1 = f2 /\ ims.2 !! bin2 = Some kept.2)) /\
    area f1 <= area kept.1 /\
    (forall j f2 bin2, pass2 !! j = Some (f2, bin2) -> used !! j = Some false ->
       used' !! j = Some true -> area f2 <= area kept.1).
Proof.
  intros pass2 Hlen Hbin1 Hims.
  set (first_idx := binary_search_left_rt (fun x : Feature * nat => getRT x.1) pass2
                      (getRT f1 - RT_THRESHOLD)).
  set (cond := fun x : Feature * nat =>
                 similar_features f1 x.1 RT_THRESHOLD MZ_THRESHOLD
                 && (Nat.eqb bin1 x.2 || Nat.eqb (bin1 + 1) x.2)).
  destruct (scan_window_spec (fun x : Feature * nat => getRT x.1)
              (getRT f1 + RT_THRESHOLD) cond pass2
              (drop first_idx pass2) first_idx used [] eq_refl Hlen)
    as (idxs & new & used' & Hscan & Hcons & Hnew & Hin & Hcomp).
  simpl in Hscan.
  assert (Hnew_in : forall s, s ∈ new -> exists k, k ∈ idxs /\ pass2 !! k = Some s).
  { clear -Hnew. induction Hnew as [|k c idxs new Hk Hrest IH]; intros s Hs;
      [by inv Hs|].
    apply elem_of_cons in Hs as [->|Hs].
    - exists k. split; [by left|done].
    - destruct (IH s Hs) as (k' & Hk' & Hl). exists k'. split; [by right|done]. }
  assert (Hidx_new : forall k s, k ∈ idxs -> pass2 !! k = Some s -> s ∈ new).
  { clear -Hnew. induction Hnew as [|k c idxs new Hk Hrest IH]; intros k' s Hk' Hs;
      [by inv Hk'|].
    apply elem_of_cons in Hk' as [->|Hk'].
    - assert (s = c) as -> by congruence. by left.
    - right. by eapply IH. }
  destruct (py_get_lt ims.1 bin1 Hbin1) as (im1 & Him1 & Gim1).
  destruct (pick_cross_spec ims.2 new (area f1) (f1, im1)) as
    (kept & Hpick & Hkept & Hge & Hall); [|done|].
  { intros s Hs. destruct (Hnew_in s Hs) as (k & _ & Hk).
    apply Hims. by eapply list_elem_of_lookup_2. }
  assert (Hcond : forall f2 bin2,
            cond (f2, bin2) = true <->
            similar_features f1 f2 RT_THRESHOLD MZ_THRESHOLD = true /\
            (bin1 = bin2 \/ (bin1 + 1)%nat = bin2)).
  { intros f2 bin2. unfold cond. simpl.
    rewrite andb_true_iff, orb_true_iff, !Nat.eqb_eq. done. }
  exists kept, used'. split.
  { unfold cross_pass_one. fold first_idx. rewrite scan_cross_window.
    fold cond. rewrite Hscan. simpl. rewrite Gim1. simpl. by rewrite Hpick. }
  split; [by destruct Hcons as (_ & ? & _)|].
  split; [intros j Hj; by eapply consumes1_marked|].
  split.
  { intros j f2 bin2 Hj Hfree.
    rewrite (consumes1_flag _ _ _ _ Hcons Hfree), <- Hcond. split.
    - intros Hk. destruct (Hin j Hk) as (_ & c & Hc & Hcc & _). congruence.
    - intros Hc. pose proof Hc as Hc'. apply Hcond in Hc' as [Hsim _].
      apply similar_features_rt in Hsim as [Hlo Hhi].
      apply (Hcomp (sorted_by_drop _ _ _ (sort_by_sorted _ raw_pass2)) j (f2, bin2));
        try done.
      destruct (le_lt_dec first_idx j) as [|Hlt]; [done|]. exfalso.
      pose proof (binary_search_left_rt_before _ _ _ j (f2, bin2) Hlt Hj) as Hb.
      simpl in Hb. eapply Qlt_not_le; eauto. }
  split.
  { destruct Hkept as [->|(s & Hs & H1 & H2)]; [by left|]. right.
    destruct (Hnew_in s Hs) as (k & Hk & Hl). destruct s as [f2 bin2].
    destruct Hcons as (_ & _ & Hci & _). destruct (Hci k Hk) as [Hu Hu'].
    by exists k, f2, bin2. }
  split; [done|].
  intros j f2 bin2 Hj Hfree Hmark.
  apply (consumes1_flag _ _ _ _ Hcons Hfree) in Hmark.
  apply (Hall (f2, bin2)). by eapply Hidx_new.
Qed.


Lemma cross_pass_one_matches_witness :
  let pass2 := sort_by (fun x => getRT x.1) [(chain_b, 1%nat); (chain_c, 0%nat)] in
  length [false; false] = length pass2 /\
  (0 < length some_ims.1)%nat /\
  (forall s, s ∈ pass2 -> (s.2 < length some_ims.2)%nat) /\
  exists kept used',
    cross_pass_one some_ims chain_a 0 pass2 [false; false] = Ok (kept, used') /\
    length used' = 2%nat /\
    (used' !! 0%nat = Some true <->
     similar_features chain_a chain_b RT_THRESHOLD MZ_THRESHOLD = true /\
     (0%nat = 1%nat \/ (0 + 1)%nat = 1%nat)).
Proof.
  intros pass2.
  assert (H1 : length [false; false] = length pass2) by reflexivity.
  assert (H2 : (0 < length some_ims.1)%nat) by (simpl; lia).
  assert (H3 : forall s, s ∈ pass2 -> (s.2 < length some_ims.2)%nat).
  { intros s Hs. vm_compute in Hs.
    apply elem_of_cons in Hs as [->|Hs]; [simpl; lia|].
    apply list_elem_of_singleton in Hs as ->. simpl. lia. }
  split; [exact H1|]. split; [exact H2|]. split; [exact H3|].
  destruct (cross_pass_one_matches some_ims chain_a 0
              [(chain_b, 1%nat); (chain_c, 0%nat)] [false; false] H1 H2 H3)
    as (kept & used' & Hrun & Hlen & _ & Hiff & _).
  exists kept, used'. split; [exact Hrun|]. split; [exact Hlen|].
  apply (Hiff 0%nat chain_b 1%nat); reflexivity.
Defined.

(** ** The cleanup sweep *)

Lemma scan_clean_window (anchor : Feature * Q) (rest : list (Feature * Q)) :
  forall j used similar,
    scan_clean anchor j rest used similar =
    scan_window (fun x => getRT x.1) (getRT anchor.1 + RT_THRESHOLD)
      (fun x => similar_features anchor.1 x.1 RT_THRESHOLD MZ_THRESHOLD
                && Qeq_bool anchor.2 x.2)
      j rest used similar.
Proof.
  induction rest as [|candidate rest IH]; intros j used similar; simpl; [done|].
  destruct (py_get used j) as [u|]; simpl; [|done].
  destruct u; [apply IH|]. destruct (Qlt_bool _ _); [done|].
  destruct (similar_features _ _ _ _ && _); apply IH.
Qed.

Lemma clean_loop_spec (feature_bins : list (Feature * Q)) :
  forall todo i used clusters,
    drop i feature_bins = todo -> length used = length feature_bins ->
    Forall (cluster_ok feature_bins) clusters ->
    exists clusters',
      clean_loop feature_bins i todo used clusters = Ok clusters' /\
      Forall (cluster_ok feature_bins) clusters'.
Proof.
  induction todo as [|anchor todo IH]; intros i used clusters Hdrop Hlen Hok.
  - by exists clusters.
  - apply drop_cons_inv in Hdrop as [Hi Hdrop].
    destruct (lookup_lt_is_Some_2 used i) as [u Hu].
    { rewrite Hlen. by eapply lookup_lt_Some. }
    simpl. rewrite (py_get_Some _ _ _ Hu). simpl. destruct u; [by apply IH|].
    set (first_idx := binary_search_left_rt (fun x : Feature * Q => getRT x.1)
                        feature_bins (getRT anchor.1 - RT_THRESHOLD)).
    set (cond := fun x : Feature * Q =>
                   similar_features anchor.1 x.1 RT_THRESHOLD MZ_THRESHOLD
                   && Qeq_bool anchor.2 x.2).
    destruct (scan_window_spec (fun x : Feature * Q => getRT x.1)
                (getRT anchor.1 + RT_THRESHOLD) cond feature_bins
                (drop first_idx feature_bins) first_idx (<[i := true]> used) []
                eq_refl)
      as (idxs & new & used2 & Hscan & Hcons & Hnew & Hin & _).
    { by rewrite length_insert. }
    simpl in Hscan. rewrite scan_clean_window. fold cond. rewrite Hscan. simpl.
    apply IH; [done| |].
    { destruct Hcons as (_ & -> & _). by rewrite length_insert. }
    apply Forall_app. split; [done|]. constructor; [|constructor].
    set (best := max_by_area fst (area anchor.1, anchor) new).
    assert (Hbest : best = (area anchor.1, anchor) \/
                    exists c, c ∈ new /\ best = (area c.1, c))
      by apply max_by_area_choice.
    destruct (max_by_area_bound fst (area anchor.1, anchor) new) as [Hb1 Hb2].
    fold best in Hb1, Hb2. simpl in Hb1.
    assert (Hb : best.1 = area best.2.1).
    { destruct Hbest as [->|(c & _ & ->)]; done. }
    unfold cluster_ok, cluster_members. simpl. split.
    { intros m Hm. apply elem_of_cons in Hm as [->|Hm].
      - by eapply list_elem_of_lookup_2.
      - destruct (Forall2_lookup_elem _ _ _ Hnew m Hm) as (k & _ & Hk).
        by eapply list_elem_of_lookup_2. }
    split.
    { intros m Hm. destruct (Forall2_lookup_elem _ _ _ Hnew m Hm) as (k & Hk & Hl).
      destruct (Hin k Hk) as (_ & c & Hc & Hcc & _).
      assert (c = m) as -> by congruence.
      unfold cond in Hcc. apply andb_true_iff in Hcc as [Hs Hq].
      split; [done|]. by apply Qeq_bool_iff. }
    split.
    { destruct Hbest as [->|(c & Hc & ->)]; [by left|by right]. }
    intros m Hm. rewrite <- Hb. apply elem_of_cons in Hm as [->|Hm]; [done|].
    by apply Hb2.
Qed.

(** C5 (as amended). The cleanup sweep returns, and in each of its
    clusters every feature other than the anchor (the first unconsumed
    feature in RT order) is RT/mz-similar to the anchor and has exactly
    the anchor's assigned IM value; hence any two features of one cluster
    have exactly equal assigned IM values, and two features whose
    assigned IM values differ are never merged.  The pair kept for a
    cluster is one of its members, of largest hull area. *)
Theorem cleanup_clusters_share_im (feature_bins : list (Feature * Q)) :
  exists clusters,
    cleanup feature_bins = Ok clusters /\
    Forall (cluster_ok feature_bins) clusters /\
    forall c x y, c ∈ clusters ->
      x ∈ cluster_members c -> y ∈ cluster_members c -> x.2 == y.2.
Proof.
  set (sorted := sort_by (fun x : Feature * Q => getRT x.1) feature_bins).
  destruct (clean_loop_spec sorted sorted 0 (replicate (length sorted) false) [])
    as (clusters & Hrun & Hok); [done|by rewrite length_replicate|constructor|].
  assert (Hok' : Forall (cluster_ok feature_bins) clusters).
  { eapply Forall_impl; [exact Hok|]. intros c (H1 & H2 & H3 & H4).
    split; [|done]. intros m Hm. apply (sort_by_elem_of (fun x => getRT x.1)).
    by apply H1. }
  exists clusters. split; [exact Hrun|]. split; [exact Hok'|].
  intros c x y Hc Hx Hy. rewrite Forall_forall in Hok.
  destruct (Hok c Hc) as (_ & Hsim & _).
  assert (Hanchor : forall m, m ∈ cluster_members c -> (cluster_anchor c).2 == m.2).
  { intros m Hm. apply elem_of_cons in Hm as [->|Hm]; [reflexivity|].
    by apply Hsim. }
  rewrite <- (Hanchor x Hx). by apply Hanchor.
Qed.

(** C5, counterexample. The first pass finds [near_mid], [near_lo] and
    [near_hi] in its bin 0 and the second pass finds nothing: all three
    get the IM of that bin, the cleanup sweep puts them in one cluster
    around [near_mid], and [near_lo] and [near_hi], merged into that
    cluster, are not similar to each other. *)
Lemma cleanup_merges_dissimilar_features :
  exists features1' features2' c,
    match_features_clusters some_ims [[near_mid; near_hi; near_lo]; []] [[]; []; []]
    = Ok (features1', features2', [c]) /\
    (near_lo, 1) ∈ cluster_members c /\
    (near_hi, 1) ∈ cluster_members c /\
    similar_features near_lo near_hi RT_THRESHOLD MZ_THRESHOLD = false.
Proof.
  do 3 eexists. split; [vm_compute; reflexivity|].
  split; [right; left|]. split; [right; right; left|]. reflexivity.
Qed.

(** ** Matching only selects *)

Lemma sort_bins_lookup (features : list FeatureMap) (b : nat) (sorted : FeatureMap) :
  sort_bins features !! b = Some sorted ->
  exists bin, features !! b = Some bin /\ sorted ≡ₚ bin.
Proof.
  intros H. pose proof (sort_bins_perm features) as Hp.
  destruct (Forall2_lookup_l _ _ _ _ _ Hp H) as (bin & Hbin & Hperm). eauto.
Qed.

Lemma sort_bins_length (features : list FeatureMap) :
  length (sort_bins features) = length features.
Proof. unfold sort_bins. apply length_map. Qed.

(** The pairs returned by [match_features_pass] are features of the bin
    they are paired with. *)
Lemma match_features_pass_frame (features : list FeatureMap) :
  exists matched,
    match_features_pass features = Ok (sort_bins features, matched) /\
    forall s, s ∈ matched ->
      exists bin, features !! s.2 = Some bin /\ s.1 ∈ bin.
Proof.
  destruct (pass_loop_spec (sort_bins features) (sort_bins features) 0
              (fresh_used (sort_bins features)) [] eq_refl)
    as (chains & Hrun & _ & Hok).
  { split; [apply fresh_used_covers|]. split; [constructor|].
    split; [|constructor]. intros pos H. by inv H. }
  exists (map chain_rep chains). split.
  { unfold match_features_pass, match_features_pass_chains. by rewrite Hrun. }
  intros s Hs. apply list_elem_of_In, in_map_iff in Hs as (c & <- & Hc).
  apply list_elem_of_In in Hc. rewrite Forall_forall in Hok.
  destruct (Hok c Hc) as (head & links & hf & _ & _ & _ & _ & (k & _ & Hk) & _).
  apply feature_at_inv in Hk as (sorted & Hsorted & Hlook). simpl in *.
  destruct (sort_bins_lookup _ _ _ Hsorted) as (bin & Hbin & Hperm).
  exists bin. split; [done|]. rewrite <- Hperm. by eapply list_elem_of_lookup_2.
Qed.

Lemma cross_pass_loop_spec (ims : list Q * list Q) (raw_pass2 : list (Feature * nat)) :
  let pass2 := sort_by (fun x => getRT x.1) raw_pass2 in
  (forall s, s ∈ pass2 -> (s.2 < length ims.2)%nat) ->
  forall pass1 used feature_bins,
    length used = length pass2 ->
    (forall s, s ∈ pass1 -> (s.2 < length ims.1)%nat) ->
    exists feature_bins' used',
      cross_pass_loop ims pass1 pass2 used feature_bins = Ok (feature_bins', used') /\
      length used' = length used /\
      forall x, x ∈ feature_bins' ->
        x ∈ feature_bins \/ (exists s, s ∈ pass1 /\ x.1 = s.1) \/
        (exists s, s ∈ pass2 /\ x.1 = s.1).
Proof.
  intros pass2 Hims2.
  induction pass1 as [|[feature1 bin1] pass1 IH]; intros used feature_bins Hlen Hims1.
  - exists feature_bins, used. simpl. split; [done|]. split; [done|]. by left.
  - destruct (cross_pass_one_frame ims feature1 bin1 pass2 used Hlen)
      as (kept & used1 & Hone & Hlen1 & Hkept); [|done|].
    { apply (Hims1 (feature1, bin1)). by left. }
    destruct (IH used1 (feature_bins ++ [kept])) as (fb' & used' & Hrun & Hlen' & Hfb).
    { congruence. }
    { intros s Hs. apply Hims1. by right. }
    exists fb', used'. simpl. rewrite Hone. simpl. split; [done|].
    split; [congruence|]. intros x Hx.
    destruct (Hfb x Hx) as [H|[(s & Hs & H)|H]]; [| |by right; right].
    + apply elem_of_app in H as [H|H]; [by left|].
      apply list_elem_of_singleton in H as ->. right.
      destruct Hkept as [H1|(s & Hs & H1)].
      * left. exists (feature1, bin1). split; [by left|done].
      * right. by exists s.
    + right. left. exists s. split; [by right|done].
Qed.

Lemma second_pass_only_spec (ims2 : list Q) (pass2 : list (Feature * nat))
    (used : list bool) :
  length used = length pass2 ->
  (forall s, s ∈ pass2 -> (s.2 < length ims2)%nat) ->
  forall rest j feature_bins,
    drop j pass2 = rest ->
    exists feature_bins',
      second_pass_only ims2 j rest used feature_bins = Ok feature_bins' /\
      forall x, x ∈ feature_bins' ->
        x ∈ feature_bins \/ exists s, s ∈ pass2 /\ x.1 = s.1.
Proof.
  intros Hlen Hims. induction rest as [|[feature2 bin2] rest IH];
    intros j feature_bins Hdrop.
  - exists feature_bins. split; [done|]. by left.
  - apply drop_cons_inv in Hdrop as [Hj Hdrop].
    destruct (lookup_lt_is_Some_2 used j) as [u Hu].
    { rewrite Hlen. by eapply lookup_lt_Some. }
    simpl. rewrite (py_get_Some _ _ _ Hu). simpl. destruct u; [by apply IH|].
    destruct (py_get_lt ims2 bin2) as (im & Him & Gim).
    { apply (Hims (feature2, bin2)). by eapply list_elem_of_lookup_2. }
    rewrite Gim. simpl.
    destruct (IH (S j) (feature_bins ++ [(feature2, im)]) Hdrop) as (fb' & Hrun & Hfb).
    exists fb'. split; [done|]. intros x Hx.
    destruct (Hfb x Hx) as [H|H]; [|by right].
    apply elem_of_app in H as [H|H]; [by left|].
    apply list_elem_of_singleton in H as ->. right.
    exists (feature2, bin2). split; [by eapply list_elem_of_lookup_2|done].
Qed.

Lemma match_features_pass_bins (features : list FeatureMap) (matched : list (Feature * nat))
    (s : Feature * nat) :
  (forall s, s ∈ matched -> exists bin, features !! s.2 = Some bin /\ s.1 ∈ bin) ->
  s ∈ matched ->
  (s.2 < length features)%nat /\ feature_of_pass features s.1.
Proof.
  intros H Hs. destruct (H s Hs) as (bin & Hbin & Hin). split.
  - by eapply lookup_lt_Some.
  - exists bin. split; [by eapply list_elem_of_lookup_2|done].
Qed.

(** [match_features] returns when [im_scan_nums] has an entry for every
    bin, and what it returns is made of features of its arguments. *)
Lemma match_features_frame (ff : FeatureFinder) (features1 features2 : list FeatureMap) :
  (length features1 <= length (im_scan_nums ff).1)%nat ->
  (length features2 <= length (im_scan_nums ff).2)%nat ->
  exists cleaned clean_bins,
    match_features ff features1 features2
    = Ok (sort_bins features1, sort_bins features2, (cleaned, clean_bins)) /\
    cleaned = map fst clean_bins /\
    forall f, f ∈ cleaned ->
      feature_of_pass features1 f \/ feature_of_pass features2 f.
Proof.
  intros L1 L2.
  destruct (match_features_pass_frame features1) as (pass1 & Hp1 & Hf1).
  destruct (match_features_pass_frame features2) as (pass2 & Hp2 & Hf2).
  set (sorted2 := sort_by (fun x : Feature * nat => getRT x.1) pass2).
  assert (Hs2 : forall s, s ∈ sorted2 -> s ∈ pass2).
  { intros s Hs. unfold sorted2 in Hs.
    by apply sort_by_elem_of in Hs. }
  assert (Hims2 : forall s, s ∈ sorted2 -> (s.2 < length (im_scan_nums ff).2)%nat).
  { intros s Hs. destruct (match_features_pass_bins _ _ s Hf2 (Hs2 s Hs)). lia. }
  destruct (cross_pass_loop_spec (im_scan_nums ff) pass2 Hims2 pass1
              (replicate (length pass2) false) [])
    as (fb & used' & Hloop & Hlen & Hfb).
  { rewrite length_replicate. symmetry. apply sort_by_length. }
  { intros s Hs. destruct (match_features_pass_bins _ _ s Hf1 Hs). lia. }
  fold sorted2 in Hloop.
  destruct (second_pass_only_spec (im_scan_nums ff).2 sorted2 used') with
    (rest := sorted2) (j := 0%nat) (feature_bins := fb) as (fb' & Hsecond & Hfb');
    [|done|done|].
  { rewrite Hlen, length_replicate. symmetry. apply sort_by_length. }
  set (sorted_fb := sort_by (fun x : Feature * Q => getRT x.1) fb').
  destruct (clean_loop_spec sorted_fb sorted_fb 0
              (replicate (length sorted_fb) false) [])
    as (clusters & Hclean & Hok); [done|by rewrite length_replicate|constructor|].
  exists (map (fun c => (cluster_rep c).1) clusters), (map cluster_rep clusters).
  split.
  { unfold match_features, match_features_clusters, combine_passes.
    rewrite Hp1. simpl. rewrite Hp2. simpl. fold sorted2. rewrite Hloop. simpl.
    rewrite Hsecond. simpl. unfold cleanup. fold sorted_fb. by rewrite Hclean. }
  split; [by rewrite map_map|].
  intros f Hf. apply list_elem_of_In, in_map_iff in Hf as (c & <- & Hc).
  apply list_elem_of_In in Hc. rewrite Forall_forall in Hok.
  destruct (Hok c Hc) as (Hmem & _ & Hrep & _).
  specialize (Hmem _ Hrep). unfold sorted_fb in Hmem.
  apply sort_by_elem_of in Hmem.
  destruct (Hfb' _ Hmem) as [H|(s & Hs & ->)].
  - destruct (Hfb _ H) as [H0|[(s & Hs & ->)|(s & Hs & ->)]]; [by inv H0| |].
    + left. by destruct (match_features_pass_bins _ _ s Hf1 Hs).
    + right. by destruct (match_features_pass_bins _ _ s Hf2 (Hs2 s Hs)).
  - right. by destruct (match_features_pass_bins _ _ s Hf2 (Hs2 s Hs)).
Qed.

(** C10. Each matching stage returns features of its input, unchanged,
    and leaves the caller's feature maps sorted in place:
    [match_features_internal] returns features of its map, which it sorts
    by RT; [match_features_pass] returns, for each pair, a feature of the
    bin it is paired with, and sorts each map by position and then by RT;
    [match_features], when [im_scan_nums] has an entry for every bin,
    returns features of the maps of either pass, which it leaves sorted in
    the same way. *)
Theorem matching_selects_input_features (ff : FeatureFinder) (features : FeatureMap)
    (features1 features2 : list FeatureMap) :
  (length features1 <= length (im_scan_nums ff).1)%nat ->
  (length features2 <= length (im_scan_nums ff).2)%nat ->
  ((match_features_internal features).1 = sortByRT features /\
   (match_features_internal features).1 ≡ₚ features /\
   forall f, f ∈ (match_features_internal features).2 -> f ∈ features) /\
  (exists matched,
     match_features_pass features1 = Ok (sort_bins features1, matched) /\
     Forall2 (fun sorted bin => sorted ≡ₚ bin) (sort_bins features1) features1 /\
     forall s, s ∈ matched -> exists bin, features1 !! s.2 = Some bin /\ s.1 ∈ bin) /\
  (exists cleaned clean_bins,
     match_features ff features1 features2
     = Ok (sort_bins features1, sort_bins features2, (cleaned, clean_bins)) /\
     Forall2 (fun sorted bin => sorted ≡ₚ bin) (sort_bins features2) features2 /\
     cleaned = map fst clean_bins /\
     forall f, f ∈ cleaned ->
       feature_of_pass features1 f \/ feature_of_pass features2 f).
Proof.
  intros L1 L2. split; [apply match_features_internal_frame|]. split.
  - destruct (match_features_pass_frame features1) as (matched & Hrun & Hin).
    exists matched. split; [done|]. split; [apply sort_bins_perm|done].
  - destruct (match_features_frame ff features1 features2 L1 L2)
      as (cleaned & clean_bins & Hrun & Hmap & Hin).
    exists cleaned, clean_bins. split; [done|]. split; [apply sort_bins_perm|done].
Qed.

Lemma matching_selects_input_features_witness :
  let ff := set_im_scan_nums reset some_ims in
  let features1 := [[chain_a]; [chain_b; chain_c]] in
  let features2 := [[chain_a]; []; [chain_b]] in
  (length features1 <= length (im_scan_nums ff).1)%nat /\
  (length features2 <= length (im_scan_nums ff).2)%nat /\
  exists cleaned clean_bins,
    match_features ff features1 features2
    = Ok (sort_bins features1, sort_bins features2, (cleaned, clean_bins)) /\
    forall f, f ∈ cleaned ->
      feature_of_pass features1 f \/ feature_of_pass features2 f.
Proof.
  intros ff features1 features2.
  assert (H1 : (length features1 <= length (im_scan_nums ff).1)%nat) by (simpl; lia).
  assert (H2 : (length features2 <= length (im_scan_nums ff).2)%nat) by (simpl; lia).
  split; [exact H1|]. split; [exact H2|].
  destruct (matching_selects_input_features ff [] features1 features2 H1 H2)
    as (_ & _ & cleaned & clean_bins & Hrun & _ & _ & Hin).
  exists cleaned, clean_bins. split; [exact Hrun|exact Hin].
Defined.

(** ** The run with a single bin *)

Ltac bind_ok H :=
  repeat match type of H with
         | mbind _ ?r = Ok _ =>
             let E := fresh "E" in
             destruct r eqn:E; simpl in H; [|discriminate H]
         end.

Lemma bind_ext {A B} (r : result A) (k1 k2 : A -> result B) :
  (forall a, r = Ok a -> k1 a = k2 a) -> r ≫= k1 = r ≫= k2.
Proof. intros H. destruct r as [a|e]; simpl; [by apply H|done]. Qed.

Lemma bind_ok_inv {A B} (r : result A) (k : A -> result B) (b : B) :
  r ≫= k = Ok b -> exists a, r = Ok a /\ k a = Ok b.
Proof. destruct r as [a|e]; simpl; [|done]. intros H. by exists a. Qed.

Lemma setup_bins_num_bins (ff ff' : FeatureFinder) (extrema : Q * Q) :
  setup_bins ff extrema = Ok ff' -> num_bins ff' = num_bins ff.
Proof.
  unfold setup_bins. destruct extrema as [start stop]. intros H.
  bind_ok H. by inv H.
Qed.

Lemma bin_spectrum_num_bins (ff ff' : FeatureFinder) (spec : MSSpectrum) :
  bin_spectrum ff spec = Ok ff' -> num_bins ff' = num_bins ff.
Proof. unfold bin_spectrum. intros H. bind_ok H. by inv H. Qed.

Lemma reset_write_cache_num_bins (ff ff' : FeatureFinder) :
  reset_write_cache ff = Ok ff' -> num_bins ff' = num_bins ff.
Proof. unfold reset_write_cache. intros H. bind_ok H. by inv H. Qed.

Lemma write_exps_num_bins (ff ff' : FeatureFinder) (disk disk' : Disk) :
  write_exps ff disk = Ok (ff', disk') -> num_bins ff' = num_bins ff.
Proof.
  unfold write_exps. intros H. bind_ok H. inv H.
  by eapply reset_write_cache_num_bins.
Qed.

Lemma binning_loop_cons (ff : FeatureFinder) (disk : Disk) (i : nat)
    (spec : MSSpectrum) (rest : list MSSpectrum) :
  binning_loop ff disk i (spec :: rest) =
  if negb (spec_ms_level spec =? 1)%Z then binning_loop ff disk (S i) rest
  else
    (ff1 ← bin_spectrum ff spec;
     '(ff2, disk') ← (if Nat.eqb (i mod 500) 0 then write_exps ff1 disk
                      else Ok (ff1, disk));
     binning_loop ff2 disk' (S i) rest).
Proof. reflexivity. Qed.

Lemma binning_loop_num_bins (spectra : list MSSpectrum) :
  forall ff disk i ff' disk',
    binning_loop ff disk i spectra = Ok (ff', disk') -> num_bins ff' = num_bins ff.
Proof.
  induction spectra as [|spec spectra IH]; intros ff disk i ff' disk' H.
  - by inv H.
  - rewrite binning_loop_cons in H.
    destruct (negb (spec_ms_level spec =? 1)%Z); [by eapply IH|].
    destruct (bin_spectrum ff spec) as [ff1|] eqn:E1;
      cbv [mbind result_bind] in H; [|discriminate H].
    apply bin_spectrum_num_bins in E1.
    destruct (Nat.eqb (i mod 500) 0).
    + destruct (write_exps ff1 disk) as [[ff2 disk2]|] eqn:E2; [|discriminate H].
      apply write_exps_num_bins in E2. apply IH in H. congruence.
    + apply IH in H. congruence.
Qed.

(** C6. With [num_bins == 1], [run] is the single-bin run: after the
    binning and the bin statistics it returns the intra-bin-deduplicated
    features of the single first-pass bin, with no IM value; neither
    [match_features_pass] nor [match_features] takes part, and no
    second-pass bin is searched for features. *)
Theorem run_single_bin_skips_matching (get_im_extrema : MSExperiment -> Q * Q)
    (preprocess : MSExperiment -> MSExperiment) (has_peaks : MSExperiment -> bool)
    (run_ff : MSExperiment -> FeatureMap) (exp : MSExperiment) :
  run get_im_extrema preprocess has_peaks run_ff exp 1
  = run_single_bin get_im_extrema preprocess has_peaks run_ff exp /\
  (forall ff disk,
     num_bins ff = 1%Z ->
     find_features preprocess has_peaks run_ff ff disk
     = (bin ← find_bin preprocess has_peaks run_ff disk 0 0; Ok ([bin], []))) /\
  (forall out,
     run get_im_extrema preprocess has_peaks run_ff exp 1 = Ok out ->
     out_features_im out = None).
Proof.
  assert (Hfind : forall ff disk,
     num_bins ff = 1%Z ->
     find_features preprocess has_peaks run_ff ff disk
     = (bin ← find_bin preprocess has_peaks run_ff disk 0 0; Ok ([bin], []))).
  { intros ff disk Hn. unfold find_features. rewrite Hn. simpl.
    by destruct (find_bin preprocess has_peaks run_ff disk 0 0). }
  assert (Heq : run get_im_extrema preprocess has_peaks run_ff exp 1
                = run_single_bin get_im_extrema preprocess has_peaks run_ff exp).
  { unfold run, run_single_bin.
    apply bind_ext. intros ff0 E0. apply setup_bins_num_bins in E0. simpl in E0.
    apply bind_ext. intros [ff1 disk1] E1. apply binning_loop_num_bins in E1.
    cbv beta iota.
    apply bind_ext. intros [ff2 disk] E2. apply write_exps_num_bins in E2.
    cbv beta iota.
    assert (Hn : num_bins ff2 = 1%Z) by congruence.
    rewrite Hn. change (py_range 1) with [0%nat]. change (Z.to_nat 1) with 1%nat.
    apply bind_ext. intros ims E3. apply bind_ext. intros last E4.
    cbv zeta. rewrite Hfind by done. unfold find_bin.
    destruct (load disk 0 0) as [bin|]; [|done].
    cbv [mbind result_bind]. cbv beta iota zeta.
    change (num_bins (set_im_scan_nums ff2 (ims.1, ims.2 ++ [last])))
      with (num_bins ff2).
    by rewrite Hn. }
  split; [exact Heq|]. split; [exact Hfind|].
  intros out Hout. rewrite Heq in Hout. unfold run_single_bin in Hout.
  apply bind_ok_inv in Hout as (ff0 & _ & Hout).
  apply bind_ok_inv in Hout as ([ff1 disk1] & _ & Hout). cbv beta iota in Hout.
  apply bind_ok_inv in Hout as ([ff2 disk] & _ & Hout). cbv beta iota in Hout.
  apply bind_ok_inv in Hout as (ims & _ & Hout).
  apply bind_ok_inv in Hout as (last & _ & Hout).
  apply bind_ok_inv in Hout as (bin & _ & Hout).
  cbv zeta in Hout. by inv Hout.
Qed.

(** ** The theorems at concrete inputs *)



Lemma cleanup_clusters_share_im_witness :
  exists clusters,
    cleanup [(near_mid, 1); (near_hi, 1); (near_lo, 2)] = Ok clusters /\
    forall c x y, c ∈ clusters ->
      x ∈ cluster_members c -> y ∈ cluster_members c -> x.2 == y.2.
Proof.
  destruct (cleanup_clusters_share_im [(near_mid, 1); (near_hi, 1); (near_lo, 2)])
    as (clusters & Hrun & _ & Him).
  exists clusters. split; [exact Hrun|exact Him].
Defined.

Lemma run_single_bin_skips_matching_witness :
  run (fun _ => (1, 7)) id non_empty three_features [close_spectrum; close_spectrum] 1
  = Ok (mkOutput [chain_b; chain_c] None) /\
  out_features_im (mkOutput [chain_b; chain_c] None) = None.
Proof.
  assert (H : run (fun _ => (1, 7)) id non_empty three_features
                  [close_spectrum; close_spectrum] 1
              = Ok (mkOutput [chain_b; chain_c] None)) by (vm_compute; reflexivity).
  split; [exact H|].
  destruct (run_single_bin_skips_matching (fun _ => (1, 7)) id non_empty
              three_features [close_spectrum; close_spectrum]) as (_ & _ & Hnone).
  exact (Hnone _ H).
Defined.

(** * Further properties *)

(** ** [setup_bins] *)



(** ** The anchor-based merge, continued *)




(** The runs behind the points emitted for a non-empty bin. *)
Lemma merge_bin_runs (temp_bin new_bin : list Point) :
  merge_bin temp_bin = Some new_bin ->
  let sorted := sort_by p_mz temp_bin in
  concat (runs sorted) = sorted /\
  Forall (fun run => exists first rest, run = first :: rest) (runs sorted) /\
  Forall2 merged_from new_bin (runs sorted).
Proof.
  unfold merge_bin. destruct (sort_by p_mz temp_bin) as [|first l] eqn:Hsort; [done|].
  intros [= <-]. cbv zeta. split; [apply runs_concat|]. split.
  - generalize (first :: l). intros pts.
    remember (length pts) as n eqn:Hn. revert pts Hn.
    induction n as [n IH] using lt_wf_ind. intros [|p pts] Hn; [constructor|].
    rewrite runs_cons. constructor; [by eexists _, _|].
    pose proof (take_run_length (p_mz p) pts) as Hlen.
    eapply IH; [|done]. simpl in *. lia.
  - simpl. rewrite within_epsilon_refl.
    pose proof (merge_loop_runs l first [] (0 + p_intensity first) [] []) as H.
    simpl in H. rewrite runs_cons. apply H; [|constructor]. ring.
Qed.



Lemma take_run_rest (mz : Q) (l : list Point) (p : Point) (rest : list Point) :
  (take_run mz l).2 = p :: rest -> within_epsilon mz (p_mz p) = false.
Proof.
  induction l as [|q l IH]; simpl; [done|].
  destruct (within_epsilon mz (p_mz q)) eqn:E.
  - destruct (take_run mz l) as [run r]. simpl in *. exact IH.
  - simpl. by intros [= -> _].
Qed.

Lemma take_run_rest_elem (mz : Q) (l : list Point) (x : Point) :
  x ∈ (take_run mz l).2 -> x ∈ l.
Proof.
  intros H. rewrite <- (take_run_app mz l). apply elem_of_app. by right.
Qed.

Lemma take_run_rest_sorted (mz : Q) (l : list Point) :
  sorted_by p_mz l -> sorted_by p_mz (take_run mz l).2.
Proof.
  intros H. unfold sorted_by in *. rewrite <- (take_run_app mz l) in H.
  by apply StronglySorted_app_1_r in H.
Qed.

(** Consecutive runs of a bin sorted by m/z start more than the epsilon
    apart. *)
Lemma runs_gap (l : list Point) :
  sorted_by p_mz l ->
  forall i r1 r2, runs l !! i = Some r1 -> runs l !! S i = Some r2 ->
    exists f1 t1 f2 t2,
      r1 = f1 :: t1 /\ r2 = f2 :: t2 /\ p_mz f1 + MZ_EPSILON < p_mz f2.
Proof.
  remember (length l) as n eqn:Hn. revert l Hn.
  induction n as [n IH] using lt_wf_ind. intros [|first l] Hn Hs i r1 r2 H1 H2;
    [done|].
  rewrite runs_cons in H1, H2.
  pose proof (take_run_length (p_mz first) l) as Hlen.
  apply sorted_by_tail in Hs as [Hs Hge].
  destruct i as [|i].
  - simpl in H1, H2. injection H1 as <-.
    destruct (take_run (p_mz first) l).2 as [|f2 rest] eqn:Erest; [done|].
    rewrite runs_cons in H2. simpl in H2. injection H2 as <-.
    eexists _, _, _, _. split; [done|]. split; [done|].
    pose proof (take_run_rest _ _ _ _ Erest) as Hout.
    assert (Hin : f2 ∈ l).
    { apply (take_run_rest_elem (p_mz first)). rewrite Erest. by left. }
    specialize (Hge f2 Hin). unfold within_epsilon in Hout.
    apply andb_false_iff in Hout as [Hout|Hout]; apply Qle_bool_false in Hout.
    + unfold MZ_EPSILON in *. lra.
    + done.
  - simpl in H1, H2.
    eapply (IH (length (take_run (p_mz first) l).2)); [simpl in Hn; lia|done| | |];
      [by apply take_run_rest_sorted|exact H1|exact H2].
Qed.

(** The points emitted for a bin are in ascending m/z and any two
    consecutive ones are more than the epsilon apart: no two emitted
    points could have been merged by the same test. *)
Theorem merge_bin_separates (temp_bin new_bin : list Point) :
  merge_bin temp_bin = Some new_bin ->
  forall i a b, new_bin !! i = Some a -> new_bin !! S i = Some b ->
    p_mz a + MZ_EPSILON < p_mz b /\ within_epsilon (p_mz a) (p_mz b) = false.
Proof.
  intros H i a b Ha Hb. destruct (merge_bin_runs _ _ H) as (_ & _ & Hm).
  destruct (Forall2_lookup_l _ _ _ _ _ Hm Ha) as (r1 & Hr1 & (fa & ta & -> & Hmza & _)).
  destruct (Forall2_lookup_l _ _ _ _ _ Hm Hb) as (r2 & Hr2 & (fb & tb & -> & Hmzb & _)).
  destruct (runs_gap _ (sort_by_sorted p_mz temp_bin) i _ _ Hr1 Hr2)
    as (f1 & t1 & f2 & t2 & [= <- <-] & [= <- <-] & Hgap).
  rewrite Hmza, Hmzb. split; [done|].
  unfold within_epsilon. apply andb_false_iff. right. by apply Qle_bool_false.
Qed.

Lemma merge_bin_separates_witness :
  merge_bin [mkPoint 7 100 10 1; mkPoint 7 200 5 3]
  = Some [mkPoint 7 100 (0 + 10) 1; mkPoint 7 200 5 3] /\
  within_epsilon 100 200 = false.
Proof.
  assert (H : merge_bin [mkPoint 7 100 10 1; mkPoint 7 200 5 3]
              = Some [mkPoint 7 100 (0 + 10) 1; mkPoint 7 200 5 3]) by reflexivity.
  split; [exact H|].
  by destruct (merge_bin_separates _ _ H 0%nat _ _ eq_refl eq_refl).
Defined.

(** ** Points outside the IM range *)

Lemma setup_bins_ok (ff0 ff : FeatureFinder) (start stop : Q) :
  (1 <= num_bins ff0)%Z -> start < stop -> setup_bins ff0 (start, stop) = Ok ff ->
  num_bins ff = num_bins ff0 /\ im_start ff = start /\ im_end ff = stop /\
  0 < bin_size ff /\
  inject_Z (num_bins ff) * bin_size ff == stop - start /\
  im_offset ff == start + bin_size ff / 2.
Proof.
  intros Hn Hlt Hsetup.
  assert (Hnq : 0 < inject_Z (num_bins ff0)).
  { change 0 with (inject_Z 0). rewrite <- Zlt_Qlt. lia. }
  unfold setup_bins in Hsetup. rewrite fdiv_pos in Hsetup by done.
  simpl in Hsetup. injection Hsetup as <-. simpl.
  split; [done|]. split; [done|]. split; [done|]. split.
  { apply Qlt_shift_div_l; [done|]. lra. }
  split; [|reflexivity]. field. lra.
Qed.

Lemma Qfloor_ge (q : Q) (z : Z) : inject_Z z <= q -> (z <= Qfloor q)%Z.
Proof. intros H. apply Qfloor_resp_le in H. by rewrite Qfloor_Z in H. Qed.

Lemma clamp_arith (n b start stop x : Q) :
  1 <= n -> 0 < b -> n * b == stop - start -> stop <= x ->
  n * b <= x - start /\ start + b / 2 <= x /\ (n - 1) * b <= x - (start + b / 2).
Proof.
  intros Hn Hb Htile Hx.
  assert (H : 0 <= (n - 1) * b) by (apply Qmult_le_0_compat; lra).
  assert (E : (n - 1) * b == n * b - b) by ring.
  rewrite E in H. rewrite E, Htile. unfold Qdiv. change (/ 2) with (1 # 2).
  repeat split; lra.
Qed.

(** A point whose IM is at or above [im_end] is not an error: it goes to
    the last bin of each pass, [num_bins - 1] on the unshifted grid and
    [num_bins] on the offset grid. *)
Theorem bins_clamp_above (ff0 ff : FeatureFinder) (start stop : Q) (p : Point) :
  (1 <= num_bins ff0)%Z -> start < stop ->
  setup_bins ff0 (start, stop) = Ok ff ->
  stop <= p_im p ->
  bin_idx0 ff p = Ok (num_bins ff - 1)%Z /\ bin_idx1 ff p = Ok (num_bins ff).
Proof.
  intros Hn Hlt Hsetup Hhi.
  destruct (setup_bins_ok _ _ _ _ Hn Hlt Hsetup)
    as (Hnb & Hst & Hen & Hsize & Htile & Hoff).
  assert (Hn' : (1 <= num_bins ff)%Z) by lia.
  assert (Hnq : 1 <= inject_Z (num_bins ff)).
  { change 1 with (inject_Z 1). by rewrite <- Zle_Qle. }
  destruct (bin_idx_valid ff p Hsize Hn') as (E0 & _ & E1 & _).
  { rewrite Hst. lra. }
  rewrite E0, E1. clear E0 E1.
  destruct (clamp_arith _ _ _ _ _ Hnq Hsize Htile Hhi) as (A0 & A1 & A2).
  assert (H0 : inject_Z (num_bins ff) <= (p_im p - im_start ff) / bin_size ff).
  { apply Qle_shift_div_l; [done|]. by rewrite Hst. }
  apply Qfloor_ge in H0.
  assert (Hlt1 : Qlt_bool (p_im p) (im_offset ff) = false).
  { apply Qlt_bool_false. by rewrite Hoff. }
  rewrite Hlt1.
  assert (H1 : inject_Z (num_bins ff - 1) <= (p_im p - im_offset ff) / bin_size ff).
  { apply Qle_shift_div_l; [done|]. rewrite Hoff.
    unfold Zminus. rewrite inject_Z_plus. exact A2. }
  apply Qfloor_ge in H1.
  split; f_equal; lia.
Qed.

Lemma bins_clamp_above_witness :
  (1 <= num_bins (set_num_bins reset 2))%Z /\ 1 < 7 /\
  setup_bins (set_num_bins reset 2) (1, 7) = Ok two_bins /\
  7 <= p_im (mkPoint 0 100 1 9) /\
  bin_idx0 two_bins (mkPoint 0 100 1 9) = Ok 1%Z /\
  bin_idx1 two_bins (mkPoint 0 100 1 9) = Ok 2%Z.
Proof.
  assert (H1 : (1 <= num_bins (set_num_bins reset 2))%Z) by (simpl; lia).
  assert (H2 : 1 < 7) by reflexivity.
  assert (H4 : 7 <= p_im (mkPoint 0 100 1 9)) by (simpl; discriminate).
  split; [exact H1|]. split; [exact H2|]. split; [exact setup_two_bins|].
  split; [exact H4|].
  exact (bins_clamp_above _ _ 1 7 (mkPoint 0 100 1 9) H1 H2 setup_two_bins H4).
Defined.







Lemma sort_by_nonempty {A} (key : A -> Q) (l : list A) (y : A) :
  y ∈ l -> exists x rest, sort_by key l = x :: rest.
Proof.
  intros Hy. destruct (sort_by key l) as [|x rest] eqn:E; [|by eauto].
  apply sort_by_nil_inv in E. subst l. by apply elem_of_nil in Hy.
Qed.



(** With a bin width of zero, which is what [setup_bins] computes when
    the IM extrema coincide, a spectrum with a peak cannot be binned: the
    first division raises [ZeroDivisionError]. *)
Theorem bin_spectrum_zero_width_raises (ff0 ff : FeatureFinder) (start : Q)
    (spec : MSSpectrum) :
  setup_bins ff0 (start, start) = Ok ff ->
  spec_peaks spec <> [] ->
  bin_size ff == 0 /\ bin_spectrum ff spec = Raise ZeroDivisionError.
Proof.
  intros Hsetup Hpeaks.
  assert (Hsize : bin_size ff == 0).
  { unfold setup_bins, fdiv in Hsetup.
    destruct (Qeq_bool (inject_Z (num_bins ff0)) 0) eqn:E; [done|].
    apply Qeq_bool_neq in E. simpl in Hsetup. injection Hsetup as <-. simpl.
    field. exact E. }
  split; [exact Hsize|].
  destruct (spec_peaks spec) as [|[[mz intensity] im] peaks] eqn:Epeaks; [done|].
  assert (Hp : mkPoint (spec_rt spec) mz intensity im ∈ get_spectrum_points spec).
  { unfold get_spectrum_points. rewrite Epeaks. simpl. by left. }
  destruct (sort_by_nonempty p_im _ _ Hp) as (x & rest & Hs).
  unfold bin_spectrum. rewrite Hs. csimpl.
  unfold bin_idx0, fdiv. apply Qeq_bool_iff in Hsize. by rewrite Hsize.
Qed.

Lemma bin_spectrum_zero_width_raises_witness :
  exists ff, setup_bins (set_num_bins reset 2) (3, 3) = Ok ff /\
    bin_spectrum ff (mkSpectrum 0 1 [(100, 5, 3)]) = Raise ZeroDivisionError.
Proof.
  eexists. split; [reflexivity|].
  refine (proj2 (bin_spectrum_zero_width_raises (set_num_bins reset 2) _ 3
                   (mkSpectrum 0 1 [(100, 5, 3)]) eq_refl _)).
  simpl. discriminate.
Defined.


Lemma set_exps_same (ff : FeatureFinder) : set_exps ff (exps ff) = ff.
Proof. by destruct ff. Qed.



(** ** The average IM of a bin *)




(** ** The two grids *)

Lemma Qfloor_half (q0 q1 : Q) :
  q1 == q0 - (1 # 2) -> (Qfloor q0 - 1 <= Qfloor q1 <= Qfloor q0)%Z.
Proof.
  intros E. pose proof (Qfloor_le q0) as Hlo. pose proof (Qlt_floor q0) as Hhi.
  pose proof (Qfloor_le q1) as Hlo1.
  rewrite inject_Z_plus in Hhi. change (inject_Z 1) with 1 in Hhi.
  split.
  - apply Qfloor_ge. unfold Zminus. rewrite inject_Z_plus.
    rewrite inject_Z_opp. change (inject_Z 1) with 1. lra.
  - assert (H : inject_Z (Qfloor q1) < inject_Z (Qfloor q0 + 1)).
    { rewrite inject_Z_plus. change (inject_Z 1) with 1. lra. }
    rewrite <- Zlt_Qlt in H. lia.
Qed.

(** The grids of the two passes overlap by half a bin: a point at or
    above [im_start] that the unshifted grid puts in bin [i] is put by the
    offset grid in bin [i] or in bin [i + 1].  These are the two bins of
    the second pass that [match_features] accepts for a feature of bin
    [i] of the first pass. *)
Theorem bins_of_both_passes_adjacent (ff0 ff : FeatureFinder) (start stop : Q)
    (p : Point) :
  (1 <= num_bins ff0)%Z -> start < stop ->
  setup_bins ff0 (start, stop) = Ok ff ->
  start <= p_im p ->
  exists i0 i1,
    bin_idx0 ff p = Ok i0 /\ bin_idx1 ff p = Ok i1 /\
    (i1 = i0 \/ i1 = (i0 + 1)%Z).
Proof.
  intros Hn Hlt Hsetup Hlo.
  destruct (setup_bins_ok _ _ _ _ Hn Hlt Hsetup)
    as (Hnb & Hst & Hen & Hsize & Htile & Hoff).
  assert (Hn' : (1 <= num_bins ff)%Z) by lia.
  destruct (bin_idx_valid ff p Hsize Hn') as (E0 & _ & E1 & _).
  { rewrite Hst. exact Hlo. }
  eexists _, _. split; [exact E0|]. split; [exact E1|].
  set (q0 := (p_im p - im_start ff) / bin_size ff).
  set (q1 := (p_im p - im_offset ff) / bin_size ff).
  assert (Hq : q1 == q0 - (1 # 2)).
  { assert (Eh : 1 / 2 == 1 # 2) by reflexivity. rewrite <- Eh.
    unfold q0, q1. rewrite Hoff, Hst. field. lra. }
  pose proof (Qfloor_half _ _ Hq) as Hfl.
  assert (H0 : 0 <= q0).
  { apply Qdiv_nonneg; [|done]. rewrite Hst. lra. }
  pose proof (Qfloor_nonneg _ H0) as Hf0.
  destruct (Qlt_bool (p_im p) (im_offset ff)) eqn:Ehalf.
  - left. apply Qlt_bool_true in Ehalf.
    assert (Hq1 : q1 < 0).
    { unfold q1. apply Qlt_shift_div_r; [done|]. lra. }
    pose proof (Qfloor_le q1) as Hle1.
    assert (Hz : (Qfloor q1 < 0)%Z).
    { rewrite Zlt_Qlt. change (inject_Z 0) with 0. lra. }
    lia.
  - lia.
Qed.

Lemma bins_of_both_passes_adjacent_witness :
  exists i0 i1,
    bin_idx0 two_bins (mkPoint 0 100 1 3) = Ok i0 /\
    bin_idx1 two_bins (mkPoint 0 100 1 3) = Ok i1 /\
    (i1 = i0 \/ i1 = (i0 + 1)%Z).
Proof.
  assert (H1 : (1 <= num_bins (set_num_bins reset 2))%Z) by (simpl; lia).
  assert (H2 : 1 < 7) by reflexivity.
  assert (H4 : 1 <= p_im (mkPoint 0 100 1 3)) by (simpl; discriminate).
  exact (bins_of_both_passes_adjacent _ _ 1 7 (mkPoint 0 100 1 3)
           H1 H2 setup_two_bins H4).
Defined.

(** ** Binning and the write cache *)

Lemma bin_append_length (bins bins' : list (list Point)) (i : Z) (p : Point) :
  bin_append bins i p = Ok bins' -> length bins' = length bins.
Proof.
  unfold bin_append. intros H. bind_ok H. inv H. apply length_alter.
Qed.

Lemma assign_points_length (ff : FeatureFinder) (points : list Point) :
  forall t t', assign_points ff points t = Ok t' ->
    length t'.1 = length t.1 /\ length t'.2 = length t.2.
Proof.
  induction points as [|p points IH]; intros t t' H; simpl in H.
  - by inv H.
  - destruct (bin_idx0 ff p) as [i0|]; [|discriminate H]. csimpl in H.
    destruct (bin_append t.1 i0 p) as [t0|] eqn:E0; [|discriminate H]. csimpl in H.
    destruct (bin_idx1 ff p) as [i1|]; [|discriminate H]. csimpl in H.
    destruct (bin_append t.2 i1 p) as [t1|] eqn:E1; [|discriminate H]. csimpl in H.
    apply IH in H as [H0 H1]. simpl in *.
    apply bin_append_length in E0, E1. split; congruence.
Qed.

Lemma bin_pass_delta (spec : MSSpectrum) (temp : list (list Point))
    (store : list MSExperiment) :
  length temp = length store ->
  bin_pass spec temp store (seq 0 (length store))
  = Ok (zip_with app store (pass_delta spec temp)).
Proof.
  intros Hlen.
  destruct (bin_pass_spec spec temp (seq 0 (length store)) store)
    as (store' & Hrun & Hlen' & _ & Hin).
  { apply NoDup_seq. }
  { intros i Hi. apply elem_of_seq in Hi. lia. }
  rewrite Hrun. f_equal. apply list_eq. intros k.
  rewrite lookup_zip_with. unfold pass_delta. rewrite list_lookup_fmap.
  destruct (store !! k) as [e|] eqn:Ek.
  - assert (Hk : (k < length store)%nat) by by eapply lookup_lt_Some.
    destruct (lookup_lt_is_Some_2 temp k) as [pts Hpts]; [lia|].
    rewrite (Hin k e pts Ek); [|apply elem_of_seq; lia|done].
    rewrite Hpts. simpl. destruct (merge_bin pts); [done|by rewrite app_nil_r].
  - simpl. apply lookup_ge_None. rewrite Hlen'. by apply lookup_ge_None.
Qed.

(** [bin_spectrum] over a cache of the right shape: every bin gets the
    contribution of the spectrum appended. *)
Lemma bin_spectrum_delta (ff : FeatureFinder) (spec : MSSpectrum) :
  (0 <= num_bins ff)%Z ->
  length (exps ff).1 = Z.to_nat (num_bins ff) ->
  length (exps ff).2 = S (Z.to_nat (num_bins ff)) ->
  bin_spectrum ff spec =
  (temp ← assigned ff spec;
   Ok (set_exps ff (zip_with app (exps ff).1 (pass_delta spec temp.1),
                    zip_with app (exps ff).2 (pass_delta spec temp.2)))).
Proof.
  intros Hn L0 L1. unfold bin_spectrum. fold (assigned ff spec). unfold assigned.
  destruct (assign_points ff _ (empty_bins ff)) as [temp|] eqn:E; [|done].
  csimpl. apply assign_points_length in E as [T0 T1].
  unfold empty_bins in T0, T1. simpl in T0, T1. rewrite length_replicate in T0, T1.
  unfold py_range. rewrite <- L0 at 1. rewrite bin_pass_delta by congruence.
  csimpl. replace (Z.to_nat (num_bins ff + 1)) with (length (exps ff).2) by lia.
  rewrite bin_pass_delta by congruence. done.
Qed.

Lemma write_pass_spec (run : nat) (cache : list MSExperiment) (idxs : list nat) :
  forall disk,
    NoDup idxs -> (forall i, i ∈ idxs -> (i < length cache)%nat) ->
    exists disk',
      write_pass run cache disk idxs = Ok disk' /\
      (forall k c, k ∈ idxs -> cache !! k = Some c ->
         disk' !! (run, k) = Some (default [] (disk !! (run, k)) ++ c)) /\
      (forall key, key.1 <> run \/ key.2 ∉ idxs -> disk' !! key = disk !! key).
Proof.
  induction idxs as [|i idxs IH]; intros disk Hnd Hlt.
  - exists disk. split; [done|]. split; [|done]. intros k c Hk. by inv Hk.
  - apply NoDup_cons in Hnd as [Hi Hnd].
    destruct (py_get_lt cache i) as (c_i & Hci & Gci); [apply Hlt; by left|].
    destruct (IH (<[(run, i) := default [] (disk !! (run, i)) ++ c_i]> disk) Hnd)
      as (disk' & Hrun & Hin & Hout).
    { intros j Hj. apply Hlt. by right. }
    exists disk'. split.
    { simpl. unfold write_bin. rewrite Gci. csimpl. exact Hrun. }
    split.
    + intros k c Hk Hc. apply elem_of_cons in Hk as [->|Hk].
      * rewrite (Hout (run, i)) by (right; exact Hi).
        rewrite lookup_insert_eq. congruence.
      * rewrite (Hin k c Hk Hc). rewrite lookup_insert_ne; [done|].
        intros [= ->]. done.
    + intros [r k] Hkey. simpl in Hkey. rewrite Hout.
      * rewrite lookup_insert_ne; [done|]. intros [= -> ->].
        destruct Hkey as [H|H]; [done|]. apply H. by left.
      * simpl. destruct Hkey as [H|H]; [by left|]. right.
        intros Hk. apply H. by right.
Qed.

Lemma clear_pass_spec (m : nat) :
  forall j cache,
    (j + m <= length cache)%nat ->
    clear_pass cache (seq j m)
    = Ok (take j cache ++ replicate m [] ++ drop (j + m) cache).
Proof.
  induction m as [|m IH]; intros j cache Hlen; simpl.
  - rewrite Nat.add_0_r. by rewrite take_drop.
  - unfold clear_bin. destruct (py_get_lt cache j) as (c & Hc & Gc); [lia|].
    rewrite Gc. csimpl. rewrite IH by (rewrite length_insert; lia).
    f_equal. rewrite take_insert_lt by lia. rewrite drop_insert_lt by lia.
    replace (S j + m)%nat with (j + S m)%nat by lia.
    rewrite (take_S_r cache j c Hc).
    rewrite insert_app_r_alt by (rewrite length_take; lia).
    rewrite length_take. replace (j - j `min` length cache)%nat with 0%nat by lia.
    simpl. by rewrite <- app_assoc.
Qed.

Lemma reset_write_cache_spec (ff : FeatureFinder) :
  (0 <= num_bins ff)%Z ->
  length (exps ff).1 = Z.to_nat (num_bins ff) ->
  length (exps ff).2 = S (Z.to_nat (num_bins ff)) ->
  reset_write_cache ff
  = Ok (set_exps ff (replicate (Z.to_nat (num_bins ff)) [],
                     replicate (S (Z.to_nat (num_bins ff))) [])).
Proof.
  intros Hn L0 L1. unfold reset_write_cache, py_range.
  rewrite !clear_pass_spec by lia. csimpl.
  rewrite drop_ge by lia. rewrite app_nil_r.
  destruct (lookup_lt_is_Some_2 (exps ff).2 (Z.to_nat (num_bins ff))) as [c Hc]; [lia|].
  rewrite (drop_S _ _ _ Hc). rewrite drop_ge by lia.
  set (n := Z.to_nat (num_bins ff)) in *.
  rewrite py_index_in_range.
  2:{ rewrite length_app, length_replicate. simpl. lia. }
  csimpl. unfold clear_bin. fold n.
  rewrite (py_get_Some _ _ c).
  2:{ rewrite lookup_app_r; rewrite length_replicate; [|lia].
      by rewrite Nat.sub_diag. }
  csimpl. do 2 f_equal.
  rewrite insert_app_r_alt by (rewrite length_replicate; lia).
  rewrite length_replicate, Nat.sub_diag. simpl.
  change ([[]]) with (replicate 1 ([] : MSExperiment)).
  by rewrite <- replicate_add, Nat.add_1_r.
Qed.

Lemma held_lookup (run : nat) (disk : Disk) (cache : list MSExperiment) (k : nat) :
  held run disk cache !! k = (fun c => default [] (disk !! (run, k)) ++ c) <$> cache !! k.
Proof. unfold held. by rewrite list_lookup_imap. Qed.

Lemma held_zip (run : nat) (disk : Disk) (cache delta : list MSExperiment) :
  held run disk (zip_with app cache delta) = zip_with app (held run disk cache) delta.
Proof.
  apply list_eq. intros k. rewrite held_lookup, !lookup_zip_with, held_lookup.
  destruct (cache !! k) as [c|]; [|done]. simpl.
  destruct (delta !! k) as [d|]; [|done]. simpl. by rewrite app_assoc.
Qed.

Lemma write_exps_spec (ff : FeatureFinder) (disk : Disk) :
  (0 <= num_bins ff)%Z ->
  length (exps ff).1 = Z.to_nat (num_bins ff) ->
  length (exps ff).2 = S (Z.to_nat (num_bins ff)) ->
  let n := Z.to_nat (num_bins ff) in
  exists disk',
    write_exps ff disk = Ok (set_exps ff (replicate n [], replicate (S n) []), disk') /\
    (forall k c, (exps ff).1 !! k = Some c ->
       disk' !! (0%nat, k) = Some (default [] (disk !! (0%nat, k)) ++ c)) /\
    (forall k c, (exps ff).2 !! k = Some c ->
       disk' !! (1%nat, k) = Some (default [] (disk !! (1%nat, k)) ++ c)).
Proof.
  intros Hn L0 L1 n.
  destruct (write_pass_spec 0 (exps ff).1 (py_range (num_bins ff)) disk)
    as (disk0 & Hw0 & Hin0 & Hout0).
  { apply NoDup_seq. }
  { intros i Hi. apply elem_of_seq in Hi. lia. }
  destruct (write_pass_spec 1 (exps ff).2 (py_range (num_bins ff + 1)) disk0)
    as (disk1 & Hw1 & Hin1 & Hout1).
  { apply NoDup_seq. }
  { intros i Hi. apply elem_of_seq in Hi. lia. }
  exists disk1. split.
  { unfold write_exps. rewrite Hw0. csimpl. rewrite Hw1. csimpl.
    by rewrite reset_write_cache_spec. }
  split.
  - intros k c Hk. rewrite Hout1 by (left; simpl; lia).
    apply Hin0; [|done]. apply elem_of_seq. apply lookup_lt_Some in Hk. lia.
  - intros k c Hk. rewrite (Hin1 k c); [|apply elem_of_seq|done].
    + rewrite Hout0 by (left; simpl; lia). done.
    + apply lookup_lt_Some in Hk. lia.
Qed.

(** A flush moves the cache to the files: what the bins hold in total
    does not change. *)
Lemma write_exps_held (ff ff' : FeatureFinder) (disk disk' : Disk) :
  (0 <= num_bins ff)%Z ->
  length (exps ff).1 = Z.to_nat (num_bins ff) ->
  length (exps ff).2 = S (Z.to_nat (num_bins ff)) ->
  write_exps ff disk = Ok (ff', disk') ->
  ff' = set_exps ff (replicate (Z.to_nat (num_bins ff)) [],
                     replicate (S (Z.to_nat (num_bins ff))) []) /\
  held 0 disk' (exps ff').1 = held 0 disk (exps ff).1 /\
  held 1 disk' (exps ff').2 = held 1 disk (exps ff).2.
Proof.
  intros Hn L0 L1 Hw.
  destruct (write_exps_spec ff disk Hn L0 L1) as (disk1 & Hw' & H0 & H1).
  rewrite Hw' in Hw. injection Hw as <- <-. split; [done|].
  change (exps (set_exps ff ?c)) with c. cbn [fst snd].
  split; apply list_eq; intros k; rewrite !held_lookup.
  - destruct ((exps ff).1 !! k) as [c|] eqn:Ek.
    + rewrite lookup_replicate_2 by (apply lookup_lt_Some in Ek; lia).
      simpl. rewrite (H0 k c Ek). simpl. by rewrite app_nil_r.
    + apply lookup_ge_None in Ek. rewrite (proj1 (lookup_replicate_None _ _ _)); [done|]. lia.
  - destruct ((exps ff).2 !! k) as [c|] eqn:Ek.
    + change ([] :: replicate ?m ?x) with (replicate (S m) x).
      rewrite lookup_replicate_2 by (apply lookup_lt_Some in Ek; lia).
      simpl. rewrite (H1 k c Ek). simpl. by rewrite app_nil_r.
    + change ([] :: replicate ?m ?x) with (replicate (S m) x).
      apply lookup_ge_None in Ek. rewrite (proj1 (lookup_replicate_None _ _ _)); [done|]. lia.
Qed.

Lemma assigned_length (ff : FeatureFinder) (spec : MSSpectrum) temp :
  assigned ff spec = Ok temp ->
  length (pass_delta spec temp.1) = Z.to_nat (num_bins ff) /\
  length (pass_delta spec temp.2) = S (Z.to_nat (num_bins ff)).
Proof.
  unfold assigned. intros H. apply assign_points_length in H as [H0 H1].
  unfold pass_delta. rewrite !length_map, H0, H1. unfold empty_bins. simpl.
  by rewrite length_replicate.
Qed.

Lemma binning_loop_sim (ff : FeatureFinder) (disk0 : Disk) (exp : list MSSpectrum) :
  (0 <= num_bins ff)%Z ->
  let n := Z.to_nat (num_bins ff) in
  forall i cX cY disk,
    length cX.1 = n -> length cX.2 = S n ->
    length cY.1 = n -> length cY.2 = S n ->
    held 0 disk cY.1 = held 0 disk0 cX.1 ->
    held 1 disk cY.2 = held 1 disk0 cX.2 ->
    match bin_all (set_exps ff cX) (List.filter is_ms1 exp) with
    | Ok ffA =>
        exists cY' disk',
          binning_loop (set_exps ff cY) disk i exp = Ok (set_exps ff cY', disk') /\
          length cY'.1 = n /\ length cY'.2 = S n /\
          held 0 disk' cY'.1 = held 0 disk0 (exps ffA).1 /\
          held 1 disk' cY'.2 = held 1 disk0 (exps ffA).2
    | Raise e => binning_loop (set_exps ff cY) disk i exp = Raise e
    end.
Proof.
  intros Hn n. induction exp as [|spec exp IH]; intros i cX cY disk X0 X1 Y0 Y1 H0 H1.
  - simpl. exists cY, disk. by repeat split.
  - rewrite binning_loop_cons. generalize (Nat.eqb (i mod 500) 0). intros flush.
    simpl List.filter. unfold is_ms1 at 1.
    destruct (spec_ms_level spec =? 1)%Z eqn:Elevel; simpl negb; cbv iota.
    2:{ by apply IH. }
    simpl bin_all.
    rewrite (bin_spectrum_delta (set_exps ff cX)) by done.
    rewrite (bin_spectrum_delta (set_exps ff cY)) by done.
    rewrite !assigned_set_exps.
    destruct (assigned ff spec) as [temp|e] eqn:Etemp; csimpl; [|done].
    destruct (assigned_length _ _ _ Etemp) as [D0 D1].
    set (cX1 := (zip_with app cX.1 (pass_delta spec temp.1),
                 zip_with app cX.2 (pass_delta spec temp.2))).
    set (cY1 := (zip_with app cY.1 (pass_delta spec temp.1),
                 zip_with app cY.2 (pass_delta spec temp.2))).
    change (set_exps (set_exps ff cX) cX1) with (set_exps ff cX1).
    change (set_exps (set_exps ff cY) cY1) with (set_exps ff cY1).
    assert (LX0 : length cX1.1 = n) by (simpl; rewrite length_zip_with; lia).
    assert (LX1 : length cX1.2 = S n) by (simpl; rewrite length_zip_with; lia).
    assert (LY0 : length cY1.1 = n) by (simpl; rewrite length_zip_with; lia).
    assert (LY1 : length cY1.2 = S n) by (simpl; rewrite length_zip_with; lia).
    assert (G0 : held 0 disk cY1.1 = held 0 disk0 cX1.1).
    { simpl. by rewrite !held_zip, H0. }
    assert (G1 : held 1 disk cY1.2 = held 1 disk0 cX1.2).
    { simpl. by rewrite !held_zip, H1. }
    destruct flush.
    + destruct (write_exps_spec (set_exps ff cY1) disk Hn LY0 LY1)
        as (disk1 & Hw & _).
      destruct (write_exps_held (set_exps ff cY1) _ disk disk1 Hn LY0 LY1 Hw)
        as (_ & W0 & W1).
      rewrite Hw. cbv [mbind result_bind]. cbv beta iota.
      change (set_exps (set_exps ff cY1) ?c) with (set_exps ff c).
      apply IH; simpl; rewrite ?length_replicate; try done.
      * simpl in W0. by rewrite W0.
      * simpl in W1. by rewrite W1.
    + cbv [mbind result_bind]. cbv beta iota. by apply IH.
Qed.

(** The binning loop of [run] followed by its final [write_exps] puts in
    the file of every bin exactly what binning the MS1 spectra one after
    the other, without any flush, leaves in the cache of that bin,
    appended to what the file held before; the cache ends up empty.
    Where the flushes fall in between (the index [i] of the first
    spectrum decides it) and the spectra that are not MS1 make no
    difference, and the loop raises exactly when the binning of an MS1
    spectrum does. *)
Theorem binning_independent_of_flushes (ff : FeatureFinder) (disk : Disk) (i : nat)
    (exp : MSExperiment) :
  (0 <= num_bins ff)%Z ->
  length (exps ff).1 = Z.to_nat (num_bins ff) ->
  length (exps ff).2 = S (Z.to_nat (num_bins ff)) ->
  match bin_all ff (List.filter is_ms1 exp) with
  | Ok ffA =>
      exists ff' disk',
        ('(ff1, disk1) ← binning_loop ff disk i exp; write_exps ff1 disk1)
        = Ok (ff', disk') /\
        (forall k e, (exps ffA).1 !! k = Some e ->
           disk' !! (0%nat, k) = Some (default [] (disk !! (0%nat, k)) ++ e)) /\
        (forall k e, (exps ffA).2 !! k = Some e ->
           disk' !! (1%nat, k) = Some (default [] (disk !! (1%nat, k)) ++ e)) /\
        exps ff' = (replicate (Z.to_nat (num_bins ff)) [],
                    replicate (S (Z.to_nat (num_bins ff))) [])
  | Raise e =>
      ('(ff1, disk1) ← binning_loop ff disk i exp; write_exps ff1 disk1) = Raise e
  end.
Proof.
  intros Hn L0 L1.
  pose proof (binning_loop_sim ff disk exp Hn i (exps ff) (exps ff) disk
                L0 L1 L0 L1 eq_refl eq_refl) as Hsim.
  rewrite set_exps_same in Hsim.
  destruct (bin_all ff (List.filter is_ms1 exp)) as [ffA|e].
  2:{ by rewrite Hsim. }
  destruct Hsim as (cY & disk1 & Hloop & Y0 & Y1 & H0 & H1).
  destruct (write_exps_spec (set_exps ff cY) disk1 Hn Y0 Y1) as (disk' & Hw & W0 & W1).
  eexists _, disk'. rewrite Hloop. split; [exact Hw|].
  split; [|split; [|done]].
  - intros k e Hk. pose proof (f_equal (fun l => l !! k) H0) as Hk0.
    simpl in Hk0. rewrite !held_lookup, Hk in Hk0.
    destruct (cY.1 !! k) as [c|] eqn:Ec; [|done].
    rewrite (W0 k c Ec). simpl in Hk0. congruence.
  - intros k e Hk. pose proof (f_equal (fun l => l !! k) H1) as Hk1.
    simpl in Hk1. rewrite !held_lookup, Hk in Hk1.
    destruct (cY.2 !! k) as [c|] eqn:Ec; [|done].
    rewrite (W1 k c Ec). simpl in Hk1. congruence.
Qed.

Lemma binning_independent_of_flushes_witness :
  exists ff' disk',
    ('(ff1, disk1) ← binning_loop two_bins ∅ 0
                       [mkSpectrum 0 1 [(100, 10, 2)]; mkSpectrum 1 2 [(300, 5, 2)];
                        mkSpectrum 2 1 [(100, 20, 6)]];
     write_exps ff1 disk1) = Ok (ff', disk') /\
    disk' !! (0%nat, 0%nat) = Some [mkSpectrum 0 1 [(100, 0 + 10, 2)]] /\
    disk' !! (0%nat, 1%nat) = Some [mkSpectrum 2 1 [(100, 0 + 20, 6)]] /\
    exps ff' = ([[]; []], [[]; []; []]).
Proof.
  assert (Hn : (0 <= num_bins two_bins)%Z) by (simpl; lia).
  assert (L0 : length (exps two_bins).1 = Z.to_nat (num_bins two_bins)) by reflexivity.
  assert (L1 : length (exps two_bins).2 = S (Z.to_nat (num_bins two_bins)))
    by reflexivity.
  pose proof (binning_independent_of_flushes two_bins ∅ 0
                [mkSpectrum 0 1 [(100, 10, 2)]; mkSpectrum 1 2 [(300, 5, 2)];
                 mkSpectrum 2 1 [(100, 20, 6)]] Hn L0 L1) as H.
  destruct H as (ff' & disk' & Hrun & H0 & _ & Hc).
  exists ff', disk'. split; [exact Hrun|].
  split; [exact (H0 0%nat _ eq_refl)|].
  split; [exact (H0 1%nat _ eq_refl)|exact Hc].
Defined.

Lemma write_exps_frame (ff ff' : FeatureFinder) (disk disk' : Disk) :
  write_exps ff disk = Ok (ff', disk') ->
  forall key,
    ~ (key.1 = 0%nat /\ (key.2 < Z.to_nat (num_bins ff))%nat) ->
    ~ (key.1 = 1%nat /\ (key.2 < Z.to_nat (num_bins ff + 1))%nat) ->
    disk' !! key = disk !! key.
Proof.
  unfold write_exps. intros H key K0 K1.
  destruct (write_pass 0 _ disk _) as [disk0|] eqn:E0; [|discriminate H].
  csimpl in H.
  destruct (write_pass 1 _ disk0 _) as [disk1|] eqn:E1; [|discriminate H].
  csimpl in H.
  destruct (reset_write_cache ff) as [ff1|]; [|discriminate H].
  csimpl in H. injection H as <- <-.
  assert (Hframe : forall run cache idxs d d',
            write_pass run cache d idxs = Ok d' ->
            forall key, key.1 <> run \/ key.2 ∉ idxs -> d' !! key = d !! key).
  { clear. intros run cache idxs. induction idxs as [|i idxs IH]; intros d d' H key Hk.
    - by inv H.
    - simpl in H. unfold write_bin in H.
      destruct (py_get cache i) as [c|]; [|discriminate H]. csimpl in H.
      rewrite (IH _ _ H key).
      + apply lookup_insert_ne. intros <-. simpl in Hk.
        destruct Hk as [Hk|Hk]; [done|]. apply Hk. by left.
      + destruct Hk as [Hk|Hk]; [by left|]. right. intros Hin. apply Hk. by right. }
  rewrite (Hframe _ _ _ _ _ E1 key), (Hframe _ _ _ _ _ E0 key); [done| |].
  - destruct (decide (key.1 = 0%nat)) as [Hr|Hr]; [|by left]. right.
    unfold py_range. intros Hin. apply elem_of_seq in Hin. apply K0. split; [done|lia].
  - destruct (decide (key.1 = 1%nat)) as [Hr|Hr]; [|by left]. right.
    unfold py_range. intros Hin. apply elem_of_seq in Hin. apply K1. split; [done|lia].
Qed.

(** [write_exps] over a cache of the right shape succeeds: it appends the
    cache of every bin to the file of that bin, creating the file when
    there is none, touches no other file, and leaves every cache empty.
    A second [write_exps] right after it changes nothing, neither on
    disk nor in the feature finder. *)
Theorem write_exps_flushes_cache (ff : FeatureFinder) (disk : Disk) :
  (0 <= num_bins ff)%Z ->
  length (exps ff).1 = Z.to_nat (num_bins ff) ->
  length (exps ff).2 = S (Z.to_nat (num_bins ff)) ->
  exists ff' disk',
    write_exps ff disk = Ok (ff', disk') /\
    (forall k c, (exps ff).1 !! k = Some c ->
       disk' !! (0%nat, k) = Some (default [] (disk !! (0%nat, k)) ++ c)) /\
    (forall k c, (exps ff).2 !! k = Some c ->
       disk' !! (1%nat, k) = Some (default [] (disk !! (1%nat, k)) ++ c)) /\
    (forall run k, (exps ff).1 !! k = None \/ run <> 0%nat ->
                   (exps ff).2 !! k = None \/ run <> 1%nat ->
                   disk' !! (run, k) = disk !! (run, k)) /\
    Forall (fun c => c = []) (exps ff').1 /\ Forall (fun c => c = []) (exps ff').2 /\
    write_exps ff' disk' = Ok (ff', disk').
Proof.
  intros Hn L0 L1. set (n := Z.to_nat (num_bins ff)).
  destruct (write_exps_spec ff disk Hn L0 L1) as (disk' & Hw & H0 & H1).
  set (ff' := set_exps ff (replicate n [], replicate (S n) [])) in *.
  exists ff', disk'. split; [exact Hw|]. split; [exact H0|]. split; [exact H1|].
  split.
  { intros run k K0 K1. apply (write_exps_frame _ _ _ _ Hw); simpl.
    - intros [-> Hk]. destruct K0 as [K0|K0]; [|done].
      apply lookup_ge_None in K0. lia.
    - intros [-> Hk]. destruct K1 as [K1|K1]; [|done].
      apply lookup_ge_None in K1. lia. }
  split; [apply Forall_replicate; done|].
  split; [apply (Forall_replicate (fun c : MSExperiment => c = []) (S n)); done|].
  assert (L0' : length (exps ff').1 = Z.to_nat (num_bins ff'))
    by (simpl; apply length_replicate).
  assert (L1' : length (exps ff').2 = S (Z.to_nat (num_bins ff')))
    by (simpl; f_equal; apply length_replicate).
  destruct (write_exps_spec ff' disk' Hn L0' L1') as (disk2 & Hw2 & G0 & G1).
  rewrite Hw2. change (set_exps ff' ?c) with (set_exps ff c). fold n. fold ff'.
  do 2 f_equal. apply map_eq. intros [run k].
  destruct (decide (run = 0%nat /\ (k < n)%nat)) as [[-> Hk]|K0].
  { destruct (lookup_lt_is_Some_2 (exps ff).1 k) as [c Hc]; [lia|].
    rewrite (G0 k []) by (simpl; apply lookup_replicate_2; lia).
    rewrite (H0 k c Hc). simpl. by rewrite app_nil_r. }
  destruct (decide (run = 1%nat /\ (k < S n)%nat)) as [[-> Hk]|K1].
  { destruct (lookup_lt_is_Some_2 (exps ff).2 k) as [c Hc]; [lia|].
    rewrite (G1 k []).
    2:{ change (exps ff').2 with (replicate (S n) ([] : MSExperiment)).
        apply lookup_replicate_2; lia. }
    rewrite (H1 k c Hc). simpl. by rewrite app_nil_r. }
  apply (write_exps_frame _ _ _ _ Hw2); simpl; fold n.
  - exact K0.
  - replace (Z.to_nat (num_bins ff + 1)) with (S n) by lia. exact K1.
Qed.

Lemma write_exps_flushes_cache_witness :
  exists ff' disk',
    write_exps (set_exps two_bins ([two_point_bin; []], [[]; []; two_point_bin])) ∅
    = Ok (ff', disk') /\
    disk' !! (0%nat, 0%nat) = Some two_point_bin /\
    disk' !! (1%nat, 2%nat) = Some two_point_bin /\
    write_exps ff' disk' = Ok (ff', disk').
Proof.
  destruct (write_exps_flushes_cache
              (set_exps two_bins ([two_point_bin; []], [[]; []; two_point_bin])) ∅)
    as (ff' & disk' & Hw & H0 & H1 & _ & _ & _ & Hagain).
  - simpl. lia.
  - reflexivity.
  - reflexivity.
  - exists ff', disk'. split; [exact Hw|].
    split; [exact (H0 0%nat _ eq_refl)|].
    split; [exact (H1 2%nat _ eq_refl)|exact Hagain].
Defined.

(** ** The representatives of the intra-bin matching *)

Lemma hull_eqb_refl (h : list (Q * Q)) : hull_eqb h h = true.
Proof.
  induction h as [|[x y] h IH]; simpl; [done|].
  rewrite IH, !andb_true_r. apply andb_true_iff. split; by apply Qeq_bool_iff.
Qed.

Lemma feature_eqb_refl (f : Feature) : feature_eqb f f = true.
Proof.
  unfold feature_eqb. rewrite hull_eqb_refl, andb_true_r.
  repeat (apply andb_true_iff; split); by apply Qeq_bool_iff.
Qed.

Lemma similar_features_refl (f : Feature) :
  similar_features f f RT_THRESHOLD MZ_THRESHOLD = true.
Proof.
  unfold similar_features. apply andb_true_iff.
  split; apply Qle_bool_true, Qabs_Qle_condition; unfold RT_THRESHOLD, MZ_THRESHOLD;
    split; lra.
Qed.

Lemma scan_internal_mono (feature1 : Feature) (i : nat) (rest : list Feature) :
  forall j similar x, x ∈ similar -> x ∈ scan_internal feature1 i j rest similar.
Proof.
  induction rest as [|f2 rest IH]; intros j similar x Hx; simpl; [done|].
  destruct (Nat.eqb i j); [by apply IH|].
  destruct (Qlt_bool _ _); [done|].
  destruct (similar_features _ _ _ _); apply IH; [|done].
  apply elem_of_app. by left.
Qed.

(** In a map sorted by RT the scan misses no similar feature: the break
    comes only after the last feature that can be similar. *)
Lemma scan_internal_complete (feature1 : Feature) (i : nat) (rest : list Feature) :
  forall j similar k x,
    sorted_by getRT rest ->
    rest !! k = Some x -> (j + k)%nat <> i ->
    similar_features feature1 x RT_THRESHOLD MZ_THRESHOLD = true ->
    x ∈ scan_internal feature1 i j rest similar.
Proof.
  induction rest as [|f2 rest IH]; intros j similar k x Hs Hk Hne Hsim; [done|].
  apply sorted_by_tail in Hs as [Hs Hmin]. simpl.
  assert (Hrec : forall similar', (0 < k)%nat ->
            x ∈ scan_internal feature1 i (S j) rest similar').
  { intros similar' Hpos. destruct k as [|k]; [lia|]. simpl in Hk.
    apply (IH (S j) similar' k x Hs Hk); [lia|done]. }
  destruct (Nat.eqb i j) eqn:Eij.
  { apply Nat.eqb_eq in Eij. apply Hrec. destruct k; [lia|lia]. }
  destruct (Qlt_bool _ _) eqn:Ebreak.
  { exfalso. apply Qlt_bool_true in Ebreak.
    apply similar_features_rt in Hsim as [_ Hhi].
    assert (Hge : getRT f2 <= getRT x).
    { destruct k as [|k]; simpl in Hk.
      - injection Hk as ->. apply Qle_refl.
      - apply Hmin. by eapply list_elem_of_lookup_2. }
    lra. }
  destruct k as [|k].
  - simpl in Hk. injection Hk as ->. rewrite Hsim.
    apply scan_internal_mono. apply elem_of_app. right. by left.
  - destruct (similar_features feature1 f2 _ _); apply Hrec; lia.
Qed.

Lemma max_by_area_fst {A} (feature_of : A -> Feature) (init : Q * A) (l : list A) :
  init.1 = area (feature_of init.2) ->
  (max_by_area feature_of init l).1 = area (feature_of (max_by_area feature_of init l).2).
Proof.
  intros H. destruct (max_by_area_choice feature_of init l) as [->|(c & _ & ->)]; done.
Qed.

(** The representative of [features[i]] has the largest hull area among
    the features of the map that are similar to [features[i]]. *)
Lemma internal_representative_max (features : FeatureMap) (i : nat) (feature1 : Feature) :
  sorted_by getRT features -> features !! i = Some feature1 ->
  forall k p, features !! k = Some p ->
    similar_features feature1 p RT_THRESHOLD MZ_THRESHOLD = true ->
    area p <= area (internal_representative features i feature1).
Proof.
  intros Hs Hi k p Hk Hsim. unfold internal_representative.
  set (first_idx := binary_search_left_rt getRT features (getRT feature1 - RT_THRESHOLD)).
  set (similar := scan_internal feature1 i first_idx (drop first_idx features) []).
  pose proof (max_by_area_bound id (area feature1, feature1) similar) as [Hinit Hall].
  rewrite (max_by_area_fst id) in Hinit, Hall by done. simpl in Hinit. unfold id in *.
  destruct (decide (k = i)) as [->|Hne].
  { assert (p = feature1) as -> by congruence. exact Hinit. }
  apply Hall. unfold similar.
  assert (Hge : (first_idx <= k)%nat).
  { destruct (le_lt_dec first_idx k) as [H|H]; [done|]. exfalso.
    pose proof (binary_search_left_rt_before getRT features _ k p H Hk) as Hlt.
    apply similar_features_rt in Hsim as [Hlo _]. lra. }
  apply (scan_internal_complete feature1 i _ first_idx [] (k - first_idx) p).
  - by apply sorted_by_drop.
  - rewrite lookup_drop. by replace (first_idx + (k - first_idx))%nat with k by lia.
  - lia.
  - done.
Qed.

Lemma internal_loop_keeps (features : FeatureMap) (todo : list Feature) (x : Feature) :
  forall i matched,
    feature_in x matched = true ->
    feature_in x (internal_loop features i todo matched) = true.
Proof.
  induction todo as [|f1 todo IH]; intros i matched H; [done|].
  cbn [internal_loop]. apply IH.
  destruct (feature_in (internal_representative features i f1) matched); [done|].
  by rewrite feature_in_app, H.
Qed.

Lemma internal_loop_adds (features : FeatureMap) (todo : list Feature) :
  forall i matched k f,
    todo !! k = Some f ->
    feature_in (internal_representative features (i + k) f)
               (internal_loop features i todo matched) = true.
Proof.
  induction todo as [|f1 todo IH]; intros i matched k f Hk; [done|].
  destruct k as [|k]; simpl in Hk; cbn [internal_loop].
  - injection Hk as ->. rewrite Nat.add_0_r. apply internal_loop_keeps.
    destruct (feature_in (internal_representative features i f) matched) eqn:E;
      [done|].
    rewrite feature_in_app. simpl. by rewrite feature_eqb_refl, orb_true_r.
  - replace (i + S k)%nat with (S i + k)%nat by lia. by apply IH.
Qed.


(** Every feature given to [match_features_internal] is represented in
    what it returns: the returned map holds (up to equality by value) a
    feature of the argument that is similar to it and whose hull area is
    the largest among the features of the argument similar to it. *)
Theorem match_features_internal_represents (features : FeatureMap) (f : Feature) :
  f ∈ features ->
  exists r,
    r ∈ features /\
    feature_in r (match_features_internal features).2 = true /\
    similar_features f r RT_THRESHOLD MZ_THRESHOLD = true /\
    forall p, p ∈ features ->
      similar_features f p RT_THRESHOLD MZ_THRESHOLD = true -> area p <= area r.
Proof.
  intros Hf. unfold match_features_internal. simpl.
  set (sorted := sortByRT features).
  assert (Hsorted : sorted_by getRT sorted) by apply sort_by_sorted.
  assert (Hf' : f ∈ sorted) by by apply sort_by_elem_of.
  apply list_elem_of_lookup in Hf' as [i Hi].
  exists (internal_representative sorted i f). split; [|split; [|split]].
  - destruct (internal_representative_choice sorted i f) as [->|[H _]]; [done|].
    by apply (sort_by_elem_of getRT).
  - apply (internal_loop_adds sorted sorted 0 [] i f Hi).
  - destruct (internal_representative_choice sorted i f) as [->|[_ H]]; [|done].
    apply similar_features_refl.
  - intros p Hp Hsim. apply (sort_by_elem_of getRT) in Hp.
    apply list_elem_of_lookup in Hp as [k Hk].
    by apply (internal_representative_max sorted i f Hsorted Hi k p).
Qed.

Lemma match_features_internal_represents_witness :
  exists r,
    r ∈ [chain_a; chain_b; chain_c] /\
    feature_in r (match_features_internal [chain_a; chain_b; chain_c]).2 = true /\
    similar_features chain_a r RT_THRESHOLD MZ_THRESHOLD = true /\
    forall p, p ∈ [chain_a; chain_b; chain_c] ->
      similar_features chain_a p RT_THRESHOLD MZ_THRESHOLD = true -> area p <= area r.
Proof.
  apply (match_features_internal_represents [chain_a; chain_b; chain_c] chain_a).
  by left.
Defined.



(** ** Every feature belongs to a chain *)

Lemma accounted_skip (features : list FeatureMap) (used : list (list bool))
    (chains : list Chain) (b i : nat) :
  get_flag used (b, i) = Some true ->
  accounted features used chains (b, i) -> accounted features used chains (b, S i).
Proof.
  intros Hflag [Ha Hb]. split; [|done]. intros [b' j'] Hf Hbef.
  unfold before in Hbef. simpl in Hbef.
  destruct (decide ((b', j') = (b, i))) as [->|Hne]; [by apply Hb|].
  apply Ha; [done|]. unfold before. simpl.
  assert (b' <> b \/ j' <> i) as [?|?] by (destruct (decide (b' = b)); [right|left]; congruence);
    lia.
Qed.

Lemma accounted_chain (features : list FeatureMap) (used used' : list (list bool))
    (chains : list Chain) (b i : nat) (feature1 : Feature)
    (feature_indices consumed : list (nat * nat)) (rep : Feature * nat) :
  covers used features ->
  extend_chain feature1 (S b) (drop (S b) features) used [(b, i)] []
  = Ok (feature_indices, consumed, used') ->
  accounted features used chains (b, i) ->
  accounted features used' (chains ++ [mkChain feature_indices consumed rep]) (b, S i).
Proof.
  intros Hcov Hext [Ha Hb].
  destruct (extend_chain_spec feature1 features (drop (S b) features)
              (S b) used [(b, i)] [] eq_refl Hcov)
    as (links & new & used2 & Hext' & (_ & Hin & Hout) & _ & _).
  rewrite Hext in Hext'. simpl in Hext'. injection Hext' as -> -> ->.
  split.
  - intros [b' j'] Hf Hbef. rewrite all_positions_snoc. apply elem_of_app.
    destruct (decide ((b', j') = (b, i))) as [->|Hne].
    + right. unfold chain_positions. simpl. by left.
    + left. apply Ha; [done|]. unfold before in *. simpl in *.
      assert (b' <> b \/ j' <> i) as [?|?]
        by (destruct (decide (b' = b)); [right|left]; congruence); lia.
  - intros pos Hflag. rewrite all_positions_snoc. apply elem_of_app.
    destruct (decide (pos ∈ new)) as [Hnew|Hnew].
    + right. unfold chain_positions. simpl. by right.
    + left. apply Hb. by rewrite <- (Hout pos Hnew).
Qed.

Lemma accounted_next_bin (features : list FeatureMap) (used : list (list bool))
    (chains : list Chain) (b i : nat) (bin : FeatureMap) :
  features !! b = Some bin -> drop i bin = [] ->
  accounted features used chains (b, i) -> accounted features used chains (S b, 0%nat).
Proof.
  intros Hbin Hdrop [Ha Hb]. split; [|done]. intros [b' j'] Hf Hbef.
  apply Ha; [done|]. unfold before in *. simpl in *.
  destruct (decide (b' = b)) as [->|Hne]; [|lia]. right. split; [done|].
  destruct Hf as [f Hf]. apply feature_at_inv in Hf as (bin' & Hbin' & Hj).
  simpl in Hbin', Hj. assert (bin' = bin) as -> by congruence.
  apply lookup_lt_Some in Hj.
  pose proof (length_drop bin i) as Hl. rewrite Hdrop in Hl. simpl in Hl. lia.
Qed.

Lemma pass_bin_loop_cover (features : list FeatureMap) (bin_idx : nat) (bin : FeatureMap) :
  features !! bin_idx = Some bin ->
  forall todo i used chains,
    drop i bin = todo ->
    pass_inv features used chains (bin_idx, i) ->
    accounted features used chains (bin_idx, i) ->
    exists used' chains',
      pass_bin_loop features bin_idx i todo used chains = Ok (used', chains') /\
      pass_inv features used' chains' (S bin_idx, 0%nat) /\
      accounted features used' chains' (S bin_idx, 0%nat).
Proof.
  intros Hbin. induction todo as [|feature1 todo IH]; intros i used chains Hdrop Hinv Hacc.
  - destruct (pass_bin_loop_spec features bin_idx bin Hbin [] i used chains Hdrop Hinv)
      as (used' & chains' & Hrun & Hinv').
    simpl in Hrun. injection Hrun as <- <-.
    exists used, chains. split; [done|]. split; [done|].
    by eapply accounted_next_bin.
  - apply drop_cons_inv in Hdrop as [Hi Hdrop].
    pose proof Hinv as (Hcov & _).
    destruct (Hcov (bin_idx, i)) as [u Hu].
    { rewrite (feature_at_Some _ _ _ _ _ Hbin Hi). eauto. }
    simpl. rewrite get2_flag, Hu. simpl. destruct u.
    + apply IH; [done|by apply pass_inv_skip|by apply accounted_skip].
    + destruct (pass_inv_chain features used chains bin_idx i bin feature1
                  Hbin Hi Hu Hinv)
        as (feature_indices & consumed & used' & r & Hext & Hmax & Hinv').
      rewrite Hext. simpl. rewrite Hmax. simpl.
      destruct r as [[intensity max_feature] max_idx]. simpl in *.
      apply IH; [done|done|]. by eapply accounted_chain.
Qed.

Lemma pass_loop_cover (features : list FeatureMap) :
  forall todo bin_idx used chains,
    drop bin_idx features = todo ->
    pass_inv features used chains (bin_idx, 0%nat) ->
    accounted features used chains (bin_idx, 0%nat) ->
    exists chains',
      pass_loop features bin_idx todo used chains = Ok chains' /\
      NoDup (all_positions chains') /\ Forall (chain_ok features) chains' /\
      forall pos, is_Some (feature_at features pos) -> pos ∈ all_positions chains'.
Proof.
  induction todo as [|bin todo IH]; intros bin_idx used chains Hdrop Hinv Hacc.
  - exists chains. split; [done|]. destruct Hinv as (_ & Hnd & _ & Hok).
    split; [done|]. split; [done|]. intros pos Hf.
    destruct Hacc as [Ha _]. apply Ha; [done|].
    left. simpl. destruct Hf as [f Hf]. apply feature_at_inv in Hf as (b & Hb & _).
    apply lookup_lt_Some in Hb.
    pose proof (length_drop features bin_idx) as Hl. rewrite Hdrop in Hl.
    simpl in Hl. lia.
  - apply drop_cons_inv in Hdrop as [Hbin Hdrop].
    destruct (pass_bin_loop_cover features bin_idx bin Hbin bin 0 used chains
                eq_refl Hinv Hacc) as (used' & chains' & Hrun & Hinv' & Hacc').
    simpl. rewrite Hrun. simpl. by apply IH.
Qed.

(** [match_features_pass] loses track of no feature: every feature of
    every bin is owned by exactly one chain, as its head or as a feature
    the chain consumed, and the chains own nothing else. *)
Theorem match_features_pass_owns_every_feature (features : list FeatureMap) :
  exists chains,
    match_features_pass_chains features = Ok (sort_bins features, chains) /\
    match_features_pass features = Ok (sort_bins features, map chain_rep chains) /\
    NoDup (all_positions chains) /\
    forall pos, pos ∈ all_positions chains <->
                is_Some (feature_at (sort_bins features) pos).
Proof.
  destruct (pass_loop_cover (sort_bins features) (sort_bins features) 0
              (fresh_used (sort_bins features)) [] eq_refl)
    as (chains & Hrun & Hnd & Hok & Hall).
  { split; [apply fresh_used_covers|]. split; [constructor|].
    split; [|constructor]. intros pos H. by inv H. }
  { split.
    - intros pos _ Hbef. unfold before in Hbef. simpl in Hbef. lia.
    - intros [b j] Hflag. exfalso. unfold get_flag, fresh_used in Hflag.
      simpl in Hflag. rewrite list_lookup_fmap in Hflag.
      destruct (sort_bins features !! b) as [bin|]; [|done]. simpl in Hflag.
      apply lookup_replicate in Hflag as [? _]. done. }
  exists chains.
  assert (H : match_features_pass_chains features = Ok (sort_bins features, chains)).
  { unfold match_features_pass_chains. by rewrite Hrun. }
  split; [exact H|]. split; [unfold match_features_pass; by rewrite H|].
  split; [exact Hnd|]. intros pos. split; [|apply Hall].
  intros Hpos. unfold all_positions in Hpos.
  apply list_elem_of_In, in_concat in Hpos as (ps & Hps & Hpos).
  apply in_map_iff in Hps as (c & <- & Hc).
  apply list_elem_of_In in Hpos, Hc.
  rewrite Forall_forall in Hok.
  destruct (Hok c Hc) as (head & links & hf & Hidx & Hhead & _ & Hcons & _).
  unfold chain_positions in Hpos. rewrite Hidx in Hpos. simpl in Hpos.
  apply elem_of_cons in Hpos as [->|Hpos]; [by rewrite Hhead|].
  destruct (Hcons pos Hpos) as (_ & f & -> & _). eauto.
Qed.

(** ** The clusters of the cleanup sweep partition the combined list *)

Lemma flagged_insert {A} (l : list A) :
  forall used j x,
    used !! j = Some false -> l !! j = Some x ->
    flagged (<[j := true]> used) l ≡ₚ x :: flagged used l.
Proof.
  induction l as [|y l IH]; intros used j x Hu Hx; [done|].
  destruct used as [|u used]; [done|]. destruct j as [|j]; simpl in *.
  - injection Hu as ->. by injection Hx as ->.
  - destruct u.
    + rewrite (IH used j x Hu Hx). apply perm_swap.
    + by apply IH.
Qed.

Lemma flagged_all {A} (l : list A) :
  forall used,
    length used = length l -> (forall k, (k < length l)%nat -> used !! k = Some true) ->
    flagged used l = l.
Proof.
  induction l as [|y l IH]; intros [|u used] Hlen Hall; simpl in *;
    [done|done|done|].
  pose proof (Hall 0%nat ltac:(lia)) as H0. simpl in H0. injection H0 as ->.
  f_equal. apply IH; [lia|]. intros k Hk. apply (Hall (S k)). lia.
Qed.

Lemma flagged_none {A} (l : list A) (n : nat) : flagged (replicate n false) l = [].
Proof.
  revert l. induction n as [|n IH]; intros [|y l]; simpl; done.
Qed.

Lemma consumes1_flagged {A} (l : list A) (idxs : list nat) (new : list A) :
  Forall2 (fun k c => l !! k = Some c) idxs new ->
  forall used used',
    consumes1 used used' idxs ->
    flagged used' l ≡ₚ new ++ flagged used l.
Proof.
  induction 1 as [|k c idxs new Hk _ IH]; intros used used' (Hnd & Hlen & Hin & Hout).
  - simpl. assert (used' = used) as ->; [|done].
    apply list_eq. intros k. apply Hout. intros H. by inv H.
  - apply NoDup_cons in Hnd as [Hk' Hnd].
    destruct (Hin k) as [Hf Ht]; [by left|].
    assert (Hcons : consumes1 (<[k := true]> used) used' idxs).
    { split; [done|]. split; [by rewrite length_insert|]. split.
      - intros k2 Hk2. destruct (Hin k2) as [Hf2 Ht2]; [by right|].
        split; [|done]. rewrite list_lookup_insert_ne; [done|]. intros ->. done.
      - intros k2 Hk2. destruct (decide (k2 = k)) as [->|Hne].
        + rewrite Ht. symmetry. apply list_lookup_insert_eq. by eapply lookup_lt_Some.
        + rewrite list_lookup_insert_ne by done. apply Hout.
          intros H2. apply elem_of_cons in H2 as [H2|H2]; done. }
    rewrite (IH _ _ Hcons), (flagged_insert l used k c Hf Hk). simpl.
    by rewrite Permutation_middle.
Qed.

Lemma clean_loop_partition (feature_bins : list (Feature * Q)) :
  forall todo i used clusters,
    drop i feature_bins = todo -> length used = length feature_bins ->
    (forall k, (k < i)%nat -> (k < length feature_bins)%nat -> used !! k = Some true) ->
    concat (map cluster_members clusters) ≡ₚ flagged used feature_bins ->
    exists clusters',
      clean_loop feature_bins i todo used clusters = Ok clusters' /\
      concat (map cluster_members clusters') ≡ₚ feature_bins.
Proof.
  induction todo as [|anchor todo IH]; intros i used clusters Hdrop Hlen Hdone Hperm.
  - exists clusters. split; [done|]. rewrite Hperm. rewrite flagged_all; [done|done|].
    intros k Hk. apply Hdone; [|done].
    pose proof (length_drop feature_bins i) as Hl. rewrite Hdrop in Hl. simpl in Hl. lia.
  - apply drop_cons_inv in Hdrop as [Hi Hdrop].
    destruct (lookup_lt_is_Some_2 used i) as [u Hu].
    { rewrite Hlen. by eapply lookup_lt_Some. }
    simpl. rewrite (py_get_Some _ _ _ Hu). simpl. destruct u.
    { apply IH; try done. intros k Hk Hk'.
      destruct (decide (k = i)) as [->|Hne]; [done|]. apply Hdone; [lia|done]. }
    set (first_idx := binary_search_left_rt (fun x : Feature * Q => getRT x.1)
                        feature_bins (getRT anchor.1 - RT_THRESHOLD)).
    set (cond := fun x : Feature * Q =>
                   similar_features anchor.1 x.1 RT_THRESHOLD MZ_THRESHOLD
                   && Qeq_bool anchor.2 x.2).
    destruct (scan_window_spec (fun x : Feature * Q => getRT x.1)
                (getRT anchor.1 + RT_THRESHOLD) cond feature_bins
                (drop first_idx feature_bins) first_idx (<[i := true]> used) []
                eq_refl)
      as (idxs & new & used2 & Hscan & Hcons & Hnew & _).
    { by rewrite length_insert. }
    simpl in Hscan. rewrite scan_clean_window. fold cond. rewrite Hscan. simpl.
    apply IH; [done| | |].
    + destruct Hcons as (_ & -> & _). by rewrite length_insert.
    + intros k Hk Hk'. apply (consumes1_marked _ _ _ _ Hcons).
      destruct (decide (k = i)) as [->|Hne].
      * apply list_lookup_insert_eq. by eapply lookup_lt_Some.
      * rewrite list_lookup_insert_ne by done. apply Hdone; [lia|done].
    + rewrite map_app, concat_app. simpl. rewrite app_nil_r.
      rewrite (consumes1_flagged feature_bins idxs new Hnew _ _ Hcons).
      rewrite (flagged_insert feature_bins used i anchor Hu Hi).
      rewrite Hperm. unfold cluster_members. simpl.
      rewrite (Permutation_app_comm new). simpl.
      rewrite Permutation_middle. by rewrite Permutation_app_comm.
Qed.

(** The cleanup sweep drops no entry of the combined list without a
    cluster and puts none in two clusters: the members of its clusters
    are, together, the entries of the list, each as often as it occurs;
    so there are never more clusters (rows of the output) than entries. *)
Theorem cleanup_partitions_combined_list (feature_bins : list (Feature * Q)) :
  exists clusters,
    cleanup feature_bins = Ok clusters /\
    concat (map cluster_members clusters) ≡ₚ feature_bins /\
    (length clusters <= length feature_bins)%nat.
Proof.
  set (sorted := sort_by (fun x : Feature * Q => getRT x.1) feature_bins).
  destruct (clean_loop_partition sorted sorted 0 (replicate (length sorted) false) [])
    as (clusters & Hrun & Hperm);
    [done|by rewrite length_replicate|intros k Hk; lia| |].
  { by rewrite flagged_none. }
  exists clusters. split; [exact Hrun|].
  assert (Hp : concat (map cluster_members clusters) ≡ₚ feature_bins).
  { rewrite Hperm. apply sort_by_perm. }
  split; [exact Hp|]. rewrite <- Hp. clear.
  induction clusters as [|c clusters IH]; [done|].
  cbn [map concat]. rewrite length_app. unfold cluster_members at 1.
  cbn [length]. lia.
Qed.

(** ** The IM value attached to a feature *)

Lemma cross_pass_one_im (ims : list Q * list Q) (f1 : Feature) (bin1 : nat)
    (pass2 : list (Feature * nat)) (used : list bool) :
  length used = length pass2 ->
  (bin1 < length ims.1)%nat ->
  (forall s, s ∈ pass2 -> (s.2 < length ims.2)%nat) ->
  exists kept used',
    cross_pass_one ims f1 bin1 pass2 used = Ok (kept, used') /\
    length used' = length used /\
    ((kept.1 = f1 /\ ims.1 !! bin1 = Some kept.2) \/
     exists s, s ∈ pass2 /\ kept.1 = s.1 /\ ims.2 !! s.2 = Some kept.2).
Proof.
  intros Hlen Hbin1 Hims.
  set (first_idx := binary_search_left_rt (fun x : Feature * nat => getRT x.1) pass2
                      (getRT f1 - RT_THRESHOLD)).
  destruct (scan_window_spec (fun x : Feature * nat => getRT x.1)
              (getRT f1 + RT_THRESHOLD)
              (fun x : Feature * nat =>
                 similar_features f1 x.1 RT_THRESHOLD MZ_THRESHOLD
                 && (Nat.eqb bin1 x.2 || Nat.eqb (bin1 + 1) x.2)) pass2
              (drop first_idx pass2) first_idx used [] eq_refl Hlen)
    as (idxs & new & used' & Hscan & Hcons & Hnew & _).
  simpl in Hscan.
  assert (Hsub : forall s, s ∈ new -> s ∈ pass2).
  { intros s Hs. destruct (Forall2_lookup_elem _ _ _ Hnew s Hs) as (k & _ & Hk).
    by eapply list_elem_of_lookup_2. }
  destruct (py_get_lt ims.1 bin1 Hbin1) as (im1 & Him1 & Gim1).
  destruct (pick_cross_spec ims.2 new (area f1) (f1, im1))
    as (kept & Hpick & Hkept & _); [|done|].
  { intros s Hs. by apply Hims, Hsub. }
  exists kept, used'. split.
  { unfold cross_pass_one. fold first_idx. rewrite scan_cross_window, Hscan.
    simpl. rewrite Gim1. simpl. by rewrite Hpick. }
  split; [by destruct Hcons as (_ & ? & _)|].
  destruct Hkept as [->|(s & Hs & H1 & H2)]; [by left|].
  right. exists s. split; [by apply Hsub|done].
Qed.

Lemma cross_pass_loop_im (ims : list Q * list Q) (pass2 : list (Feature * nat)) :
  (forall s, s ∈ pass2 -> (s.2 < length ims.2)%nat) ->
  forall pass1 used feature_bins,
    length used = length pass2 ->
    (forall s, s ∈ pass1 -> (s.2 < length ims.1)%nat) ->
    exists feature_bins' used',
      cross_pass_loop ims pass1 pass2 used feature_bins = Ok (feature_bins', used') /\
      length used' = length used /\
      forall x, x ∈ feature_bins' ->
        x ∈ feature_bins \/
        (exists s, s ∈ pass1 /\ x.1 = s.1 /\ ims.1 !! s.2 = Some x.2) \/
        (exists s, s ∈ pass2 /\ x.1 = s.1 /\ ims.2 !! s.2 = Some x.2).
Proof.
  intros Hims2.
  induction pass1 as [|[feature1 bin1] pass1 IH]; intros used feature_bins Hlen Hims1.
  - exists feature_bins, used. simpl. split; [done|]. split; [done|]. by left.
  - destruct (cross_pass_one_im ims feature1 bin1 pass2 used Hlen)
      as (kept & used1 & Hone & Hlen1 & Hkept); [|done|].
    { apply (Hims1 (feature1, bin1)). by left. }
    destruct (IH used1 (feature_bins ++ [kept])) as (fb' & used' & Hrun & Hlen' & Hfb).
    { congruence. }
    { intros s Hs. apply Hims1. by right. }
    exists fb', used'. simpl. rewrite Hone. simpl. split; [done|].
    split; [congruence|]. intros x Hx.
    destruct (Hfb x Hx) as [H|[(s & Hs & H)|H]]; [| |by right; right].
    + apply elem_of_app in H as [H|H]; [by left|].
      apply list_elem_of_singleton in H as ->. right.
      destruct Hkept as [[H1 H2]|(s & Hs & H1)].
      * left. exists (feature1, bin1). split; [by left|done].
      * right. by exists s.
    + right. left. exists s. split; [by right|done].
Qed.

Lemma second_pass_only_im (ims2 : list Q) (pass2 : list (Feature * nat))
    (used : list bool) :
  length used = length pass2 ->
  (forall s, s ∈ pass2 -> (s.2 < length ims2)%nat) ->
  forall rest j feature_bins,
    drop j pass2 = rest ->
    exists feature_bins',
      second_pass_only ims2 j rest used feature_bins = Ok feature_bins' /\
      forall x, x ∈ feature_bins' ->
        x ∈ feature_bins \/
        exists s, s ∈ pass2 /\ x.1 = s.1 /\ ims2 !! s.2 = Some x.2.
Proof.
  intros Hlen Hims. induction rest as [|[feature2 bin2] rest IH];
    intros j feature_bins Hdrop.
  - exists feature_bins. split; [done|]. by left.
  - apply drop_cons_inv in Hdrop as [Hj Hdrop].
    destruct (lookup_lt_is_Some_2 used j) as [u Hu].
    { rewrite Hlen. by eapply lookup_lt_Some. }
    simpl. rewrite (py_get_Some _ _ _ Hu). simpl. destruct u; [by apply IH|].
    destruct (py_get_lt ims2 bin2) as (im & Him & Gim).
    { apply (Hims (feature2, bin2)). by eapply list_elem_of_lookup_2. }
    rewrite Gim. simpl.
    destruct (IH (S j) (feature_bins ++ [(feature2, im)]) Hdrop) as (fb' & Hrun & Hfb).
    exists fb'. split; [done|]. intros x Hx.
    destruct (Hfb x Hx) as [H|H]; [|by right].
    apply elem_of_app in H as [H|H]; [by left|].
    apply list_elem_of_singleton in H as ->. right.
    exists (feature2, bin2). split; [by eapply list_elem_of_lookup_2|done].
Qed.

(** The IM value that [match_features] attaches to a feature it returns
    is never made up: it is the entry of [im_scan_nums] (the average IM)
    of a bin in which that very feature was found, of the first pass or
    of the second. *)
Theorem match_features_tags_with_bin_average (ff : FeatureFinder)
    (features1 features2 : list FeatureMap) :
  (length features1 <= length (im_scan_nums ff).1)%nat ->
  (length features2 <= length (im_scan_nums ff).2)%nat ->
  exists cleaned clean_bins,
    match_features ff features1 features2
    = Ok (sort_bins features1, sort_bins features2, (cleaned, clean_bins)) /\
    forall f im, (f, im) ∈ clean_bins ->
      (exists b bin, features1 !! b = Some bin /\ f ∈ bin /\
                     (im_scan_nums ff).1 !! b = Some im) \/
      (exists b bin, features2 !! b = Some bin /\ f ∈ bin /\
                     (im_scan_nums ff).2 !! b = Some im).
Proof.
  intros L1 L2.
  destruct (match_features_pass_frame features1) as (pass1 & Hp1 & Hf1).
  destruct (match_features_pass_frame features2) as (pass2 & Hp2 & Hf2).
  set (sorted2 := sort_by (fun x : Feature * nat => getRT x.1) pass2).
  assert (Hs2 : forall s, s ∈ sorted2 -> s ∈ pass2).
  { intros s Hs. unfold sorted2 in Hs. by apply sort_by_elem_of in Hs. }
  assert (Hims2 : forall s, s ∈ sorted2 -> (s.2 < length (im_scan_nums ff).2)%nat).
  { intros s Hs. destruct (Hf2 s (Hs2 s Hs)) as (bin & Hbin & _).
    apply lookup_lt_Some in Hbin. lia. }
  destruct (cross_pass_loop_im (im_scan_nums ff) sorted2 Hims2 pass1
              (replicate (length pass2) false) [])
    as (fb & used' & Hloop & Hlen & Hfb).
  { rewrite length_replicate. symmetry. apply sort_by_length. }
  { intros s Hs. destruct (Hf1 s Hs) as (bin & Hbin & _).
    apply lookup_lt_Some in Hbin. lia. }
  destruct (second_pass_only_im (im_scan_nums ff).2 sorted2 used') with
    (rest := sorted2) (j := 0%nat) (feature_bins := fb) as (fb' & Hsecond & Hfb');
    [|done|done|].
  { rewrite Hlen, length_replicate. symmetry. apply sort_by_length. }
  set (sorted_fb := sort_by (fun x : Feature * Q => getRT x.1) fb').
  destruct (clean_loop_spec sorted_fb sorted_fb 0
              (replicate (length sorted_fb) false) [])
    as (clusters & Hclean & Hok); [done|by rewrite length_replicate|constructor|].
  exists (map (fun c => (cluster_rep c).1) clusters), (map cluster_rep clusters).
  split.
  { unfold match_features, match_features_clusters, combine_passes.
    rewrite Hp1. simpl. rewrite Hp2. simpl. fold sorted2. rewrite Hloop. simpl.
    rewrite Hsecond. simpl. unfold cleanup. fold sorted_fb. by rewrite Hclean. }
  intros f im Hf. apply list_elem_of_In, in_map_iff in Hf as (c & Hrepc & Hc).
  apply list_elem_of_In in Hc. rewrite Forall_forall in Hok.
  destruct (Hok c Hc) as (Hmem & _ & Hrep & _).
  specialize (Hmem _ Hrep). unfold sorted_fb in Hmem.
  apply sort_by_elem_of in Hmem. rewrite Hrepc in Hmem.
  assert (From1 : forall s, s ∈ pass1 -> f = s.1 ->
            (im_scan_nums ff).1 !! s.2 = Some im ->
            exists b bin, features1 !! b = Some bin /\ f ∈ bin /\
                          (im_scan_nums ff).1 !! b = Some im).
  { intros s Hs -> Him. destruct (Hf1 s Hs) as (bin & Hbin & Hin). by exists s.2, bin. }
  assert (From2 : forall s, s ∈ sorted2 -> f = s.1 ->
            (im_scan_nums ff).2 !! s.2 = Some im ->
            exists b bin, features2 !! b = Some bin /\ f ∈ bin /\
                          (im_scan_nums ff).2 !! b = Some im).
  { intros s Hs -> Him. destruct (Hf2 s (Hs2 s Hs)) as (bin & Hbin & Hin).
    by exists s.2, bin. }
  destruct (Hfb' _ Hmem) as [H|(s & Hs & H1 & H2)].
  - destruct (Hfb _ H) as [H0|[(s & Hs & H1 & H2)|(s & Hs & H1 & H2)]]; [by inv H0| |].
    + left. by apply (From1 s).
    + right. by apply (From2 s).
  - right. by apply (From2 s).
Qed.

Lemma match_features_tags_with_bin_average_witness :
  exists cleaned clean_bins,
    match_features (set_im_scan_nums two_bins some_ims)
                   [[near_mid; near_hi]; []] [[]; [near_lo]; []]
    = Ok (sort_bins [[near_mid; near_hi]; []], sort_bins [[]; [near_lo]; []],
          (cleaned, clean_bins)) /\
    forall f im, (f, im) ∈ clean_bins ->
      (exists b bin, [[near_mid; near_hi]; []] !! b = Some bin /\ f ∈ bin /\
                     some_ims.1 !! b = Some im) \/
      (exists b bin, [[]; [near_lo]; []] !! b = Some bin /\ f ∈ bin /\
                     some_ims.2 !! b = Some im).
Proof.
  apply (match_features_tags_with_bin_average (set_im_scan_nums two_bins some_ims)
           [[near_mid; near_hi]; []] [[]; [near_lo]; []]); simpl; lia.
Defined.

(** ** The whole run *)






(** ** The output name *)

#[local] Arguments Ascii.eqb : simpl never.

(** The script accepts an output name exactly when it ends with
    [.featureXML]: the test for [.mzML] never changes the outcome, and a
    name that ends with [.mzML] is always refused, although the message
    printed then asks for a featureXML or mzML file. *)
Theorem out_name_accepted_iff_featureXML (out : String.string) :
  out_rejected out = negb (endswith out ".featureXML"%string) /\
  (endswith out ".mzML"%string = true -> out_rejected out = true).
Proof.
  assert (H : out_rejected out = negb (endswith out ".featureXML"%string)).
  { unfold out_rejected, endswith.
    generalize (rev (String.list_ascii_of_string out)). intros l. simpl.
    destruct l as [|c1 [|c2 [|c3 l]]]; simpl; try done.
    - by destruct (Ascii.eqb "L"%char c1).
    - destruct (Ascii.eqb "L"%char c1); simpl; [|done].
      by destruct (Ascii.eqb "M"%char c2).
    - destruct (Ascii.eqb "L"%char c1); simpl; [|done].
      destruct (Ascii.eqb "M"%char c2); simpl; [|done].
      destruct (Ascii.eqb "X"%char c3) eqn:EX; simpl; [|done].
      apply Ascii.eqb_eq in EX. subst c3.
      replace (Ascii.eqb "z"%char "X"%char) with false by reflexivity.
      simpl. by rewrite orb_false_r. }
  split; [exact H|].
  intros E. unfold out_rejected. rewrite E. apply orb_true_r.
Qed.

Lemma out_name_accepted_iff_featureXML_witness :
  endswith "features.mzML"%string ".mzML"%string = true /\
  out_rejected "features.mzML"%string = true /\
  out_rejected "features.featureXML"%string = false.
Proof.
  assert (H : endswith "features.mzML"%string ".mzML"%string = true) by reflexivity.
  split; [exact H|]. split.
  - exact (proj2 (out_name_accepted_iff_featureXML "features.mzML"%string) H).
  - reflexivity.
Defined.
